(** * GIMP Python-Fu plug-ins: Flower of Life and Yin-Yang

    A shallow embedding of the three plug-in scripts

      - [Gimp 2/Draw-Flower-Of-Life-v1.01.py]
      - [Gimp 2/yin-yang-1-05.py]
      - [yin-yang-1-02.py]

    The scripts are straight-line Python 2 programs which talk to the
    image editor through its procedure database.  A render call is
    modelled as a computation in a small state-and-error monad whose
    state carries the script's module-level variables and the ordered
    list of procedure-database calls issued so far.

    Python [int] is [Z].  Python [float] is an instance of the class
    [PyFloat]: IEEE binary64 ([PrimFloat.float], executable) or the
    real numbers ([R], used for statements that quantify over all
    inputs and for everything that involves [math.sin]/[math.cos]).

    The file has five parts: the scripts; the vocabulary in which
    their properties are stated; the facts about the scripts, with a
    small calculus for running a render computation symbolically; the
    properties C1 to C10; and further properties, X1 to X19. *)

From Stdlib Require Import ZArith List String Bool Lia.
From Stdlib Require Import Floats Uint63.
From Stdlib Require Import Reals Lra.
From Stdlib Require DecimalString.
Import ListNotations.

Set Implicit Arguments.
Local Open Scope Z_scope.

(* ================================================================== *)
(** * Python numbers *)
(* ================================================================== *)

Module Py.

(** The operations the scripts (and [colorsys]) perform on floats. *)
Class PyFloat (F : Type) : Type := {
  of_int  : Z -> F;            (* float(z), and int/float promotion *)
  fadd    : F -> F -> F;
  fsub    : F -> F -> F;
  fmul    : F -> F -> F;
  fdiv    : F -> F -> F;       (* divisor known to be non-zero *)
  fopp    : F -> F;
  feqb    : F -> F -> bool;
  fltb    : F -> F -> bool;
  fleb    : F -> F -> bool;
  fmod1   : F -> F;            (* x % 1.0 *)
  to_int  : F -> Z;            (* int(x): truncation toward zero *)
  radians : F -> F             (* math.radians *)
}.

(** ** IEEE binary64 *)

Definition float_of_int (z : Z) : float :=
  match z with
  | Z0 => PrimFloat.zero
  | Zpos p => PrimFloat.of_uint63 (Uint63.of_pos p)
  | Zneg p => PrimFloat.opp (PrimFloat.of_uint63 (Uint63.of_pos p))
  end.

(** Value of a 63-bit machine integer, least significant bit first. *)
Fixpoint Z_of_bits (fuel : nat) (i : int) : Z :=
  match fuel with
  | O => 0
  | S n =>
      if Uint63.eqb i 0%uint63 then 0
      else
        let r := Z_of_bits n (Uint63.lsr i 1%uint63) in
        if Uint63.is_even i then Z.double r else Z.succ_double r
  end.

(** [frshiftexp] biases the exponent by 2101; the mantissa returned
    by [normfr_mantissa] is an integer of 53 bits. *)
Definition exp_bias : int := 2101%uint63.
Definition mant_bits : int := 53%uint63.

(** Integer part of [|x|] for a finite [x]. *)
Definition trunc_abs (x : float) : Z :=
  let (m, e) := PrimFloat.frshiftexp (PrimFloat.abs x) in
  let mant := PrimFloat.normfr_mantissa m in
  if Uint63.leb e exp_bias then 0
  else if Uint63.leb e (Uint63.add exp_bias mant_bits) then
    Z_of_bits 63 (Uint63.lsr mant (Uint63.sub (Uint63.add exp_bias mant_bits) e))
  else
    Z.shiftl (Z_of_bits 63 mant)
             (Uint63.to_Z (Uint63.sub e (Uint63.add exp_bias mant_bits))).

(** [int(x)]; Python raises on nan and on the infinities, which no
    dialog value produces: the model answers 0 there. *)
Definition float_to_int (x : float) : Z :=
  if PrimFloat.is_finite x then
    if PrimFloat.ltb x PrimFloat.zero then - trunc_abs x else trunc_abs x
  else 0.

(** Fractional part of [|x|] for a finite [x]; exact. *)
Definition frac_abs (x : float) : float :=
  let (m, e) := PrimFloat.frshiftexp (PrimFloat.abs x) in
  let mant := PrimFloat.normfr_mantissa m in
  if Uint63.leb e exp_bias then PrimFloat.abs x
  else if Uint63.leb e (Uint63.add exp_bias mant_bits) then
    let k := Uint63.sub (Uint63.add exp_bias mant_bits) e in
    let fr := Uint63.sub mant (Uint63.lsl (Uint63.lsr mant k) k) in
    PrimFloat.ldshiftexp (PrimFloat.of_uint63 fr) (Uint63.sub exp_bias k)
  else PrimFloat.zero.

(** [x % 1.0]: [fmod] is exact and keeps the sign of [x]; a negative
    remainder is then moved up by one (a rounded addition). *)
Definition float_mod1 (x : float) : float :=
  if PrimFloat.is_finite x then
    let r := frac_abs x in
    if PrimFloat.eqb r PrimFloat.zero then PrimFloat.zero
    else if PrimFloat.ltb x PrimFloat.zero
         then PrimFloat.add (PrimFloat.opp r) PrimFloat.one
         else r
  else PrimFloat.nan.

(** [math.pi / 180.0], the factor of [math.radians]. *)
Definition degToRad : float :=
  Eval vm_compute in
    PrimFloat.div 0x1.921fb54442d18p+1%float (PrimFloat.of_uint63 180%uint63).

#[export] Instance float_PyFloat : PyFloat float := {
  of_int := float_of_int;
  fadd := PrimFloat.add;
  fsub := PrimFloat.sub;
  fmul := PrimFloat.mul;
  fdiv := PrimFloat.div;
  fopp := PrimFloat.opp;
  feqb := PrimFloat.eqb;
  fltb := PrimFloat.ltb;
  fleb := PrimFloat.leb;
  fmod1 := float_mod1;
  to_int := float_to_int;
  radians := fun x => PrimFloat.mul x degToRad
}.

(** ** Real numbers *)

Definition Reqb (a b : R) : bool := if Req_dec_T a b then true else false.
Definition Rltb (a b : R) : bool := if Rlt_dec a b then true else false.
Definition Rleb (a b : R) : bool := if Rle_dec a b then true else false.

(** [Int_part] is the floor; [int] truncates toward zero. *)
Definition R_to_int (x : R) : Z :=
  if Rle_dec 0 x then Int_part x else - Int_part (- x).

(** [x % 1.0] lies in [0, 1): it is [x - floor x]. *)
Definition R_mod1 (x : R) : R := (x - IZR (Int_part x))%R.

#[export] Instance R_PyFloat : PyFloat R := {
  of_int := IZR;
  fadd := Rplus;
  fsub := Rminus;
  fmul := Rmult;
  fdiv := Rdiv;
  fopp := Ropp;
  feqb := Reqb;
  fltb := Rltb;
  fleb := Rleb;
  fmod1 := R_mod1;
  to_int := R_to_int;
  radians := fun x => (x * (PI / 180))%R
}.

(** ** Sequences *)

(** [seq[i]] with Python's negative indices; [None] is IndexError. *)
Definition getitem {A} (l : list A) (i : Z) : option A :=
  let n := Z.of_nat (List.length l) in
  if (0 <=? i) && (i <? n) then nth_error l (Z.to_nat i)
  else if (- n <=? i) && (i <? 0) then nth_error l (Z.to_nat (n + i))
  else None.

Fixpoint replace_nth {A} (l : list A) (k : nat) (v : A) : list A :=
  match l, k with
  | [], _ => []
  | _ :: t, O => v :: t
  | h :: t, S k' => h :: replace_nth t k' v
  end.

(** [seq[i] = v]; [None] is IndexError. *)
Definition setitem {A} (l : list A) (i : Z) (v : A) : option (list A) :=
  let n := Z.of_nat (List.length l) in
  if (0 <=? i) && (i <? n) then Some (replace_nth l (Z.to_nat i) v)
  else if (- n <=? i) && (i <? 0) then Some (replace_nth l (Z.to_nat (n + i)) v)
  else None.

(** [range(n)] *)
Definition range (n : Z) : list Z := List.map Z.of_nat (List.seq 0 (Z.to_nat n)).

(** [str(z)] for an int. *)
Definition str (z : Z) : string := DecimalString.NilZero.string_of_int (Z.to_int z).

End Py.
Import Py.

(* ================================================================== *)
(** * The host: procedure-database calls and the render monad *)
(* ================================================================== *)

Module Gimp.

(** An RGB colour as the scripts index it: three ints. *)
Definition color : Type := (Z * Z * Z)%type.

Definition BLACK : color := (0, 0, 0).
Definition WHITE : color := (255, 255, 255).

(** Objects the host hands back (layers, masks, gradients, message
    handlers) are opaque to the scripts; the model numbers them in
    the order in which they are returned. *)
Definition handle : Type := nat.

Inductive channel_op := CHANNEL_OP_ADD | CHANNEL_OP_SUBTRACT | CHANNEL_OP_REPLACE.
Inductive layer_mode := LAYER_MODE_NORMAL | LAYER_MODE_DIFFERENCE.
Inductive mask_type := ADD_MASK_SELECTION | ADD_MASK_ALPHA.
Inductive fill_mode := BUCKET_FILL_FG | BUCKET_FILL_PATTERN.
Inductive message_handler := ERROR_CONSOLE | saved_handler (h : handle).

(** One constructor per host procedure the scripts call.  The single
    image of a render call is left implicit; arguments the scripts
    always pass as the same literal are left out; numeric arguments
    have the type the procedure declares ([F] for a float).
    [gimp_item_transform_rotate] takes its angle in radians; the
    constructor also keeps the angle in degrees that the scripts hand
    to [math.radians] to get it. *)
Inductive call (F : Type) : Type :=
| gimp_context_push
| gimp_context_pop
| gimp_context_set_antialias (on : bool)
| gimp_context_set_feather (on : bool)
| gimp_context_set_foreground (c : color)
| gimp_context_set_gradient (gradient : handle)
| gimp_context_set_pattern (pattern : string)
| gimp_Image (width height : Z)
| gimp_display_new
| gimp_displays_flush
| gimp_image_undo_group_start
| gimp_image_undo_group_end
| gimp_layer_new (result : handle) (width height : Z) (name : string) (mode : layer_mode)
| image_add_layer (layer : handle) (position : Z)
| gimp_layer_copy (result : handle) (layer : handle)
| layer_set_name (layer : handle) (name : string)
| layer_merge_shadow (layer : handle)
| layer_flush (layer : handle)
| gimp_image_get_layer_by_name (result : handle) (name : string)
| gimp_image_remove_layer (layer : handle)
| gimp_item_set_visible (layer : handle) (visible : bool)
| gimp_image_select_ellipse (op : channel_op) (x y width height : F)
| gimp_image_select_rectangle (op : channel_op) (x y width height : F)
| gimp_image_select_color (op : channel_op) (layer : handle) (c : color)
| gimp_selection_none
| gimp_edit_bucket_fill (layer : handle) (mode : fill_mode)
| gimp_drawable_fill (layer : handle)
| gimp_drawable_edit_gradient_fill (layer : handle) (x1 y1 x2 y2 : F)
| gimp_drawable_invert (layer : handle)
| plug_in_colortoalpha (layer : handle) (c : color)
| gimp_layer_create_mask (result : handle) (layer : handle) (kind : mask_type)
| gimp_layer_add_mask (layer : handle) (mask : handle)
| gimp_image_merge_visible_layers
| gimp_image_merge_down (layer : handle)
| gimp_image_scale_full (width height : Z)
| gimp_image_crop (width height : Z)
| gimp_item_transform_flip_simple (layer : handle)
| gimp_item_transform_rotate (layer : handle) (angle_degrees : F) (angle : F) (cx cy : F)
| gimp_gradient_new (result : handle) (name : string)
| gimp_gradient_segment_set_left_color (gradient : handle) (c : color)
| gimp_gradient_segment_set_right_color (gradient : handle) (c : color)
| gimp_gradient_segment_range_set_blending_function (gradient : handle)
| gimp_gradient_segment_range_set_coloring_type (gradient : handle)
| gimp_gradient_delete (gradient : handle)
| gimp_message_get_handler (result : handle)
| gimp_message_set_handler (handler : message_handler)
| gimp_message (msg : string).

Arguments gimp_context_push {F}.
Arguments gimp_context_pop {F}.
Arguments gimp_context_set_antialias {F}.
Arguments gimp_context_set_feather {F}.
Arguments gimp_context_set_foreground {F}.
Arguments gimp_context_set_gradient {F}.
Arguments gimp_context_set_pattern {F}.
Arguments gimp_Image {F}.
Arguments gimp_display_new {F}.
Arguments gimp_displays_flush {F}.
Arguments gimp_image_undo_group_start {F}.
Arguments gimp_image_undo_group_end {F}.
Arguments gimp_layer_new {F}.
Arguments image_add_layer {F}.
Arguments gimp_layer_copy {F}.
Arguments layer_set_name {F}.
Arguments layer_merge_shadow {F}.
Arguments layer_flush {F}.
Arguments gimp_image_get_layer_by_name {F}.
Arguments gimp_image_remove_layer {F}.
Arguments gimp_item_set_visible {F}.
Arguments gimp_image_select_color {F}.
Arguments gimp_selection_none {F}.
Arguments gimp_edit_bucket_fill {F}.
Arguments gimp_drawable_fill {F}.
Arguments gimp_drawable_invert {F}.
Arguments plug_in_colortoalpha {F}.
Arguments gimp_layer_create_mask {F}.
Arguments gimp_layer_add_mask {F}.
Arguments gimp_image_merge_visible_layers {F}.
Arguments gimp_image_merge_down {F}.
Arguments gimp_image_scale_full {F}.
Arguments gimp_image_crop {F}.
Arguments gimp_item_transform_flip_simple {F}.
Arguments gimp_gradient_new {F}.
Arguments gimp_gradient_segment_set_left_color {F}.
Arguments gimp_gradient_segment_set_right_color {F}.
Arguments gimp_gradient_segment_range_set_blending_function {F}.
Arguments gimp_gradient_segment_range_set_coloring_type {F}.
Arguments gimp_gradient_delete {F}.
Arguments gimp_message_get_handler {F}.
Arguments gimp_message_set_handler {F}.
Arguments gimp_message {F}.

(** ** Classification of the calls *)

Definition is_undo_start {F} (c : call F) : bool :=
  match c with gimp_image_undo_group_start => true | _ => false end.

Definition is_undo_end {F} (c : call F) : bool :=
  match c with gimp_image_undo_group_end => true | _ => false end.

Definition is_selection {F} (c : call F) : bool :=
  match c with
  | gimp_image_select_ellipse _ _ _ _ _
  | gimp_image_select_rectangle _ _ _ _ _
  | gimp_image_select_color _ _ _
  | gimp_selection_none => true
  | _ => false
  end.

Definition is_fill {F} (c : call F) : bool :=
  match c with
  | gimp_edit_bucket_fill _ _
  | gimp_drawable_fill _
  | gimp_drawable_edit_gradient_fill _ _ _ _ _ => true
  | _ => false
  end.

Definition is_merge {F} (c : call F) : bool :=
  match c with
  | gimp_image_merge_visible_layers
  | gimp_image_merge_down _ => true
  | _ => false
  end.

Definition is_transform {F} (c : call F) : bool :=
  match c with
  | gimp_item_transform_flip_simple _
  | gimp_item_transform_rotate _ _ _ _ _
  | gimp_image_scale_full _ _
  | gimp_image_crop _ _
  | gimp_drawable_invert _
  | plug_in_colortoalpha _ _ => true
  | _ => false
  end.

(** The calls that change pixels or the selection. *)
Definition is_draw {F} (c : call F) : bool :=
  is_selection c || is_fill c || is_merge c || is_transform c.

(** ** The render monad: state, failure (a Python exception), and the
    calls issued, in order. *)

Definition M (S C A : Type) : Type := S -> option (A * S * list C).

Definition ret {S C A} (a : A) : M S C A := fun s => Some (a, s, []).

Definition bind {S C A B} (m : M S C A) (k : A -> M S C B) : M S C B :=
  fun s =>
    match m s with
    | None => None
    | Some (a, s1, out1) =>
        match k a s1 with
        | None => None
        | Some (b, s2, out2) => Some (b, s2, out1 ++ out2)
        end
    end.

Definition raise {S C A} : M S C A := fun _ => None.

Definition get {S C} : M S C S := fun s => Some (s, s, []).
Definition put {S C} (s : S) : M S C unit := fun _ => Some (tt, s, []).
Definition emit {S C} (c : C) : M S C unit := fun s => Some (tt, s, [c]).

Definition lift {S C A} (o : option A) : M S C A :=
  match o with Some a => ret a | None => raise end.

(** [for x in xs: body], the loop-carried locals threaded as [acc]. *)
Fixpoint for_in {S C A L} (xs : list A) (body : A -> L -> M S C L) (acc : L)
  : M S C L :=
  match xs with
  | [] => ret acc
  | x :: rest => bind (body x acc) (for_in rest body)
  end.

(** [for x in xs: body] without loop-carried locals. *)
Definition for_each {S C A} (xs : list A) (body : A -> M S C unit) : M S C unit :=
  for_in xs (fun x _ => body x) tt.

Definition calls {S C A} (m : M S C A) (s : S) : option (list C) :=
  match m s with Some (_, _, out) => Some out | None => None end.

End Gimp.
Import Gimp.

Declare Scope render_scope.
Delimit Scope render_scope with render.
Notation "x <- m ;; k" := (bind m (fun x => k))
  (at level 61, m at next level, right associativity) : render_scope.
Notation "' p <- m ;; k" := (bind m (fun p => k))
  (at level 61, p pattern, m at next level, right associativity) : render_scope.
Notation "m ;; k" := (bind m (fun _ => k))
  (at level 61, right associativity) : render_scope.

(* ================================================================== *)
(** * Draw-Flower-Of-Life-v1.01.py *)
(* ================================================================== *)

Module Flower.

(** ** Constants *)

Definition BASE : string := "Base".
Definition MASK : string := "Mask".
Definition COLOR_LAYER : string := "Color-Layer".
Definition GRADIENT : string := "Gradient".

Definition DEGREE_60 : R := (10472 / 10000)%R.
Definition DEGREE_120 : R := (20944 / 10000)%R.
Definition DEGREE_180 : R := (314159 / 100000)%R.
Definition DEGREE_240 : R := (418879 / 100000)%R.
Definition DEGREE_300 : R := (523599 / 100000)%R.

Definition LINES : Z := 0.
Definition PETALS : Z := 1.
Definition CIRCLES : Z := 2.

Definition RING_COLORS_COUNT : Z := 7.
Definition RANDOM_COLORS : Z := 2.
Definition SCALE : Z := 2.

(** ** State *)

Definition point : Type := (R * R)%type.

(** An element of the recycled focus-point lists: the initial [0] or
    a point stored by a ring. *)
Inductive cell := Int0 | Point (p : point).

(** [a, b = cell]; unpacking the int raises TypeError. *)
Definition unpack (c : cell) : option point :=
  match c with Int0 => None | Point p => Some p end.

Record state := {
  (* module level *)
  ring_center : list cell;
  extra_ring : list cell;
  (* globals assigned by render_flower *)
  image_center : Z;
  image_size : Z;
  image_focus : Z * Z;
  circle_diameter : Z;
  circle_radius : Z;
  frame_width : Z;
  flower_radius : Z;
  flower_type : Z;
  line_width : Z;
  ring_colors : list color;
  frame_color : color;
  color_mode : Z;
  (* the [random] module: raw output and how much of it is used *)
  random_raw : nat -> Z;
  random_pos : nat;
  (* host objects returned so far *)
  next_handle : handle
}.

(** What a render call does, in order: the host procedures it calls
    and the subscripts it evaluates on the two recycled lists. *)
Inductive list_name := RING_CENTER | EXTRA_RING.

Inductive event :=
| Host (c : call R)
| Load (l : list_name) (index : Z)
| Store (l : list_name) (index : Z).

Definition Render : Type -> Type := M state event.

Definition pdb (c : call R) : Render unit := emit (Host c).

(** The host calls among the events. *)
Fixpoint host_calls (es : list event) : list (call R) :=
  match es with
  | [] => []
  | Host c :: rest => c :: host_calls rest
  | _ :: rest => host_calls rest
  end.

(** ** Assignments to single variables *)

Definition with_next_handle (s : state) (v : handle) : state :=
  {| ring_center := ring_center s; extra_ring := extra_ring s;
     image_center := image_center s; image_size := image_size s;
     image_focus := image_focus s; circle_diameter := circle_diameter s;
     circle_radius := circle_radius s; frame_width := frame_width s;
     flower_radius := flower_radius s; flower_type := flower_type s;
     line_width := line_width s; ring_colors := ring_colors s;
     frame_color := frame_color s; color_mode := color_mode s;
     random_raw := random_raw s; random_pos := random_pos s;
     next_handle := v |}.

Definition with_ring_center (s : state) (v : list cell) : state :=
  {| ring_center := v; extra_ring := extra_ring s;
     image_center := image_center s; image_size := image_size s;
     image_focus := image_focus s; circle_diameter := circle_diameter s;
     circle_radius := circle_radius s; frame_width := frame_width s;
     flower_radius := flower_radius s; flower_type := flower_type s;
     line_width := line_width s; ring_colors := ring_colors s;
     frame_color := frame_color s; color_mode := color_mode s;
     random_raw := random_raw s; random_pos := random_pos s;
     next_handle := next_handle s |}.

Definition with_extra_ring (s : state) (v : list cell) : state :=
  {| ring_center := ring_center s; extra_ring := v;
     image_center := image_center s; image_size := image_size s;
     image_focus := image_focus s; circle_diameter := circle_diameter s;
     circle_radius := circle_radius s; frame_width := frame_width s;
     flower_radius := flower_radius s; flower_type := flower_type s;
     line_width := line_width s; ring_colors := ring_colors s;
     frame_color := frame_color s; color_mode := color_mode s;
     random_raw := random_raw s; random_pos := random_pos s;
     next_handle := next_handle s |}.

Definition with_ring_colors (s : state) (v : list color) : state :=
  {| ring_center := ring_center s; extra_ring := extra_ring s;
     image_center := image_center s; image_size := image_size s;
     image_focus := image_focus s; circle_diameter := circle_diameter s;
     circle_radius := circle_radius s; frame_width := frame_width s;
     flower_radius := flower_radius s; flower_type := flower_type s;
     line_width := line_width s; ring_colors := v;
     frame_color := frame_color s; color_mode := color_mode s;
     random_raw := random_raw s; random_pos := random_pos s;
     next_handle := next_handle s |}.

Definition with_frame_color (s : state) (v : color) : state :=
  {| ring_center := ring_center s; extra_ring := extra_ring s;
     image_center := image_center s; image_size := image_size s;
     image_focus := image_focus s; circle_diameter := circle_diameter s;
     circle_radius := circle_radius s; frame_width := frame_width s;
     flower_radius := flower_radius s; flower_type := flower_type s;
     line_width := line_width s; ring_colors := ring_colors s;
     frame_color := v; color_mode := color_mode s;
     random_raw := random_raw s; random_pos := random_pos s;
     next_handle := next_handle s |}.

Definition with_random_pos (s : state) (v : nat) : state :=
  {| ring_center := ring_center s; extra_ring := extra_ring s;
     image_center := image_center s; image_size := image_size s;
     image_focus := image_focus s; circle_diameter := circle_diameter s;
     circle_radius := circle_radius s; frame_width := frame_width s;
     flower_radius := flower_radius s; flower_type := flower_type s;
     line_width := line_width s; ring_colors := ring_colors s;
     frame_color := frame_color s; color_mode := color_mode s;
     random_raw := random_raw s; random_pos := v;
     next_handle := next_handle s |}.

Definition fresh : Render handle :=
  fun s => Some (next_handle s, with_next_handle s (S (next_handle s)), []).

Definition set_ring_center (v : list cell) : Render unit :=
  fun s => Some (tt, with_ring_center s v, []).

Definition set_extra_ring (v : list cell) : Render unit :=
  fun s => Some (tt, with_extra_ring s v, []).

Definition set_ring_colors (v : list color) : Render unit :=
  fun s => Some (tt, with_ring_colors s v, []).

Definition set_frame_color (v : color) : Render unit :=
  fun s => Some (tt, with_frame_color s v, []).

(** [random.randint(a, b)]: the next raw output, brought into
    [a .. b]. *)
Definition randint (a b : Z) : Render Z :=
  fun s =>
    Some (a + random_raw s (random_pos s) mod (b - a + 1),
          with_random_pos s (S (random_pos s)), []).

Local Open Scope render_scope.

(** ** Helpers that return a value *)

Definition get_point_on_circle (focus_point : point) (angle radius : R) : point :=
  let x := (sin angle * radius + fst focus_point)%R in
  let y := (cos angle * - radius + snd focus_point)%R in
  (x, y).

Definition make_new_layer (layer_name : string) (normal offset : bool)
  : Render handle :=
  s <- get ;;
  let mode := if normal then LAYER_MODE_NORMAL else LAYER_MODE_DIFFERENCE in
  layer <- fresh ;;
  pdb (gimp_layer_new layer (image_size s) (image_size s) layer_name mode) ;;
  pdb (image_add_layer layer (0 - (if offset then 1 else 0))) ;;
  ret layer.

Definition get_layer_by_name (name : string) : Render handle :=
  layer <- fresh ;;
  pdb (gimp_image_get_layer_by_name layer name) ;;
  ret layer.

(** ** Filling *)

Definition fill_circle (layer : handle) (c : color) : Render unit :=
  pdb (gimp_context_set_foreground c) ;;
  pdb (gimp_edit_bucket_fill layer BUCKET_FILL_FG).

Definition fill_layer (layer : handle) (c : color) : Render unit :=
  pdb (gimp_context_set_foreground c) ;;
  pdb (gimp_drawable_fill layer).

(** ** Circles *)

Definition draw_circle_selection (x y : R) : Render unit :=
  s <- get ;;
  pdb (gimp_image_select_ellipse CHANNEL_OP_ADD x y
          (IZR (circle_diameter s)) (IZR (circle_diameter s))).

Definition draw_flower_circle (x y : R) (c : color) : Render unit :=
  s <- get ;;
  let x := (x - IZR (circle_radius s))%R in
  let y := (y - IZR (circle_radius s))%R in
  (if flower_type s =? LINES then
     layer <- make_new_layer "Circle" true false ;;
     let x := (x - IZR (line_width s / 2))%R in
     let y := (y - IZR (line_width s / 2))%R in
     let dim1 := circle_diameter s + line_width s in
     let dim2 := circle_diameter s - line_width s in
     pdb (gimp_image_select_ellipse CHANNEL_OP_ADD x y (IZR dim1) (IZR dim1)) ;;
     let x := (x + IZR (line_width s))%R in
     let y := (y + IZR (line_width s))%R in
     pdb (gimp_image_select_ellipse CHANNEL_OP_SUBTRACT x y (IZR dim2) (IZR dim2)) ;;
     fill_circle layer c
   else
     layer <- make_new_layer "Circle" false false ;;
     draw_circle_selection x y ;;
     fill_circle layer c) ;;
  pdb gimp_selection_none.

Definition draw_center_circle (c : color) : Render unit :=
  s <- get ;;
  let p := IZR (image_center s) in
  draw_flower_circle p p c.

(** ** The frame *)

Definition draw_frame (c : color) : Render unit :=
  s <- get ;;
  if negb (frame_width s =? 0) then
    let flower_dim := flower_radius s * 2 in
    let frame_dim := flower_dim + frame_width s * 2 in
    let x := image_center s - flower_radius s - frame_width s in
    let '(flower_dim, frame_dim, x) :=
      if flower_type s =? LINES
      then (flower_dim + line_width s, frame_dim + line_width s,
            x - line_width s / 2)
      else (flower_dim, frame_dim, x) in
    let y := x in
    pdb (gimp_image_select_ellipse CHANNEL_OP_ADD (IZR x) (IZR y)
            (IZR frame_dim) (IZR frame_dim)) ;;
    let x := image_center s - flower_radius s in
    let x := if flower_type s =? LINES then x - line_width s / 2 else x in
    let y := x in
    pdb (gimp_image_select_ellipse CHANNEL_OP_SUBTRACT (IZR x) (IZR y)
            (IZR flower_dim) (IZR flower_dim)) ;;
    layer <- make_new_layer "Frame" true false ;;
    fill_circle layer c ;;
    pdb (gimp_image_merge_down layer) ;;
    pdb gimp_selection_none
  else ret tt.

(** ** Subscripts on the recycled lists *)

Definition load_ring_center (i : Z) : Render point :=
  s <- get ;;
  emit (Load RING_CENTER i) ;;
  c <- lift (getitem (ring_center s) i) ;;
  lift (unpack c).

Definition store_ring_center (i : Z) (p : point) : Render unit :=
  s <- get ;;
  emit (Store RING_CENTER i) ;;
  l <- lift (setitem (ring_center s) i (Point p)) ;;
  set_ring_center l.

Definition load_extra_ring (i : Z) : Render point :=
  s <- get ;;
  emit (Load EXTRA_RING i) ;;
  c <- lift (getitem (extra_ring s) i) ;;
  lift (unpack c).

Definition store_extra_ring (i : Z) (p : point) : Render unit :=
  s <- get ;;
  emit (Store EXTRA_RING i) ;;
  l <- lift (setitem (extra_ring s) i (Point p)) ;;
  set_extra_ring l.

Definition focus (s : state) : point :=
  (IZR (fst (image_focus s)), IZR (snd (image_focus s))).

(** ** The rings *)

(** The loop of [draw_1st_ring]; the locals are [(x, y, angle)]. *)
Definition ring_1_loop (c : color) (locals : R * R * R) : Render (R * R * R) :=
  for_in (range 6)
    (fun _ '(x, y, angle) =>
       s <- get ;;
       draw_flower_circle x y c ;;
       let angle := (angle + DEGREE_60)%R in
       let '(x, y) := get_point_on_circle (focus s) angle (IZR (circle_radius s)) in
       ret (x, y, angle))
    locals.

Definition draw_1st_ring (c : color) : Render unit :=
  s <- get ;;
  let x := IZR (image_center s) in
  let y := IZR (image_center s - circle_radius s) in
  let angle := 0%R in
  _ <- ring_1_loop c (x, y, angle) ;;
  ret tt.

Definition draw_2nd_ring (c : color) : Render unit :=
  s <- get ;;
  let ring_radius := circle_radius s * 2 in
  let x := IZR (image_center s) in
  let y := IZR (image_center s - ring_radius) in
  let angle := 0%R in
  _ <- for_in (range 6)
    (fun _ '(x, y, angle) =>
       draw_flower_circle x y c ;;
       let angle := (angle + DEGREE_60)%R in
       let '(x, y) := get_point_on_circle (focus s) angle (IZR ring_radius) in
       ret (x, y, angle))
    (x, y, angle) ;;
  ret tt.

Definition draw_3rd_ring (c : color) : Render unit :=
  s <- get ;;
  let angle1 := 0%R in
  let angle2 := DEGREE_60 in
  _ <- for_in (range 6)
    (fun i '(angle1, angle2) =>
       let '(x, y) := get_point_on_circle (focus s) angle1 (IZR (circle_radius s)) in
       let '(x, y) := get_point_on_circle (x, y) angle2 (IZR (circle_radius s)) in
       store_ring_center i (x, y) ;;
       draw_flower_circle x y c ;;
       ret ((angle1 + DEGREE_60)%R, (angle2 + DEGREE_60)%R))
    (angle1, angle2) ;;
  ret tt.

Definition draw_4th_ring (c : color) : Render unit :=
  s <- get ;;
  let angle1 := 0%R in
  let angle2 := DEGREE_60 in
  _ <- for_in (range 6)
    (fun i '(angle1, angle2) =>
       '(a, b) <- load_ring_center i ;;
       let '(x, y) := get_point_on_circle (a, b) angle1 (IZR (circle_radius s)) in
       draw_flower_circle x y c ;;
       let '(x, y) := get_point_on_circle (a, b) angle2 (IZR (circle_radius s)) in
       draw_flower_circle x y c ;;
       ret ((angle1 + DEGREE_60)%R, (angle2 + DEGREE_60)%R))
    (angle1, angle2) ;;
  ret tt.

Definition draw_5th_ring (c : color) : Render unit :=
  s <- get ;;
  let radius := circle_radius s * 3 in
  let angle := 0%R in
  _ <- for_in (range 6)
    (fun _ angle =>
       let '(x, y) := get_point_on_circle (focus s) angle (IZR radius) in
       let angle := (angle + DEGREE_60)%R in
       draw_flower_circle x y c ;;
       ret angle)
    angle ;;
  ret tt.

(** The body shared by the three perimeter passes of [draw_6th_ring],
    after the subscript [i + k] has been fixed. *)
Definition perimeter_circle (index : Z) (angle1 angle2 : R) (c : color)
  : Render unit :=
  s <- get ;;
  '(a, b) <- load_extra_ring index ;;
  let '(c', d) := get_point_on_circle (a, b) angle1 (IZR (circle_radius s)) in
  let '(x, y) := get_point_on_circle (c', d) angle2 (IZR (circle_radius s)) in
  draw_flower_circle x y c.

(** A perimeter pass without the clamp (the first and the second). *)
Definition perimeter_pass (ks : list Z) (angle1 angle2 : R) (c : color)
  : Render unit :=
  _ <- for_in (range 2)
    (fun j '(angle1, angle2) =>
       k <- lift (getitem ks j) ;;
       for_each (range 3) (fun i => perimeter_circle (i + k) angle1 angle2 c) ;;
       ret ((angle1 + DEGREE_60)%R, (angle2 + DEGREE_60)%R))
    (angle1, angle2) ;;
  ret tt.

(** The body of the inner loop of the third pass, which starts with
    [if i + k > 11: i = k = 0].  The value is [k]: the new [k] stays
    for the rest of the inner loop; [i] is rebound by the [for]. *)
Definition clamped_circle (angle1 angle2 : R) (c : color) (i k : Z)
  : Render Z :=
  let '(i, k) := if i + k >? 11 then (0, 0) else (i, k) in
  perimeter_circle (i + k) angle1 angle2 c ;;
  ret k.

(** The third pass. *)
Definition perimeter_pass_clamped (ks : list Z) (angle1 angle2 : R) (c : color)
  : Render unit :=
  _ <- for_in (range 2)
    (fun j '(angle1, angle2) =>
       k <- lift (getitem ks j) ;;
       _ <- for_in (range 3) (clamped_circle angle1 angle2 c) k ;;
       ret ((angle1 + DEGREE_60)%R, (angle2 + DEGREE_60)%R))
    (angle1, angle2) ;;
  ret tt.

Definition draw_6th_ring (c : color) : Render unit :=
  s <- get ;;
  _ <- for_in (range 6)
    (fun i angle =>
       '(a, b) <- load_ring_center i ;;
       store_extra_ring (i * 2 + 1) (a, b) ;;
       store_extra_ring (i * 2)
         (get_point_on_circle (a, b) angle (IZR (circle_radius s))) ;;
       ret (angle + DEGREE_60)%R)
    (- DEGREE_60)%R ;;
  perimeter_pass [0; 2] 0%R DEGREE_60 c ;;
  perimeter_pass [4; 6] DEGREE_120 DEGREE_180 c ;;
  perimeter_pass_clamped [8; 10] DEGREE_240 DEGREE_300 c.

Definition rings : list (color -> Render unit) :=
  [draw_1st_ring; draw_2nd_ring; draw_3rd_ring;
   draw_4th_ring; draw_5th_ring; draw_6th_ring].

(** ** The flower *)

Definition draw_black_and_white : Render unit :=
  draw_center_circle WHITE ;;
  for_each rings
    (fun f => f WHITE ;; pdb gimp_image_merge_visible_layers) ;;
  draw_frame WHITE.

(** [enumerate(xs)] *)
Definition enumerate {A} (xs : list A) : list (Z * A) :=
  List.combine (range (Z.of_nat (List.length xs))) xs.

Definition draw_colored_flower : Render unit :=
  s <- get ;;
  c0 <- lift (getitem (ring_colors s) 0) ;;
  draw_center_circle c0 ;;
  for_each (enumerate rings)
    (fun '(x, f) =>
       c <- lift (getitem (ring_colors s) (x + 1)) ;;
       f c ;;
       pdb gimp_image_merge_visible_layers) ;;
  draw_frame (frame_color s) ;;
  layer <- get_layer_by_name BASE ;;
  pdb (layer_set_name layer COLOR_LAYER).

Definition draw_gradient : Render unit :=
  s <- get ;;
  gradient_layer <- make_new_layer GRADIENT false false ;;
  let center := IZR (image_center s) in
  gradient <- fresh ;;
  pdb (gimp_gradient_new gradient "flower") ;;
  pdb (gimp_gradient_segment_set_right_color gradient BLACK) ;;
  pdb (gimp_gradient_segment_set_left_color gradient WHITE) ;;
  pdb (gimp_context_set_gradient gradient) ;;
  pdb (gimp_drawable_edit_gradient_fill gradient_layer center center
         (IZR (flower_radius s * 2)) (IZR (flower_radius s * 2))) ;;
  pdb (gimp_gradient_delete gradient).

Definition create_bw_alpha : Render unit :=
  s <- get ;;
  (if flower_type s =? PETALS then
     bottom_layer <- get_layer_by_name BASE ;;
     pdb (plug_in_colortoalpha bottom_layer BLACK)
   else ret tt) ;;
  let dim1 := circle_diameter s in
  layer <- make_new_layer MASK true false ;;
  fill_layer layer BLACK ;;
  let dim1 := if flower_type s =? LINES then dim1 + line_width s else dim1 in
  let line_w := line_width s / 2 in
  for_each (range 12)
    (fun i =>
       '(x, y) <- load_extra_ring i ;;
       let x := (x - IZR (circle_radius s))%R in
       let y := (y - IZR (circle_radius s))%R in
       let '(x, y) :=
         if flower_type s =? LINES
         then ((x - IZR line_w)%R, (y - IZR line_w)%R) else (x, y) in
       pdb (gimp_image_select_ellipse CHANNEL_OP_ADD x y (IZR dim1) (IZR dim1))) ;;
  let x := IZR (image_center s - circle_diameter s) in
  let y := x in
  let dim := IZR (circle_diameter s * 2) in
  pdb (gimp_image_select_ellipse CHANNEL_OP_ADD x y dim dim) ;;
  draw_circle_selection x y ;;
  fill_circle layer WHITE ;;
  pdb gimp_selection_none ;;
  draw_frame WHITE ;;
  layer <- get_layer_by_name MASK ;;
  base_layer <- get_layer_by_name BASE ;;
  pdb (gimp_image_select_color CHANNEL_OP_ADD layer WHITE) ;;
  mask <- fresh ;;
  pdb (gimp_layer_create_mask mask layer ADD_MASK_SELECTION) ;;
  pdb (gimp_layer_add_mask base_layer mask) ;;
  pdb gimp_selection_none ;;
  pdb (gimp_image_remove_layer layer).

Definition info_msg (msg : string) : Render unit :=
  current_handler <- fresh ;;
  pdb (gimp_message_get_handler current_handler) ;;
  pdb (gimp_message_set_handler ERROR_CONSOLE) ;;
  pdb (gimp_message msg) ;;
  pdb (gimp_message_set_handler (saved_handler current_handler)).

(** ** Colours as sequences *)

(** [c[j]] *)
Definition component (c : color) (j : Z) : option Z :=
  let '(r, g, b) := c in getitem [r; g; b] j.

(** [c[j] = v] *)
Definition set_component (c : color) (j : Z) (v : Z) : option color :=
  let '(r, g, b) := c in
  match setitem [r; g; b] j v with
  | Some [r'; g'; b'] => Some (r', g', b')
  | _ => None
  end.

(** The body of [if mode == RANDOM_COLORS:]. *)
Definition random_colors : Render unit :=
  for_each (range RING_COLORS_COUNT)
    (fun i =>
       for_each (range 3)
         (fun j =>
            v <- randint 0 255 ;;
            s <- get ;;
            c <- lift (getitem (ring_colors s) i) ;;
            c <- lift (set_component c j v) ;;
            l <- lift (setitem (ring_colors s) i c) ;;
            set_ring_colors l)) ;;
  '(r, g, b) <- for_in (range RING_COLORS_COUNT)
    (fun i '(r, g, b) =>
       s <- get ;;
       c <- lift (getitem (ring_colors s) i) ;;
       c0 <- lift (component c 0) ;;
       c1 <- lift (component c 1) ;;
       c2 <- lift (component c 2) ;;
       ret (r + c0, g + c1, b + c2))
    (0, 0, 0) ;;
  let r := r / RING_COLORS_COUNT in
  let g := g / RING_COLORS_COUNT in
  let b := b / RING_COLORS_COUNT in
  set_frame_color (r, g, b).

(** ** The dialog handler *)

Record params := {
  symbol_radius : R;
  mode : Z;
  flower_part : Z;
  color1 : color;
  color2 : color;
  color3 : color;
  color4 : color;
  color5 : color;
  color6 : color;
  color7 : color;
  line_w : R;
  frame_w : R;
  frame_col : color
}.

Definition TAB : string := String (Ascii.ascii_of_nat 9) EmptyString.
Definition NEWLINE : string := String (Ascii.ascii_of_nat 10) EmptyString.

(** ["\t {r}, {g}, {b}\n".format(r=c[0], g=c[1], b=c[2])] *)
Definition format_color (c : color) : string :=
  let '(r, g, b) := c in
  (TAB ++ " " ++ str r ++ ", " ++ str g ++ ", " ++ str b ++ NEWLINE)%string.

(** The assignments to the globals at the top of [render_flower]. *)
Definition init_globals (p : params) (s : state) : state :=
  let frame_width := to_int (frame_w p * IZR SCALE)%R in
  let flower_radius := to_int (symbol_radius p * IZR SCALE)%R in
  let flower_type := flower_part p in
  let line_width := to_int (line_w p * IZR SCALE)%R in
  let scale_size := to_int (symbol_radius p * 2 + frame_w p * 2)%R + 2 in
  let scale_size :=
    if flower_type =? LINES then scale_size + line_width else scale_size in
  let image_size := scale_size * SCALE in
  let image_center := image_size / 2 in
  let circle_radius := to_int (symbol_radius p / 3 * IZR SCALE)%R in
  let circle_diameter := circle_radius * 2 in
  {| ring_center := ring_center s; extra_ring := extra_ring s;
     image_center := image_center; image_size := image_size;
     image_focus := (image_center, image_center);
     circle_diameter := circle_diameter;
     circle_radius := circle_radius; frame_width := frame_width;
     flower_radius := flower_radius; flower_type := flower_type;
     line_width := line_width;
     ring_colors := [color1 p; color2 p; color3 p; color4 p;
                     color5 p; color6 p; color7 p];
     frame_color := frame_col p; color_mode := mode p;
     random_raw := random_raw s; random_pos := random_pos s;
     next_handle := next_handle s |}.

(** [scale_size], a local of [render_flower]. *)
Definition scale_size (p : params) : Z :=
  let line_width := to_int (line_w p * IZR SCALE)%R in
  let scale_size := to_int (symbol_radius p * 2 + frame_w p * 2)%R + 2 in
  if flower_part p =? LINES then scale_size + line_width else scale_size.

(** The body of the first [if mode:], the coloured flower. *)
Definition color_pass (p : params) : Render unit :=
  s <- get ;;
  color_layer <- make_new_layer BASE true false ;;
  (if negb (flower_type s =? LINES)
   then fill_layer color_layer WHITE else ret tt) ;;
  (if mode p =? RANDOM_COLORS then random_colors else ret tt) ;;
  draw_colored_flower ;;
  draw_gradient ;;
  layer <- get_layer_by_name GRADIENT ;;
  pdb (gimp_item_set_visible layer false) ;;
  layer_copy <- fresh ;;
  pdb (gimp_layer_copy layer_copy layer) ;;
  pdb (image_add_layer layer_copy 0) ;;
  layer <- get_layer_by_name COLOR_LAYER ;;
  pdb (gimp_item_set_visible layer false).

(** The body of the second [if mode:]. *)
Definition transfer_alpha : Render unit :=
  layer <- get_layer_by_name BASE ;;
  mask <- fresh ;;
  pdb (gimp_layer_create_mask mask layer ADD_MASK_ALPHA) ;;
  layer <- get_layer_by_name COLOR_LAYER ;;
  pdb (gimp_layer_add_mask layer mask) ;;
  layer <- get_layer_by_name BASE ;;
  pdb (gimp_image_remove_layer layer) ;;
  for_each [GRADIENT; (GRADIENT ++ " copy")%string; COLOR_LAYER]
    (fun i =>
       layer <- get_layer_by_name i ;;
       pdb (gimp_item_set_visible layer true)) ;;
  pdb gimp_image_merge_visible_layers ;;
  s <- get ;;
  let msg := List.fold_left (fun msg i => (msg ++ format_color i)%string)
               (ring_colors s) ""%string in
  info_msg ("The colors used in the flower:" ++ NEWLINE ++ msg)%string.

(** The statements of [render_flower] between the two undo-group
    calls. *)
Definition draw_symbol (p : params) : Render unit :=
  s <- get ;;
  pdb gimp_display_new ;;
  (if negb (mode p =? 0) then color_pass p else ret tt) ;;
  base_layer <- make_new_layer BASE true (mode p >? 0) ;;
  (if negb (flower_type s =? LINES)
   then fill_layer base_layer WHITE else ret tt) ;;
  draw_black_and_white ;;
  create_bw_alpha ;;
  pdb gimp_image_merge_visible_layers ;;
  (if negb (mode p =? 0) then transfer_alpha
   else
     layer <- get_layer_by_name BASE ;;
     pdb (gimp_drawable_invert layer)) ;;
  pdb (gimp_image_scale_full (scale_size p) (scale_size p)).

Definition render_flower (p : params) : Render unit :=
  s0 <- get ;;
  put (init_globals p s0) ;;
  s <- get ;;
  pdb gimp_context_push ;;
  pdb (gimp_context_set_antialias false) ;;
  pdb (gimp_context_set_feather false) ;;
  pdb (gimp_Image (image_size s) (image_size s)) ;;
  pdb gimp_image_undo_group_start ;;
  draw_symbol p ;;
  pdb gimp_image_undo_group_end ;;
  pdb gimp_context_pop.

(** The module-level lists before the first render call. *)
Definition initial_ring_center : list cell := List.repeat Int0 6.
Definition initial_extra_ring : list cell := List.repeat Int0 12.

End Flower.

(* ================================================================== *)
(** * colorsys (Python 2.7 standard library), as the scripts import it *)
(* ================================================================== *)

Declare Scope py_scope.
Delimit Scope py_scope with py.
Notation "a + b" := (fadd a b) : py_scope.
Notation "a - b" := (fsub a b) : py_scope.
Notation "a * b" := (fmul a b) : py_scope.
Notation "a / b" := (fdiv a b) : py_scope.
Notation "- a" := (fopp a) : py_scope.
Notation "a == b" := (feqb a b) (at level 70, no associativity) : py_scope.
Notation "a <? b" := (fltb a b) : py_scope.
Notation "a <=? b" := (fleb a b) : py_scope.
Notation "# z" := (of_int z) (at level 1, format "# z") : py_scope.

Module colorsys.
Section WithFloat.
Context {F : Type} `{PyFloat F}.
Local Open Scope py_scope.

(** [a / b] where [b] may be zero: ZeroDivisionError is [None]. *)
Definition div (a b : F) : option F :=
  if b == #0 then None else Some (a / b).

Definition ONE_THIRD : F := #1 / #3.
Definition ONE_SIXTH : F := #1 / #6.
Definition TWO_THIRD : F := #2 / #3.
Definition half : F := #1 / #2.

(** [max(r, g, b)] and [min(r, g, b)]: the first extremal argument. *)
Definition max3 (r g b : F) : F :=
  let m := if r <? g then g else r in
  if m <? b then b else m.

Definition min3 (r g b : F) : F :=
  let m := if g <? r then g else r in
  if b <? m then b else m.

Definition rgb_to_hls (r g b : F) : option (F * F * F) :=
  let maxc := max3 r g b in
  let minc := min3 r g b in
  let l := (minc + maxc) / #2 in
  if minc == maxc then Some (#0, l, #0)
  else
    match (if l <=? half
           then div (maxc - minc) (maxc + minc)
           else div (maxc - minc) (#2 - maxc - minc)),
          div (maxc - r) (maxc - minc),
          div (maxc - g) (maxc - minc),
          div (maxc - b) (maxc - minc)
    with
    | Some s, Some rc, Some gc, Some bc =>
        let h := if r == maxc then bc - gc
                 else if g == maxc then #2 + rc - bc
                 else #4 + gc - rc in
        let h := fmod1 (h / #6) in
        Some (h, l, s)
    | _, _, _, _ => None
    end.

Definition _v (m1 m2 hue : F) : F :=
  let hue := fmod1 hue in
  if hue <? ONE_SIXTH then m1 + (m2 - m1) * hue * #6
  else if hue <? half then m2
  else if hue <? TWO_THIRD then m1 + (m2 - m1) * (TWO_THIRD - hue) * #6
  else m1.

Definition hls_to_rgb (h l s : F) : F * F * F :=
  if s == #0 then (l, l, l)
  else
    let m2 := if l <=? half then l * (#1 + s) else l + s - (l * s) in
    let m1 := #2 * l - m2 in
    (_v m1 m2 (h + ONE_THIRD), _v m1 m2 h, _v m1 m2 (h - ONE_THIRD)).

End WithFloat.
End colorsys.

(* ================================================================== *)
(** * The colour switch of the yin-yang scripts *)
(* ================================================================== *)

Module FlowColor.
Section WithFloat.
Context {F : Type} `{PyFloat F}.

Inductive channel := Hue | Lightness | Saturation.

(** The branch [# Invert the RGB]. *)
Definition invert_rgb (flow_color_1 : color) : color :=
  let '(r, g, b) := flow_color_1 in (255 - r, 255 - g, 255 - b).

(** The branch [# Invert hue or saturation]: to HLS, one channel [x]
    replaced by [1 - x], back to RGB, times 255, [int]. *)
Definition invert_channel (ch : channel) (flow_color_1 : color) : option color :=
  let '(r, g, b) := flow_color_1 in
  let c0 := (#r / #255)%py in
  let c1 := (#g / #255)%py in
  let c2 := (#b / #255)%py in
  match colorsys.rgb_to_hls c0 c1 c2 with
  | None => None
  | Some (h, l, s) =>
      let '(h, l, s) :=
        match ch with
        | Hue => ((#1 - h)%py, l, s)
        | Lightness => (h, (#1 - l)%py, s)
        | Saturation => (h, l, (#1 - s)%py)
        end in
      let '(x, y, z) := colorsys.hls_to_rgb h l s in
      Some (to_int (x * #255)%py, to_int (y * #255)%py, to_int (z * #255)%py)
  end.

(** ** yin-yang-1-05.py *)

Definition YY_GRADIENT : Z := 1.
Definition YY_INVERTED_COLOR : Z := 2.
Definition YY_POLAR_HUE : Z := 3.
Definition YY_POLAR_LIGHTNESS : Z := 4.
Definition YY_POLAR_SATURATION : Z := 5.
Definition YY_PATTERN : Z := 6.

(** The option list of the [mode] parameter in [register]. *)
Definition mode_options_105 : list string :=
  ["Flow Color 1 and Flow Color 2 / Solid";
   "Flow Color 1 and Flow Color 2 / Gradient";
   "Flow Color 1 and Polar Color";
   "Flow Color 1 and Polar Hue";
   "Flow Color 1 and Polar Lightness";
   "Flow Color 1 and Polar Saturation";
   "Flow Pattern 1 and Flow Pattern 2"]%string.

(** [# Set colors:] the value of [flow_color_2] afterwards. *)
Definition set_colors_105 (mode : Z) (flow_color_1 flow_color_2 : color)
  : option color :=
  if mode =? YY_INVERTED_COLOR then Some (invert_rgb flow_color_1)
  else if (mode =? YY_POLAR_HUE) || (mode =? YY_POLAR_LIGHTNESS)
          || (mode =? YY_POLAR_SATURATION) then
    invert_channel
      (if mode =? YY_POLAR_HUE then Hue
       else if mode =? YY_POLAR_LIGHTNESS then Lightness
       else Saturation)
      flow_color_1
  else Some flow_color_2.

(** ** yin-yang-1-02.py *)

Definition mode_options_102 : list string :=
  ["Flow Color 1 and Flow Color 2 / Solid";
   "Flow Color 1 and Flow Color 2 / Gradient";
   "Flow Color 1 and Polar Hue";
   "Flow Color 1 and Polar Lightness";
   "Flow Color 1 and Polar Saturation";
   "Flow Pattern 1 and Flow Pattern 2"]%string.

Definition set_colors_102 (mode : Z) (flow_color_1 flow_color_2 : color)
  : option color :=
  if mode =? 3 then Some (invert_rgb flow_color_1)
  else if (mode =? 2) || (mode =? 4) then
    invert_channel (if mode =? 2 then Hue else Saturation) flow_color_1
  else Some flow_color_2.

End WithFloat.
End FlowColor.

(* ================================================================== *)
(** * yin-yang-1-05.py *)
(* ================================================================== *)

Module YinYang.
Section WithFloat.
Context {F : Type} `{PyFloat F}.
Local Open Scope render_scope.

Definition FRAME_WIDTH_INT : Z := 2.
Definition FRAME_WIDTH : F := #FRAME_WIDTH_INT%py.
Definition SCALE : Z := 4.

(** The attributes of the class [yy], and the host objects returned
    so far. *)
Record yy := {
  yy_rim_width : Z;
  yy_symbol_size : Z;
  yy_symbol_dimension : Z;
  yy_mode : Z;
  yy_image_size : Z;
  yy_center : Z;
  yy_flow_size : Z;
  yy_head_diameter : F;
  yy_head_radius : F;
  yy_eye_radius : F;
  yy_eye_diameter : F;
  yy_flow_offset : F;
  yy_base : handle;
  next_handle : handle
}.

Definition Render : Type -> Type := M yy (call F).

Definition with_next_handle (s : yy) (v : handle) : yy :=
  {| yy_rim_width := yy_rim_width s; yy_symbol_size := yy_symbol_size s;
     yy_symbol_dimension := yy_symbol_dimension s; yy_mode := yy_mode s;
     yy_image_size := yy_image_size s; yy_center := yy_center s;
     yy_flow_size := yy_flow_size s;
     yy_head_diameter := yy_head_diameter s;
     yy_head_radius := yy_head_radius s; yy_eye_radius := yy_eye_radius s;
     yy_eye_diameter := yy_eye_diameter s;
     yy_flow_offset := yy_flow_offset s; yy_base := yy_base s;
     next_handle := v |}.

Definition with_base (s : yy) (v : handle) : yy :=
  {| yy_rim_width := yy_rim_width s; yy_symbol_size := yy_symbol_size s;
     yy_symbol_dimension := yy_symbol_dimension s; yy_mode := yy_mode s;
     yy_image_size := yy_image_size s; yy_center := yy_center s;
     yy_flow_size := yy_flow_size s;
     yy_head_diameter := yy_head_diameter s;
     yy_head_radius := yy_head_radius s; yy_eye_radius := yy_eye_radius s;
     yy_eye_diameter := yy_eye_diameter s;
     yy_flow_offset := yy_flow_offset s; yy_base := v;
     next_handle := next_handle s |}.

Definition with_image_size (s : yy) (v : Z) : yy :=
  {| yy_rim_width := yy_rim_width s; yy_symbol_size := yy_symbol_size s;
     yy_symbol_dimension := yy_symbol_dimension s; yy_mode := yy_mode s;
     yy_image_size := v; yy_center := yy_center s;
     yy_flow_size := yy_flow_size s;
     yy_head_diameter := yy_head_diameter s;
     yy_head_radius := yy_head_radius s; yy_eye_radius := yy_eye_radius s;
     yy_eye_diameter := yy_eye_diameter s;
     yy_flow_offset := yy_flow_offset s; yy_base := yy_base s;
     next_handle := next_handle s |}.

Definition fresh : Render handle :=
  fun s => Some (next_handle s, with_next_handle s (S (next_handle s)), []).

Definition set_base (layer : handle) : Render unit :=
  fun s => Some (tt, with_base s layer, []).

Definition set_image_size (v : Z) : Render unit :=
  fun s => Some (tt, with_image_size s v, []).

(** [(a, b)[i]] *)
Definition pick {A} (i : Z) (a b : A) : Render A := lift (getitem [a; b] i).

Definition draw_flow_selection (operation : channel_op) : Render unit :=
  s <- get ;;
  let a := (FRAME_WIDTH + #(yy_rim_width s))%py in
  emit (gimp_image_select_ellipse operation a a
          #(yy_flow_size s)%py #(yy_flow_size s)%py).

Definition fill (c : color) (material : fill_mode) : Render unit :=
  s <- get ;;
  emit (gimp_context_set_foreground c) ;;
  emit (gimp_edit_bucket_fill (yy_base s) material).

Definition draw_side (flow_color : color) (gradient : option handle)
           (pattern : string) (i : Z) : Render unit :=
  draw_flow_selection CHANNEL_OP_REPLACE ;;
  s <- get ;;
  let center := #(yy_center s)%py in
  let eye_offset := (yy_head_diameter s / #2)%py in
  x <- pick i #0%py center ;;
  emit (gimp_image_select_rectangle CHANNEL_OP_SUBTRACT x #0%py
          center #(yy_image_size s)%py) ;;
  y <- pick i center (yy_flow_offset s) ;;
  emit (gimp_image_select_ellipse CHANNEL_OP_ADD
          (center - yy_head_radius s)%py y
          (yy_head_diameter s) (yy_head_diameter s)) ;;
  y <- pick i (yy_flow_offset s) center ;;
  emit (gimp_image_select_ellipse CHANNEL_OP_SUBTRACT
          (center - yy_head_radius s)%py y
          (yy_head_diameter s) (yy_head_diameter s)) ;;
  let eye_x := (center - yy_eye_radius s)%py in
  eye_y <- pick i (center + eye_offset - yy_eye_radius s)%py
                  (center - eye_offset - yy_eye_radius s)%py ;;
  emit (gimp_image_select_ellipse CHANNEL_OP_SUBTRACT eye_x eye_y
          (yy_eye_diameter s) (yy_eye_diameter s)) ;;
  eye_y <- pick i (center - eye_offset - yy_eye_radius s)%py
                  (center + eye_offset - yy_eye_radius s)%py ;;
  emit (gimp_image_select_ellipse CHANNEL_OP_ADD eye_x eye_y
          (yy_eye_diameter s) (yy_eye_diameter s)) ;;
  if yy_mode s =? FlowColor.YY_GRADIENT then
    g <- lift gradient ;;
    emit (gimp_context_set_gradient g) ;;
    x1 <- pick i (center - yy_head_radius s)%py (center + yy_head_radius s)%py ;;
    y1 <- pick i (center + yy_head_radius s)%py (center - yy_head_radius s)%py ;;
    x2 <- pick i (#(yy_image_size s) - FRAME_WIDTH)%py FRAME_WIDTH ;;
    y2 <- pick i FRAME_WIDTH (#(yy_image_size s) - FRAME_WIDTH)%py ;;
    emit (gimp_drawable_edit_gradient_fill (yy_base s) x1 y1 x2 y2)
  else if yy_mode s =? FlowColor.YY_PATTERN then
    emit (gimp_context_set_pattern pattern) ;;
    fill flow_color BUCKET_FILL_PATTERN
  else
    fill flow_color BUCKET_FILL_FG.

Definition new_gradient (left_color right_color : color) (i : Z) : Render handle :=
  gradient <- fresh ;;
  emit (gimp_gradient_new gradient ("yin-yang" ++ str i)%string) ;;
  emit (gimp_gradient_segment_set_right_color gradient right_color) ;;
  emit (gimp_gradient_segment_set_left_color gradient left_color) ;;
  emit (gimp_gradient_segment_range_set_blending_function gradient) ;;
  emit (gimp_gradient_segment_range_set_coloring_type gradient) ;;
  ret gradient.

Record params := {
  symbol_diameter : F;
  mode : Z;
  flow_color_1 : color;
  flow_color_2 : color;
  rim_color : color;
  flow_pattern_1 : string;
  flow_pattern_2 : string;
  rim_width : F;
  eye_divisor : F;
  direction : Z;
  frame_count : F;
  frame_timer : F
}.

(** [# Draw rim:] the body of [if yy.rim_width:]. *)
Definition draw_rim (c : color) : Render unit :=
  s <- get ;;
  emit (gimp_image_select_ellipse CHANNEL_OP_REPLACE FRAME_WIDTH FRAME_WIDTH
          #(yy_symbol_dimension s)%py #(yy_symbol_dimension s)%py) ;;
  draw_flow_selection CHANNEL_OP_SUBTRACT ;;
  fill c BUCKET_FILL_FG.

(** [# Keep angle in GIMP rotation bounds:] *)
Definition keep_in_bounds (angle : F) : F :=
  if (#180 <? angle)%py then (#(-360) + angle)%py
  else if (angle <? #(-180))%py then (#360 + angle)%py
  else angle.

(** One pass through the body of [for frame in range(f - 1)]; the
    loop-carried local is [angle]. *)
Definition frame (rotation : F) (timer : string) (angle : F) : Render F :=
  s <- get ;;
  layer_copy <- fresh ;;
  emit (gimp_layer_copy layer_copy (yy_base s)) ;;
  emit (image_add_layer layer_copy 0) ;;
  let angle := keep_in_bounds angle in
  emit (layer_set_name layer_copy (str (to_int angle) ++ timer)%string) ;;
  emit (gimp_item_transform_rotate layer_copy angle (radians angle)
          #(yy_center s)%py #(yy_center s)%py) ;;
  let angle := (angle + rotation)%py in
  emit gimp_displays_flush ;;
  emit (gimp_image_crop (yy_image_size s) (yy_image_size s)) ;;
  ret angle.

(** [# Process frame count:] *)
Definition process_frame_count (p : params) (timer : string) : Render unit :=
  if (#1 <? frame_count p)%py then
    q <- lift (colorsys.div #360%py (frame_count p)) ;;
    sign <- pick (direction p) 1 (-1) ;;
    let rotation := (q * #sign)%py in
    let angle := rotation in
    let f := to_int (frame_count p) in
    _ <- for_in (range (f - 1)) (fun _ angle => frame rotation timer angle) angle ;;
    ret tt
  else ret tt.

(** [render_yin_yang] from [gradient_1 = gradient_2 = None] to the
    second [draw_side]; [flow_color_2] is the colour after
    [# Set colors:].  The value is [(gradient_1, gradient_2)]. *)
Definition draw_flows (p : params) (flow_color_2 : color)
  : Render (option handle * option handle) :=
  '(gradient_1, gradient_2) <-
    (if mode p =? 1 then
       g1 <- new_gradient (flow_color_1 p) flow_color_2 1 ;;
       g2 <- new_gradient flow_color_2 (flow_color_1 p) 2 ;;
       ret (Some g1, Some g2)
     else ret (None, None)) ;;
  draw_side (flow_color_1 p) gradient_1 (flow_pattern_1 p) 0 ;;
  draw_side flow_color_2 gradient_2 (flow_pattern_2 p) 1 ;;
  ret (gradient_1, gradient_2).

(** [if yy.rim_width:] with its body. *)
Definition rim_stage (p : params) : Render unit :=
  s <- get ;;
  if negb (yy_rim_width s =? 0) then draw_rim (rim_color p) else ret tt.

(** [render_yin_yang] from [pdb.gimp_selection_none] to [# Clean-up:]. *)
Definition finish (p : params) (timer : string)
           (gradients : option handle * option handle) : Render unit :=
  s <- get ;;
  emit gimp_selection_none ;;
  (if negb (direction p =? 0)
   then emit (gimp_item_transform_flip_simple (yy_base s)) else ret tt) ;;
  set_image_size (yy_image_size s / SCALE) ;;
  emit (gimp_image_scale_full (yy_image_size s / SCALE)
          (yy_image_size s / SCALE)) ;;
  process_frame_count p timer ;;
  for_each [fst gradients; snd gradients]
    (fun n => match n with
              | Some g => emit (gimp_gradient_delete g)
              | None => ret tt
              end).

(** The statements of [render_yin_yang] between the two undo-group
    calls. *)
Definition draw_symbol (p : params) (flow_color_2 : color) (timer : string)
  : Render unit :=
  gradients <- draw_flows p flow_color_2 ;;
  rim_stage p ;;
  finish p timer gradients.

(** The assignments of [# Initialize yy:] and [# measurements:]. *)
Definition initialize (p : params) (eye_radius : F) (s0 : yy) : yy :=
  let rim_width' := to_int (rim_width p * #SCALE)%py in
  let symbol_size := to_int (symbol_diameter p * #SCALE)%py in
  let image_size := symbol_size + 2 * FRAME_WIDTH_INT in
  let flow_size := symbol_size - rim_width' * 2 in
  let head_diameter := (#flow_size / #2)%py in
  {| yy_rim_width := rim_width';
     yy_symbol_size := symbol_size;
     yy_symbol_dimension := symbol_size;
     yy_mode := mode p;
     yy_image_size := image_size;
     yy_center := image_size / 2;
     yy_flow_size := flow_size;
     yy_head_diameter := head_diameter;
     yy_head_radius := (head_diameter / #2)%py;
     yy_eye_radius := eye_radius;
     yy_eye_diameter := (eye_radius * #2)%py;
     yy_flow_offset := (FRAME_WIDTH + rim_width p)%py;
     yy_base := yy_base s0;
     next_handle := next_handle s0 |}.

(** [yy.flow_size], as [# measurements:] computes it. *)
Definition flow_size (p : params) : Z :=
  to_int (symbol_diameter p * #SCALE)%py
  - to_int (rim_width p * #SCALE)%py * 2.

Definition render_yin_yang (p : params) : Render unit :=
  emit gimp_context_push ;;
  s0 <- get ;;
  eye_radius <- lift (colorsys.div #(flow_size p)%py (eye_divisor p)) ;;
  put (initialize p eye_radius s0) ;;
  s <- get ;;
  let timer := if (#1 <? frame_count p)%py
               then (" (" ++ str (to_int (frame_timer p)) ++ "ms)")%string
               else ""%string in
  emit (gimp_context_set_antialias false) ;;
  emit (gimp_context_set_feather false) ;;
  flow_color_2' <- lift (FlowColor.set_colors_105 (mode p)
                           (flow_color_1 p) (flow_color_2 p)) ;;
  emit (gimp_Image (yy_image_size s) (yy_image_size s)) ;;
  base <- fresh ;;
  emit (gimp_layer_new base (yy_image_size s) (yy_image_size s)
          ("Base" ++ timer)%string LAYER_MODE_NORMAL) ;;
  set_base base ;;
  emit (image_add_layer base 0) ;;
  emit gimp_display_new ;;
  emit gimp_image_undo_group_start ;;
  draw_symbol p flow_color_2' timer ;;
  emit gimp_image_undo_group_end ;;
  emit gimp_context_pop.

End WithFloat.
End YinYang.

(* ================================================================== *)
(** * yin-yang-1-02.py *)
(* ================================================================== *)

Module YinYang102.
Section WithFloat.
Context {F : Type} `{PyFloat F}.
Local Open Scope render_scope.

Definition border_i : Z := 2.
Definition border_f : F := #border_i%py.

(** The attributes of the class [YY]; this version keeps the rim
    width, the symbol dimension and the flow size as floats. *)
Record YY := {
  YY_rim_width : F;
  YY_symbol_size : Z;
  YY_symbol_dimension : F;
  YY_mode : Z;
  YY_image_size : Z;
  YY_center : Z;
  YY_flow_size : F;
  YY_head_diameter : F;
  YY_head_radius : F;
  YY_eye_radius : F;
  YY_eye_diameter : F;
  YY_flow_offset : F;
  YY_base : handle;
  next_handle : handle
}.

Definition Render : Type -> Type := M YY (call F).

Definition with_next_handle (s : YY) (v : handle) : YY :=
  {| YY_rim_width := YY_rim_width s; YY_symbol_size := YY_symbol_size s;
     YY_symbol_dimension := YY_symbol_dimension s; YY_mode := YY_mode s;
     YY_image_size := YY_image_size s; YY_center := YY_center s;
     YY_flow_size := YY_flow_size s;
     YY_head_diameter := YY_head_diameter s;
     YY_head_radius := YY_head_radius s; YY_eye_radius := YY_eye_radius s;
     YY_eye_diameter := YY_eye_diameter s;
     YY_flow_offset := YY_flow_offset s; YY_base := YY_base s;
     next_handle := v |}.

Definition with_base (s : YY) (v : handle) : YY :=
  {| YY_rim_width := YY_rim_width s; YY_symbol_size := YY_symbol_size s;
     YY_symbol_dimension := YY_symbol_dimension s; YY_mode := YY_mode s;
     YY_image_size := YY_image_size s; YY_center := YY_center s;
     YY_flow_size := YY_flow_size s;
     YY_head_diameter := YY_head_diameter s;
     YY_head_radius := YY_head_radius s; YY_eye_radius := YY_eye_radius s;
     YY_eye_diameter := YY_eye_diameter s;
     YY_flow_offset := YY_flow_offset s; YY_base := v;
     next_handle := next_handle s |}.

Definition fresh : Render handle :=
  fun s => Some (next_handle s, with_next_handle s (S (next_handle s)), []).

Definition set_base (layer : handle) : Render unit :=
  fun s => Some (tt, with_base s layer, []).

Definition pick {A} (i : Z) (a b : A) : Render A := lift (getitem [a; b] i).

Definition draw_flow_selection (operation : channel_op) : Render unit :=
  s <- get ;;
  let a := (border_f + YY_rim_width s)%py in
  emit (gimp_image_select_ellipse operation a a (YY_flow_size s) (YY_flow_size s)).

Definition fill (c : color) (material : fill_mode) : Render unit :=
  s <- get ;;
  emit (gimp_context_set_foreground c) ;;
  emit (gimp_edit_bucket_fill (YY_base s) material).

Definition draw_side (flow_color : color) (gradient : option handle)
           (pattern : string) (i : Z) : Render unit :=
  draw_flow_selection CHANNEL_OP_REPLACE ;;
  s <- get ;;
  let center := #(YY_center s)%py in
  let eye_offset := (YY_head_diameter s / #2)%py in
  x <- pick i #0%py center ;;
  emit (gimp_image_select_rectangle CHANNEL_OP_SUBTRACT x #0%py
          center #(YY_image_size s)%py) ;;
  y <- pick i center (YY_flow_offset s) ;;
  emit (gimp_image_select_ellipse CHANNEL_OP_ADD
          (center - YY_head_radius s)%py y
          (YY_head_diameter s) (YY_head_diameter s)) ;;
  y <- pick i (YY_flow_offset s) center ;;
  emit (gimp_image_select_ellipse CHANNEL_OP_SUBTRACT
          (center - YY_head_radius s)%py y
          (YY_head_diameter s) (YY_head_diameter s)) ;;
  let eye_x := (center - YY_eye_radius s)%py in
  eye_y <- pick i (center + eye_offset - YY_eye_radius s)%py
                  (center - eye_offset - YY_eye_radius s)%py ;;
  emit (gimp_image_select_ellipse CHANNEL_OP_SUBTRACT eye_x eye_y
          (YY_eye_diameter s) (YY_eye_diameter s)) ;;
  eye_y <- pick i (center - eye_offset - YY_eye_radius s)%py
                  (center + eye_offset - YY_eye_radius s)%py ;;
  emit (gimp_image_select_ellipse CHANNEL_OP_ADD eye_x eye_y
          (YY_eye_diameter s) (YY_eye_diameter s)) ;;
  if YY_mode s =? 1 then
    g <- lift gradient ;;
    emit (gimp_context_set_gradient g) ;;
    x1 <- pick i (center - YY_head_radius s)%py (center + YY_head_radius s)%py ;;
    y1 <- pick i (center + YY_head_radius s)%py (center - YY_head_radius s)%py ;;
    x2 <- pick i (#(YY_image_size s) - border_f)%py border_f ;;
    y2 <- pick i border_f (#(YY_image_size s) - border_f)%py ;;
    emit (gimp_drawable_edit_gradient_fill (YY_base s) x1 y1 x2 y2)
  else if YY_mode s =? 5 then
    emit (gimp_context_set_pattern pattern) ;;
    fill flow_color BUCKET_FILL_PATTERN
  else
    fill flow_color BUCKET_FILL_FG.

Definition new_gradient (left_color right_color : color) (i : Z) : Render handle :=
  gradient <- fresh ;;
  emit (gimp_gradient_new gradient ("yin-yang" ++ str i)%string) ;;
  emit (gimp_gradient_segment_set_right_color gradient right_color) ;;
  emit (gimp_gradient_segment_set_left_color gradient left_color) ;;
  emit (gimp_gradient_segment_range_set_blending_function gradient) ;;
  emit (gimp_gradient_segment_range_set_coloring_type gradient) ;;
  ret gradient.

Definition keep_in_bounds (angle : F) : F :=
  if (#180 <? angle)%py then (#(-360) + angle)%py
  else if (angle <? #(-180))%py then (#360 + angle)%py
  else angle.

Definition frame (rotation : F) (timer : string) (angle : F) : Render F :=
  s <- get ;;
  layer_copy <- fresh ;;
  emit (gimp_layer_copy layer_copy (YY_base s)) ;;
  emit (image_add_layer layer_copy 0) ;;
  let angle := keep_in_bounds angle in
  emit (layer_set_name layer_copy (str (to_int angle) ++ timer)%string) ;;
  emit (gimp_item_transform_rotate layer_copy angle (radians angle)
          #(YY_center s)%py #(YY_center s)%py) ;;
  let angle := (angle + rotation)%py in
  emit (layer_merge_shadow layer_copy) ;;
  emit (layer_flush layer_copy) ;;
  ret angle.

Definition process_frame_count (p : YinYang.params (F:=F)) (timer : string)
  : Render unit :=
  if (#1 <? YinYang.frame_count p)%py then
    q <- lift (colorsys.div #360%py (YinYang.frame_count p)) ;;
    sign <- pick (YinYang.direction p) 1 (-1) ;;
    let rotation := (q * #sign)%py in
    let angle := rotation in
    let f := to_int (YinYang.frame_count p) in
    _ <- for_in (range (f - 1)) (fun _ angle => frame rotation timer angle) angle ;;
    ret tt
  else ret tt.

(** [# Draw rim:] the body of [if YY.rim_width:]. *)
Definition draw_rim (c : color) : Render unit :=
  s <- get ;;
  emit (gimp_image_select_ellipse CHANNEL_OP_REPLACE border_f border_f
          (YY_symbol_dimension s) (YY_symbol_dimension s)) ;;
  draw_flow_selection CHANNEL_OP_SUBTRACT ;;
  fill c BUCKET_FILL_FG.

Definition draw_flows (p : YinYang.params (F:=F)) (flow_color_2 : color)
  : Render (option handle * option handle) :=
  '(gradient_1, gradient_2) <-
    (if YinYang.mode p =? 1 then
       g1 <- new_gradient (YinYang.flow_color_1 p) flow_color_2 1 ;;
       g2 <- new_gradient flow_color_2 (YinYang.flow_color_1 p) 2 ;;
       ret (Some g1, Some g2)
     else ret (None, None)) ;;
  draw_side (YinYang.flow_color_1 p) gradient_1 (YinYang.flow_pattern_1 p) 0 ;;
  draw_side flow_color_2 gradient_2 (YinYang.flow_pattern_2 p) 1 ;;
  ret (gradient_1, gradient_2).

Definition rim_stage (p : YinYang.params (F:=F)) : Render unit :=
  s <- get ;;
  if negb (YY_rim_width s == #0)%py
  then draw_rim (YinYang.rim_color p) else ret tt.

Definition finish (p : YinYang.params (F:=F)) (timer : string) : Render unit :=
  s <- get ;;
  emit gimp_selection_none ;;
  (if negb (YinYang.direction p =? 0)
   then emit (gimp_item_transform_flip_simple (YY_base s)) else ret tt) ;;
  process_frame_count p timer.

Definition draw_symbol (p : YinYang.params (F:=F)) (flow_color_2 : color)
           (timer : string) : Render unit :=
  _ <- draw_flows p flow_color_2 ;;
  rim_stage p ;;
  finish p timer.

Definition initialize (p : YinYang.params (F:=F)) (eye_radius : F) (s0 : YY)
  : YY :=
  let rim_width := YinYang.rim_width p in
  let symbol_size := to_int (YinYang.symbol_diameter p) in
  let image_size := symbol_size + 2 * border_i in
  let flow_size := (#symbol_size - rim_width * #2)%py in
  let head_diameter := (flow_size / #2)%py in
  {| YY_rim_width := rim_width;
     YY_symbol_size := symbol_size;
     YY_symbol_dimension := YinYang.symbol_diameter p;
     YY_mode := YinYang.mode p;
     YY_image_size := image_size;
     YY_center := image_size / 2;
     YY_flow_size := flow_size;
     YY_head_diameter := head_diameter;
     YY_head_radius := (head_diameter / #2)%py;
     YY_eye_radius := eye_radius;
     YY_eye_diameter := (eye_radius * #2)%py;
     YY_flow_offset := (border_f + rim_width)%py;
     YY_base := YY_base s0;
     next_handle := next_handle s0 |}.

Definition flow_size (p : YinYang.params (F:=F)) : F :=
  (#(to_int (YinYang.symbol_diameter p)) - YinYang.rim_width p * #2)%py.

(** The dialog of this version has the same parameters, in the same
    order; only the list of modes differs. *)
Definition render_yin_yang (p : YinYang.params (F:=F)) : Render unit :=
  emit gimp_context_push ;;
  s0 <- get ;;
  eye_radius <- lift (colorsys.div (flow_size p) (YinYang.eye_divisor p)) ;;
  put (initialize p eye_radius s0) ;;
  s <- get ;;
  let timer := if (#1 <? YinYang.frame_count p)%py
               then (" (" ++ str (to_int (YinYang.frame_timer p)) ++ "ms)")%string
               else ""%string in
  flow_color_2' <- lift (FlowColor.set_colors_102 (YinYang.mode p)
                           (YinYang.flow_color_1 p) (YinYang.flow_color_2 p)) ;;
  emit (gimp_Image (YY_image_size s) (YY_image_size s)) ;;
  base <- fresh ;;
  emit (gimp_layer_new base (YY_image_size s) (YY_image_size s)
          ("Base" ++ timer)%string LAYER_MODE_NORMAL) ;;
  set_base base ;;
  emit (image_add_layer base 0) ;;
  emit gimp_display_new ;;
  emit gimp_image_undo_group_start ;;
  draw_symbol p flow_color_2' timer ;;
  emit gimp_image_undo_group_end ;;
  emit gimp_context_pop.

End WithFloat.
End YinYang102.

(* ================================================================== *)
(** * Specification vocabulary *)
(* ================================================================== *)

Unset Implicit Arguments.

(** ** Running a render computation *)

(** [runs m s Q]: from state [s] the computation [m] raises nothing and
    its value, final state and calls satisfy [Q]. *)
Definition runs {S C A} (m : M S C A) (s : S) (Q : A -> S -> list C -> Prop) : Prop :=
  exists a s' out, m s = Some (a, s', out) /\ Q a s' out.

(** ** Colours *)

Module ColorSpec.

(** The colours a colour button of a dialog can give. *)
Definition in_gamut (c : color) : Prop :=
  let '(r, g, b) := c in
  0 <= r <= 255 /\ 0 <= g <= 255 /\ 0 <= b <= 255.


(** The largest and the least component. *)
Definition brightest (c : color) : Z := let '(r, g, b) := c in Z.max (Z.max r g) b.
Definition darkest (c : color) : Z := let '(r, g, b) := c in Z.min (Z.min r g) b.

(** [k] added to every component. *)
Definition shift (k : Z) (c : color) : color :=
  let '(r, g, b) := c in (r + k, g + k, b + k).

End ColorSpec.

(** ** The polar derivations *)

Module PolarSpec.
Import FlowColor ColorSpec.



End PolarSpec.

(** ** Undo groups *)

Module Undo.

(** Calls that neither draw nor mark an undo group. *)
Definition bystander {F} (c : call F) : bool :=
  negb (is_draw c) && negb (is_undo_start c) && negb (is_undo_end c).

(** Calls other than the two that mark an undo group. *)
Definition not_undo_mark {F} (c : call F) : bool :=
  negb (is_undo_start c) && negb (is_undo_end c).

Definition quiet {F} (cs : list (call F)) : Prop :=
  forallb not_undo_mark cs = true.

(** The calls of a render form one undo group: one start and one end,
    nothing drawn before the start or after the end. *)
Definition one_undo_group {F} (cs : list (call F)) : Prop :=
  exists before inside after,
    cs = before ++ [gimp_image_undo_group_start] ++ inside
         ++ [gimp_image_undo_group_end] ++ after
    /\ forallb bystander before = true
    /\ forallb not_undo_mark inside = true
    /\ forallb bystander after = true.
End Undo.

(** ** The flower *)

Module FlowerSpec.
Import Flower ColorSpec Undo.

(** What the properties of the flower look at in a run: the colours
    set for a fill, and the subscripts at which [extra_ring] is
    read. *)
Inductive obs := Fill (c : color) | LoadExtra (i : Z).

Definition view_event (e : event) : list obs :=
  match e with
  | Host (gimp_context_set_foreground c) => [Fill c]
  | Load EXTRA_RING i => [LoadExtra i]
  | _ => []
  end.

Definition view (out : list event) : list obs := flat_map view_event out.

(** An event that is fine anywhere between the two undo-group calls:
    no undo-group call itself, no subscript outside its list. *)
Definition ok (e : event) : bool :=
  match e with
  | Host h => negb (is_undo_start h) && negb (is_undo_end h)
  | Load RING_CENTER i | Store RING_CENTER i => (0 <=? i) && (i <? 6)
  | Load EXTRA_RING i | Store EXTRA_RING i => (0 <=? i) && (i <? 12)
  end.

(** The events [out] are fine and show [w]. *)
Definition tr (w : list obs) (out : list event) : Prop :=
  forallb ok out = true /\ view out = w.

Definition is_point (c : cell) : bool :=
  match c with Point _ => true | Int0 => false end.

(** A state after some rings: the two lists and the count of host
    objects may have changed. *)
Definition evolved (s : state) (rc er : list cell) (n : handle) : state :=
  with_next_handle (with_extra_ring (with_ring_center s rc) er) n.

Definition fills (c : color) (n : nat) : list obs := repeat (Fill c) n.

(** The subscripts of [extra_ring] read by the three perimeter
    passes, in order. *)
Definition perimeter_subscripts : list Z :=
  [0; 1; 2; 2; 3; 4; 4; 5; 6; 6; 7; 8; 8; 9; 10; 10; 11; 0].

(** What [draw_6th_ring] shows: a read and a fill per circle. *)
Definition ring_6_view (c : color) : list obs :=
  flat_map (fun i => [LoadExtra i; Fill c]) perimeter_subscripts.

Definition frame_view (c : color) (fw : Z) : list obs :=
  if fw =? 0 then [] else [Fill c].

(** What [draw_colored_flower] and [draw_black_and_white] fill, and
    the subscripts they read, in order. *)
Definition flower_view (c0 c1 c2 c3 c4 c5 c6 frame_c : color) (fw : Z)
  : list obs :=
  [Fill c0] ++ fills c1 6 ++ fills c2 6 ++ fills c3 6 ++ fills c4 12
  ++ fills c5 6 ++ ring_6_view c6 ++ frame_view frame_c fw.

(** What [create_bw_alpha] shows. *)
Definition mask_view (fw : Z) : list obs :=
  [Fill BLACK] ++ List.map LoadExtra (range 12) ++ [Fill WHITE]
  ++ frame_view WHITE fw.

(** The lists hold what a finished flower leaves in them. *)
Definition lists_filled (rc er : list cell) : Prop :=
  List.length rc = 6%nat /\ forallb is_point rc = true /\
  List.length er = 12%nat /\ forallb is_point er = true.

(** The value of the [k]-th call of [random.randint(0, 255)] made
    from state [s] on. *)
Definition drawn (s : state) (k : nat) : Z :=
  0 + random_raw s (k + random_pos s)%nat mod (255 - 0 + 1).

(** The [i]-th ring colour of the Random Colors block. *)
Definition random_color (s : state) (i : nat) : color :=
  (drawn s (3 * i), drawn s (3 * i + 1), drawn s (3 * i + 2)).

Definition red (c : color) : Z := fst (fst c).
Definition green (c : color) : Z := snd (fst c).
Definition blue (c : color) : Z := snd c.

(** The sum of one component over a list of colours. *)
Definition total (f : color -> Z) (cols : list color) : Z :=
  List.fold_left (fun acc c => acc + f c) cols 0.

(** Component-wise mean of seven colours, cut to an integer. *)
Definition mean_color (cols : list color) : color :=
  (Z.quot (total red cols) 7, Z.quot (total green cols) 7,
   Z.quot (total blue cols) 7).

Definition no_undo_mark (out : list event) : Prop := forallb ok out = true.

(** The two module-level lists have the lengths the module gives
    them. *)
Definition lists_sized (s : state) : Prop :=
  List.length (ring_center s) = 6%nat /\ List.length (extra_ring s) = 12%nat.

(** Points that agree when written with two decimals. *)
Definition agree_2_decimals (p q : point) : Prop :=
  (Rabs (fst p - fst q) < 5 / 1000 /\ Rabs (snd p - snd q) < 5 / 1000)%R.

Definition degrees (d : Z) : R := (IZR d * (PI / 180))%R.

(** The six points of the ring of radius 10 around (0, 0), written
    with two decimals. *)
Definition hexagon_10 : list point :=
  [ (0, -10); (866 / 100, -5); (866 / 100, 5);
    (0, 10); (- (866 / 100), 5); (- (866 / 100), -5) ]%R.

(** The subscripts of [extra_ring] that a run reads, in order. *)
Definition extra_reads (out : list event) : list Z :=
  flat_map (fun e => match e with Load EXTRA_RING i => [i] | _ => [] end) out.

(** The foreground colours a run sets before its fills, in order. *)
Definition fill_colors (out : list event) : list color :=
  flat_map (fun e => match e with
                     | Host (gimp_context_set_foreground c) => [c]
                     | _ => []
                     end) out.

(** The number of circles drawn by [draw_1st_ring] to
    [draw_6th_ring]. *)
Definition ring_sizes : list nat := [6; 6; 6; 12; 6; 18]%nat.

(** The fills of a flower whose circle at the centre takes the first
    colour and whose [k]-th ring takes the colour after the [k]-th. *)
Definition painting (cols : list color) : list color :=
  [nth 0 cols BLACK]
  ++ flat_map (fun k => repeat (nth (S k) cols BLACK) (nth k ring_sizes 0%nat))
              (seq 0 6).


(** Two points no further apart, along either axis, than [tol] times
    the radius. *)
Definition closes_within (tol radius : R) (p q : point) : Prop :=
  (Rabs (fst p - fst q) <= tol * Rabs radius
   /\ Rabs (snd p - snd q) <= tol * Rabs radius)%R.

(** The angle after six steps of [angle += DEGREE_60] from zero. *)
Definition full_turn : R :=
  (0 + DEGREE_60 + DEGREE_60 + DEGREE_60 + DEGREE_60 + DEGREE_60 + DEGREE_60)%R.

(** The two lists have their lengths and [ring_center] holds points,
    as it does once the third ring has been drawn. *)
Definition ring_center_filled (s : state) : Prop :=
  List.length (ring_center s) = 6%nat
  /\ forallb is_point (ring_center s) = true
  /\ List.length (extra_ring s) = 12%nat.

Definition obs_reads (w : list obs) : list Z :=
  flat_map (fun o => match o with LoadExtra i => [i] | Fill _ => [] end) w.

Definition obs_fills (w : list obs) : list color :=
  flat_map (fun o => match o with Fill c => [c] | LoadExtra _ => [] end) w.

(** An input of the dialog: a flower of circles of radius 100, in
    colours, without a frame. *)
Definition sample_flower_params : params :=
  {| symbol_radius := 100%R; mode := 1; flower_part := CIRCLES;
     color1 := (255, 0, 0); color2 := (255, 128, 0);
     color3 := (255, 255, 0); color4 := (0, 255, 0);
     color5 := (0, 255, 255); color6 := (0, 0, 255);
     color7 := (128, 0, 255);
     line_w := 1%R; frame_w := 0%R; frame_col := BLACK |}.

(** The globals as [render_flower] sets them for that input, with
    points in [ring_center]. *)
Definition sample_state : state :=
  {| ring_center := repeat (Point (202, 202)%R) 6;
     extra_ring := initial_extra_ring;
     image_center := 202; image_size := 404; image_focus := (202, 202);
     circle_diameter := 132; circle_radius := 66; frame_width := 0;
     flower_radius := 200; flower_type := CIRCLES; line_width := 2;
     ring_colors := [(255, 0, 0); (255, 128, 0); (255, 255, 0); (0, 255, 0);
                     (0, 255, 255); (0, 0, 255); (128, 0, 255)];
     frame_color := BLACK; color_mode := 1;
     random_raw := fun n => Z.of_nat n; random_pos := 0;
     next_handle := 0%nat |}.
End FlowerSpec.

(** ** Leaving part of the state alone *)

Module Frame.

(** A run leaves the value of [f] on the state as it was. *)
Definition keeps {S C A X} (f : S -> X) (m : M S C A) : Prop :=
  forall s a s' out, m s = Some (a, s', out) -> f s' = f s.
End Frame.

(** ** The animation *)

Module Animation.

(** The angles, in degrees, of the rotations among the calls. *)
Fixpoint rotations {F} (cs : list (call F)) : list F :=
  match cs with
  | [] => []
  | gimp_item_transform_rotate _ a _ _ _ :: rest => a :: rotations rest
  | _ :: rest => rotations rest
  end.

Section WithFloat.
Context {F : Type} `{PyFloat F}.

(** The angles applied by [n] passes through the loop entered with
    [angle]. *)
Fixpoint angles_from (n : nat) (rotation angle : F) : list F :=
  match n with
  | O => []
  | S k =>
      let a := YinYang.keep_in_bounds angle in
      a :: angles_from k rotation (fadd a rotation)
  end.

(** The angles applied by [# Process frame count:]. *)
Definition animation_angles (frame_count : F) (direction : Z) : list F :=
  if fltb (of_int 1) frame_count then
    match getitem [1; -1] direction with
    | Some sign =>
        let rotation := fmul (fdiv (of_int 360) frame_count) (of_int sign) in
        angles_from (Z.to_nat (to_int frame_count - 1)) rotation rotation
    | None => []
    end
  else [].
End WithFloat.

Definition in_bounds_R (a : R) : Prop := (-180 <= a <= 180)%R.

Definition in_bounds_float (a : float) : bool :=
  PrimFloat.leb (-180)%float a && PrimFloat.leb a 180%float.

(** The values of the Frame Count spinner that start an animation. *)
Definition frame_counts : list Z := List.map Z.of_nat (List.seq 2 59).

(** In binary64 arithmetic a Frame Count of [n] is not zero, and for
    either direction its [n - 1] angles lie within bounds. *)
Definition float_frames_ok (n : Z) : bool :=
  negb (PrimFloat.eqb (float_of_int n) (float_of_int 0))
  && forallb in_bounds_float (animation_angles (F:=float) (of_int n) 0)
  && forallb in_bounds_float (animation_angles (F:=float) (of_int n) 1)
  && (List.length (animation_angles (F:=float) (of_int n) 0) =? Z.to_nat (n - 1))%nat.
End Animation.

(** ** Hue, lightness and saturation over the reals *)

Module HLS.
Local Open Scope R_scope.

(** The hue ramp of [colorsys._v], between 0 and 1. *)
Definition tri (u : R) : R :=
  let u := R_mod1 u in
  if Rlt_dec u (1 / 6) then u * 6
  else if Rlt_dec u (1 / 2) then 1
  else if Rlt_dec u (2 / 3) then (2 / 3 - u) * 6
  else 0.

(** [m2] of [colorsys.hls_to_rgb]. *)
Definition M2 (l s : R) : R :=
  if Rle_dec l (1 / 2) then l * (1 + s) else l + s - l * s.

(** Six times the hue of a colour whose components, rescaled to
    least 0 and largest 1, are [x], [y], [z]. *)
Definition hue6 (x y z : R) : R :=
  if Req_dec_T x 1 then y - z
  else if Req_dec_T y 1 then 2 + z - x
  else 4 + x - y.

(** [s] of [colorsys.rgb_to_hls] from the extremal components. *)
Definition saturation (m M : R) : R :=
  if Rle_dec ((m + M) / 2) (1 / 2) then (M - m) / (M + m)
  else (M - m) / (2 - M - m).

(** A component of a colour, divided by 255. *)
Definition unit_range (x : R) : Prop := 0 <= x <= 1.
End HLS.

(** ** The yin-yang *)

Module YinYangSpec.
Import FlowColor ColorSpec YinYang.

Section WithFloat.
Context {F : Type} `{PyFloat F}.
Implicit Types (p : params (F:=F)).

(** The inputs on which the animation loop raises nothing. *)
Definition animation_ready p : Prop :=
  (direction p = 0 \/ direction p = 1)
  /\ (fltb (of_int 1) (frame_count p) = true ->
      feqb (frame_count p) (of_int 0) = false).

(** The inputs on which [render_yin_yang] raises nothing. *)
Definition render_ready p : Prop :=
  feqb (eye_divisor p) (of_int 0) = false
  /\ FlowColor.set_colors_105 (mode p) (flow_color_1 p) (flow_color_2 p) <> None
  /\ animation_ready p.
End WithFloat.

(** What the dialog of yin-yang-1-05 can deliver, as far as raising
    goes: the Eye Divisor spinner runs from 6 to 25, a colour button
    gives components from 0 to 255, Direction is one of two options. *)
Definition dialog_input (p : params (F:=R)) : Prop :=
  (6 <= eye_divisor p <= 25)%R
  /\ in_gamut (flow_color_1 p)
  /\ (direction p = 0 \/ direction p = 1).

(** An input of the dialog: blue, Polar Saturation, no rim, seven
    frames, counter-clockwise. *)
Definition sample_params : params (F:=float) :=
  {| symbol_diameter := 500%float; mode := 5;
     flow_color_1 := (0, 0, 255); flow_color_2 := (255, 255, 255);
     rim_color := (127, 127, 127);
     flow_pattern_1 := "Pine"; flow_pattern_2 := "Marble #1";
     rim_width := 0%float; eye_divisor := 14%float; direction := 1;
     frame_count := float_of_int 7; frame_timer := 100%float |}.

Definition sample_params_R : params (F:=R) :=
  {| symbol_diameter := 500%R; mode := 5;
     flow_color_1 := (0, 0, 255); flow_color_2 := (255, 255, 255);
     rim_color := (127, 127, 127);
     flow_pattern_1 := "Pine"; flow_pattern_2 := "Marble #1";
     rim_width := 0%R; eye_divisor := 14%R; direction := 1;
     frame_count := IZR 7; frame_timer := 100%R |}.

(** The class attributes as the class statement sets them. *)
Definition initial_yy {F} `{PyFloat F} : yy (F:=F) :=
  {| yy_rim_width := 0; yy_symbol_size := 0; yy_symbol_dimension := 0;
     yy_mode := 0; yy_image_size := 0; yy_center := 0; yy_flow_size := 0;
     yy_head_diameter := of_int 0; yy_head_radius := of_int 0;
     yy_eye_radius := of_int 0; yy_eye_diameter := of_int 0;
     yy_flow_offset := of_int 0; yy_base := 0%nat; next_handle := 0%nat |}.

Definition initial_YY {F} `{PyFloat F} : YinYang102.YY (F:=F) :=
  {| YinYang102.YY_rim_width := of_int 0; YinYang102.YY_symbol_size := 0;
     YinYang102.YY_symbol_dimension := of_int 0;
     YinYang102.YY_mode := 0; YinYang102.YY_image_size := 0;
     YinYang102.YY_center := 0; YinYang102.YY_flow_size := of_int 0;
     YinYang102.YY_head_diameter := of_int 0;
     YinYang102.YY_head_radius := of_int 0;
     YinYang102.YY_eye_radius := of_int 0;
     YinYang102.YY_eye_diameter := of_int 0;
     YinYang102.YY_flow_offset := of_int 0;
     YinYang102.YY_base := 0%nat; YinYang102.next_handle := 0%nat |}.

(** The colours whose components are multiples of 17. *)
Definition grid : list color :=
  let steps := List.map (fun k => 17 * Z.of_nat k) (seq 0 16) in
  flat_map (fun r => flat_map (fun g => List.map (fun b => (r, g, b)) steps) steps)
           steps.
End YinYangSpec.

(** ** Points and circles *)

Module CircleSpec.
Import Flower.
Local Open Scope R_scope.

(** The square of the distance between two points. *)
Definition sq_distance (p q : point) : R :=
  (fst p - fst q) * (fst p - fst q) + (snd p - snd q) * (snd p - snd q).

(** The point opposite [p] as seen from [f]. *)
Definition opposite (f p : point) : point :=
  (2 * fst f - fst p, 2 * snd f - snd p).
End CircleSpec.

(** ** Selections *)

Module SelectionSpec.
Import Flower CircleSpec.

(** A shape that a run selects: the upper left corner, and the width
    and the height. *)
Definition shape (F : Type) : Type := ((F * F) * (F * F))%type.

(** The ellipses and the rectangles a run selects, in order, each
    with the operation. *)
Fixpoint ellipses {F} (cs : list (call F)) : list (channel_op * shape F) :=
  match cs with
  | [] => []
  | gimp_image_select_ellipse o x y w h :: rest => (o, ((x, y), (w, h))) :: ellipses rest
  | _ :: rest => ellipses rest
  end.

Fixpoint rectangles {F} (cs : list (call F)) : list (channel_op * shape F) :=
  match cs with
  | [] => []
  | gimp_image_select_rectangle o x y w h :: rest =>
      (o, ((x, y), (w, h))) :: rectangles rest
  | _ :: rest => rectangles rest
  end.

Definition same_op (a b : channel_op) : bool :=
  match a, b with
  | CHANNEL_OP_ADD, CHANNEL_OP_ADD
  | CHANNEL_OP_SUBTRACT, CHANNEL_OP_SUBTRACT
  | CHANNEL_OP_REPLACE, CHANNEL_OP_REPLACE => true
  | _, _ => false
  end.

(** The shapes selected with operation [o], in order. *)
Definition selected {F} (o : channel_op) (es : list (channel_op * shape F))
  : list (shape F) :=
  flat_map (fun '(o', e) => if same_op o o' then [e] else []) es.

(** The number of shapes added to the selection. *)
Definition added {F} (es : list (channel_op * shape F)) : nat :=
  List.length (selected CHANNEL_OP_ADD es).


(** The circle of diameter [d] around [p]. *)
Definition disc (p : point) (d : R) : shape R :=
  ((fst p - d / 2, snd p - d / 2), (d, d))%R.

Definition circle_around (o : channel_op) (p : point) (d : R)
  : channel_op * shape R :=
  (o, disc p d).

(** The middle of a shape. *)
Definition centre_of (e : shape R) : point :=
  (fst (fst e) + fst (snd e) / 2, snd (fst e) + snd (snd e) / 2)%R.

(** Every shape has its middle at [p]. *)
Definition centred_at (p : point) (es : list (channel_op * shape R)) : Prop :=
  Forall (fun e => centre_of (snd e) = p) es.

(** Every shape has its middle at the distance [radius] from [p]. *)
Definition centred_around (p : point) (radius : R) (es : list (channel_op * shape R))
  : Prop :=
  Forall (fun e => sq_distance (centre_of (snd e)) p = (radius * radius)%R) es.

(** A shape within a square image of the given size, no nearer than
    [margin] to an edge. *)
Definition inside (margin size : R) (e : shape R) : Prop :=
  (margin <= fst (fst e) /\ margin <= snd (fst e)
   /\ fst (fst e) + fst (snd e) <= size - margin
   /\ snd (fst e) + snd (snd e) <= size - margin)%R.

(** In Lines mode an odd line width moves the centre of what is drawn
    by half a pixel, and the line width is added to the diameters. *)
Definition line_shift (s : state) : R :=
  if flower_type s =? LINES then (IZR (line_width s mod 2) / 2)%R else 0%R.

Definition line_extra (s : state) : Z :=
  if flower_type s =? LINES then line_width s else 0.

(** What a side of the yin-yang selects, for the flow circle of
    diameter [D] around the point [(c, c)] and eyes of diameter [ed]:
    the flow circle; the heads, of half its diameter, around the
    points a quarter of its diameter below and above its middle; the
    eyes, around the same two points.  The first side (index 0) adds
    the lower head and the upper eye and takes away the upper head and
    the lower eye; the second side does the opposite. *)
Definition side_picture (i : Z) (c D ed : R) (out : list (call R)) : Prop :=
  let low : point := (c, c + D / 4)%R in
  let high : point := (c, c - D / 4)%R in
  selected CHANNEL_OP_REPLACE (ellipses out) = [disc (c, c) D]
  /\ selected CHANNEL_OP_ADD (ellipses out)
     = (if i =? 0 then [disc low (D / 2); disc high ed]
        else [disc high (D / 2); disc low ed])
  /\ selected CHANNEL_OP_SUBTRACT (ellipses out)
     = (if i =? 0 then [disc high (D / 2); disc low ed]
        else [disc low (D / 2); disc high ed]).
End SelectionSpec.

(** ** Gradients *)

Module GradientSpec.

(** What a run does to the gradients of the host, in order. *)
Inductive gradient_event := Created (g : handle) | Deleted (g : handle).

Fixpoint gradient_log {F} (cs : list (call F)) : list gradient_event :=
  match cs with
  | [] => []
  | gimp_gradient_new g _ :: rest => Created g :: gradient_log rest
  | gimp_gradient_delete g :: rest => Deleted g :: gradient_log rest
  | _ :: rest => gradient_log rest
  end.

(** The gradients a run of yin-yang makes: two in the Gradient mode,
    none in another. *)
Definition gradient_count (mode : Z) : nat := if mode =? 1 then 2%nat else 0%nat.

(** The gradients among [gradient_1] and [gradient_2] that are not
    [None]. *)
Definition present (gs : option handle * option handle) : list handle :=
  match fst gs with Some g => [g] | None => [] end
  ++ match snd gs with Some g => [g] | None => [] end.
End GradientSpec.

(** ** Whole turns *)

Module TurnSpec.

(** Two angles in degrees that differ by whole turns. *)
Definition turns_apart (a b : R) : Prop := exists k : Z, a = (b + 360 * IZR k)%R.

(** The angle between two frames of an animation of [n] frames. *)
Definition step_angle (n direction : Z) : R :=
  (360 / IZR n * IZR (if direction =? 0 then 1 else -1))%R.

(** The [k]-th of the angles is, up to whole turns, [k + 1] steps. *)
Definition evenly_spaced (n direction : Z) (angles : list R) : Prop :=
  forall k, 0 <= k < n - 1 ->
            exists a, getitem angles k = Some a
                      /\ turns_apart a (IZR (k + 1) * step_angle n direction).
End TurnSpec.

(** ** Colours in binary64 arithmetic *)

Module GamutSpec.
Import FlowColor.

(** [in_gamut] as a test. *)
Definition in_gamutb (c : color) : bool :=
  let '(r, g, b) := c in
  (0 <=? r) && (r <=? 255) && (0 <=? g) && (g <=? 255) && (0 <=? b) && (b <=? 255).

(** In binary64 arithmetic the derivation gives a colour, with
    components from 0 to 255. *)
Definition keeps_gamut (ch : channel) (c : color) : bool :=
  match invert_channel (F:=float) ch c with
  | Some d => in_gamutb d
  | None => false
  end.
End GamutSpec.

(** ** yin-yang-1-02 *)

Module YinYang102Spec.
Import FlowColor YinYang YinYangSpec.

Section WithFloat.
Context {F : Type} `{PyFloat F}.

(** The inputs on which [render_yin_yang] of yin-yang-1-02 raises
    nothing. *)
Definition render_ready_102 (p : params (F:=F)) : Prop :=
  feqb (eye_divisor p) (of_int 0) = false
  /\ FlowColor.set_colors_102 (mode p) (flow_color_1 p) (flow_color_2 p) <> None
  /\ animation_ready p.
End WithFloat.
End YinYang102Spec.

(** ** The fills of a flower *)

Module FillSpec.
Import Flower FlowerSpec.

(** The fill of the ground of a layer, which Lines mode leaves out. *)
Definition ground (ft : Z) : list obs :=
  if negb (ft =? LINES) then [Fill WHITE] else [].

(** What the statements of [render_flower] between the two undo-group
    calls show: in a colour mode the ground and the coloured flower;
    then, in every mode, the ground, the white flower and the mask. *)
Definition symbol_view (mode ft fw : Z) (cols : list color) (fc : color) : list obs :=
  (if negb (mode =? 0)
   then ground ft
        ++ flower_view (nth 0 cols BLACK) (nth 1 cols BLACK) (nth 2 cols BLACK)
             (nth 3 cols BLACK) (nth 4 cols BLACK) (nth 5 cols BLACK)
             (nth 6 cols BLACK) fc fw
   else [])
  ++ ground ft
  ++ flower_view WHITE WHITE WHITE WHITE WHITE WHITE WHITE WHITE fw
  ++ mask_view fw.

(** The colours that a call of [render_flower] fills with, in order,
    for flower type [ft], frame width [fw], ring colours [cols] and
    frame colour [fc]: in a colour mode the ground in white (not in
    Lines mode), the flower in the ring colours from the centre
    outward and the frame, if it has a width, in the frame colour;
    then, in every mode, the ground again, the 55 circles of the
    flower and the frame in white, and the mask in black, white and,
    for the frame, white. *)
Definition render_fills (mode ft fw : Z) (cols : list color) (fc : color)
  : list color :=
  let ground := if ft =? LINES then [] else [WHITE] in
  let white_frame := if fw =? 0 then [] else [WHITE] in
  (if mode =? 0 then []
   else ground ++ painting cols ++ (if fw =? 0 then [] else [fc]))
  ++ ground ++ repeat WHITE 55 ++ white_frame
  ++ [BLACK; WHITE] ++ white_frame.
End FillSpec.

(** ** What a fill paints with *)

Module PaintSpec.

(** The calls that decide what a fill paints with: the two ends of a
    gradient, the gradient, the pattern and the foreground colour of
    the context, and the two kinds of fill. *)
Inductive paint_call :=
| SetLeft (g : handle) (c : color)
| SetRight (g : handle) (c : color)
| UseGradient (g : handle)
| UsePattern (name : string)
| UseForeground (c : color)
| GradientFill
| BucketFill (material : fill_mode).

Fixpoint paint_calls {F} (cs : list (call F)) : list paint_call :=
  match cs with
  | [] => []
  | gimp_gradient_segment_set_left_color g c :: rest =>
      SetLeft g c :: paint_calls rest
  | gimp_gradient_segment_set_right_color g c :: rest =>
      SetRight g c :: paint_calls rest
  | gimp_context_set_gradient g :: rest => UseGradient g :: paint_calls rest
  | gimp_context_set_pattern name :: rest => UsePattern name :: paint_calls rest
  | gimp_context_set_foreground c :: rest => UseForeground c :: paint_calls rest
  | gimp_drawable_edit_gradient_fill _ _ _ _ _ :: rest =>
      GradientFill :: paint_calls rest
  | gimp_edit_bucket_fill _ material :: rest =>
      BucketFill material :: paint_calls rest
  | _ :: rest => paint_calls rest
  end.

(** What a fill paints with: a gradient from a left to a right
    colour, a pattern, or a colour; [None] where the calls before the
    fill have not set it. *)
Inductive paint :=
| Blend (left right : option color)
| Pattern (name : option string)
| Solid (c : option color).

(** What the calls so far have set. *)
Record context := {
  ctx_foreground : option color;
  ctx_pattern : option string;
  ctx_gradient : option handle;
  ctx_lefts : list (handle * color);
  ctx_rights : list (handle * color)
}.

Definition empty_context : context :=
  {| ctx_foreground := None; ctx_pattern := None; ctx_gradient := None;
     ctx_lefts := []; ctx_rights := [] |}.

(** The colour set last for gradient [g]. *)
Fixpoint end_color (g : handle) (l : list (handle * color)) : option color :=
  match l with
  | [] => None
  | (h, c) :: rest => if Nat.eqb h g then Some c else end_color g rest
  end.

Definition end_of (g : option handle) (l : list (handle * color)) : option color :=
  match g with Some g => end_color g l | None => None end.

(** A fill with [BUCKET_FILL_FG] paints with the foreground colour of
    the context, one with [BUCKET_FILL_PATTERN] with its pattern, and
    a gradient fill with its gradient. *)
Fixpoint paints_from (ctx : context) (cs : list paint_call) : list paint :=
  match cs with
  | [] => []
  | SetLeft g c :: rest =>
      paints_from {| ctx_foreground := ctx_foreground ctx;
                     ctx_pattern := ctx_pattern ctx;
                     ctx_gradient := ctx_gradient ctx;
                     ctx_lefts := (g, c) :: ctx_lefts ctx;
                     ctx_rights := ctx_rights ctx |} rest
  | SetRight g c :: rest =>
      paints_from {| ctx_foreground := ctx_foreground ctx;
                     ctx_pattern := ctx_pattern ctx;
                     ctx_gradient := ctx_gradient ctx;
                     ctx_lefts := ctx_lefts ctx;
                     ctx_rights := (g, c) :: ctx_rights ctx |} rest
  | UseGradient g :: rest =>
      paints_from {| ctx_foreground := ctx_foreground ctx;
                     ctx_pattern := ctx_pattern ctx;
                     ctx_gradient := Some g;
                     ctx_lefts := ctx_lefts ctx;
                     ctx_rights := ctx_rights ctx |} rest
  | UsePattern name :: rest =>
      paints_from {| ctx_foreground := ctx_foreground ctx;
                     ctx_pattern := Some name;
                     ctx_gradient := ctx_gradient ctx;
                     ctx_lefts := ctx_lefts ctx;
                     ctx_rights := ctx_rights ctx |} rest
  | UseForeground c :: rest =>
      paints_from {| ctx_foreground := Some c;
                     ctx_pattern := ctx_pattern ctx;
                     ctx_gradient := ctx_gradient ctx;
                     ctx_lefts := ctx_lefts ctx;
                     ctx_rights := ctx_rights ctx |} rest
  | GradientFill :: rest =>
      Blend (end_of (ctx_gradient ctx) (ctx_lefts ctx))
            (end_of (ctx_gradient ctx) (ctx_rights ctx))
      :: paints_from ctx rest
  | BucketFill BUCKET_FILL_FG :: rest =>
      Solid (ctx_foreground ctx) :: paints_from ctx rest
  | BucketFill BUCKET_FILL_PATTERN :: rest =>
      Pattern (ctx_pattern ctx) :: paints_from ctx rest
  end.

(** What the bucket fills and the gradient fills of a run paint
    with, in order. *)
Definition paints {F} (cs : list (call F)) : list paint :=
  paints_from empty_context (paint_calls cs).

(** The paint calls of one [draw_side]; [pattern_mode] is the mode
    that the script compares with for a pattern fill. *)
Definition side_calls (mode pattern_mode : Z) (c : color) (g : option handle)
           (pat : string) : list paint_call :=
  if mode =? 1 then
    match g with Some g => [UseGradient g; GradientFill] | None => [] end
  else if mode =? pattern_mode then
    [UsePattern pat; UseForeground c; BucketFill BUCKET_FILL_PATTERN]
  else [UseForeground c; BucketFill BUCKET_FILL_FG].

(** The paint calls up to the second [draw_side], with [n] the first
    gradient. *)
Definition flows_calls (mode pattern_mode : Z) (n : handle) (c1 c2 : color)
           (pat1 pat2 : string) : list paint_call :=
  (if mode =? 1
   then [SetRight n c2; SetLeft n c1; SetRight (S n) c1; SetLeft (S n) c2]
   else [])
  ++ side_calls mode pattern_mode c1 (Some n) pat1
  ++ side_calls mode pattern_mode c2 (Some (S n)) pat2.

Definition rim_calls (no_rim : bool) (c : color) : list paint_call :=
  if no_rim then [] else [UseForeground c; BucketFill BUCKET_FILL_FG].

(** What the two sides are painted with: in the Gradient mode the
    first with a gradient from the first colour to the second and the
    second with a gradient from the second colour to the first; in
    the pattern mode each with its pattern; in any other mode each
    with its colour. *)
Definition side_paints (mode pattern_mode : Z) (c1 c2 : color)
           (pat1 pat2 : string) : list paint :=
  if mode =? 1 then
    [Blend (Some c1) (Some c2); Blend (Some c2) (Some c1)]
  else if mode =? pattern_mode then
    [Pattern (Some pat1); Pattern (Some pat2)]
  else [Solid (Some c1); Solid (Some c2)].

(** The rim, if there is one, is painted with its colour. *)
Definition rim_paint (no_rim : bool) (c : color) : list paint :=
  if no_rim then [] else [Solid (Some c)].
End PaintSpec.

(** ** Further inputs and states *)

Module Samples.
Import Flower FlowerSpec.

(** The globals of [sample_state] with the two lists as the module
    creates them. *)
Definition blank_state : state :=
  with_extra_ring (with_ring_center sample_state initial_ring_center)
                  initial_extra_ring.

(** The globals of [sample_state] with points in [extra_ring]. *)
Definition filled_state : state :=
  with_extra_ring sample_state (repeat (Point (202, 202)%R) 12).

(** The input [sample_flower_params] with a frame of width 10. *)
Definition framed_params : params :=
  {| symbol_radius := 100%R; mode := 1; flower_part := CIRCLES;
     color1 := (255, 0, 0); color2 := (255, 128, 0);
     color3 := (255, 255, 0); color4 := (0, 255, 0);
     color5 := (0, 255, 255); color6 := (0, 0, 255);
     color7 := (128, 0, 255);
     line_w := 1%R; frame_w := 10%R; frame_col := BLACK |}.

(** The globals as [render_flower] sets them for that input. *)
Definition framed_state : state :=
  {| ring_center := ring_center sample_state;
     extra_ring := extra_ring sample_state;
     image_center := 222; image_size := 444; image_focus := (222, 222);
     circle_diameter := 132; circle_radius := 66; frame_width := 20;
     flower_radius := 200; flower_type := CIRCLES; line_width := 2;
     ring_colors := ring_colors sample_state;
     frame_color := BLACK; color_mode := 1;
     random_raw := fun n => Z.of_nat n; random_pos := 0;
     next_handle := 0%nat |}.

(** An input of the yin-yang dialog: the Gradient mode, a rim, one
    frame. *)
Definition gradient_params : YinYang.params (F:=float) :=
  {| YinYang.symbol_diameter := 500%float; YinYang.mode := 1;
     YinYang.flow_color_1 := (0, 0, 255); YinYang.flow_color_2 := (255, 255, 255);
     YinYang.rim_color := (127, 127, 127);
     YinYang.flow_pattern_1 := "Pine"; YinYang.flow_pattern_2 := "Marble #1";
     YinYang.rim_width := 5%float; YinYang.eye_divisor := 14%float;
     YinYang.direction := 0;
     YinYang.frame_count := float_of_int 1; YinYang.frame_timer := 100%float |}.
End Samples.

(* ================================================================== *)
(** * Facts *)
(* ================================================================== *)

(** ** Rules for [runs] *)

Section Rules.
Context {S C : Type}.
Implicit Types (s : S) (out : list C).

Lemma runs_ret {A} (a : A) s (Q : A -> S -> list C -> Prop) :
  Q a s [] -> runs (ret a) s Q.
Proof. intros HQ. exists a, s, []. split; [reflexivity | exact HQ]. Qed.

Lemma runs_bind {A B} (m : M S C A) (k : A -> M S C B) s
      (Q : B -> S -> list C -> Prop) :
  runs m s (fun a s1 out1 => runs (k a) s1 (fun b s2 out2 => Q b s2 (out1 ++ out2))) ->
  runs (bind m k) s Q.
Proof.
  intros (a & s1 & out1 & Hm & b & s2 & out2 & Hk & HQ).
  exists b, s2, (out1 ++ out2). split; [| exact HQ].
  unfold bind. rewrite Hm, Hk. reflexivity.
Qed.

Lemma runs_get s (Q : S -> S -> list C -> Prop) :
  Q s s [] -> runs get s Q.
Proof. intros HQ. exists s, s, []. split; [reflexivity | exact HQ]. Qed.

Lemma runs_put s s' (Q : unit -> S -> list C -> Prop) :
  Q tt s' [] -> runs (put s') s Q.
Proof. intros HQ. exists tt, s', []. split; [reflexivity | exact HQ]. Qed.

Lemma runs_emit (c : C) s (Q : unit -> S -> list C -> Prop) :
  Q tt s [c] -> runs (emit c) s Q.
Proof. intros HQ. exists tt, s, [c]. split; [reflexivity | exact HQ]. Qed.

Lemma runs_lift {A} (o : option A) (a : A) s (Q : A -> S -> list C -> Prop) :
  o = Some a -> Q a s [] -> runs (lift o) s Q.
Proof. intros -> HQ. exists a, s, []. split; [reflexivity | exact HQ]. Qed.

Lemma runs_conseq {A} (m : M S C A) s (Q Q' : A -> S -> list C -> Prop) :
  runs m s Q -> (forall a s' out, Q a s' out -> Q' a s' out) -> runs m s Q'.
Proof.
  intros (a & s' & out & Hm & HQ) Himp.
  exists a, s', out. split; [exact Hm | apply Himp, HQ].
Qed.

(** A loop with an invariant [I] on the part of the list still to be
    visited, the locals, the state and the calls issued so far. *)
Lemma runs_for_in {A L} (body : A -> L -> M S C L)
      (I : list A -> L -> S -> list C -> Prop) :
  (forall x rest acc s out,
      I (x :: rest) acc s out ->
      runs (body x acc) s (fun acc' s' out' => I rest acc' s' (out ++ out'))) ->
  forall xs acc s,
    I xs acc s [] ->
    runs (for_in xs body acc) s (fun acc' s' out => I [] acc' s' out).
Proof.
  intros Hbody xs.
  assert (G : forall xs acc s pre,
             I xs acc s pre ->
             runs (for_in xs body acc) s
                  (fun acc' s' out => I [] acc' s' (pre ++ out))).
  { clear xs. induction xs as [| x rest IH]; intros acc s pre HI.
    - apply runs_ret. rewrite app_nil_r. exact HI.
    - cbn [for_in]. apply runs_bind.
      eapply runs_conseq; [apply (Hbody _ _ _ _ _ HI) |].
      cbv beta. intros acc' s' out' HI'.
      eapply runs_conseq; [apply (IH _ _ _ HI') |].
      cbv beta. intros acc'' s'' out'' HI''.
      rewrite app_assoc. exact HI''. }
  intros acc s HI. exact (G xs acc s [] HI).
Qed.

Lemma runs_calls {A} (m : M S C A) s (Q : A -> S -> list C -> Prop) :
  runs m s Q -> exists out, calls m s = Some out /\ exists a s', Q a s' out.
Proof.
  intros (a & s' & out & Hm & HQ). exists out. unfold calls. rewrite Hm.
  split; [reflexivity | exists a, s'; exact HQ].
Qed.
End Rules.

(** ** Sines, cosines and the value of pi *)

Section Trigonometry.
Local Open Scope R_scope.

Lemma PI_lower : 3141592 / 1000000 < PI.
Proof.
  pose proof (PI_2_3_7_ineq 3) as [Hlo _].
  unfold sum_f_R0, tg_alt, PI_2_3_7_tg, Ratan_seq in Hlo.
  simpl in Hlo. lra.
Qed.

Lemma PI_upper : PI < 3141593 / 1000000.
Proof.
  pose proof (PI_2_3_7_ineq 3) as [_ Hhi].
  unfold sum_f_R0, tg_alt, PI_2_3_7_tg, Ratan_seq in Hhi.
  simpl in Hhi. lra.
Qed.

Lemma sqrt3_bounds : 1732 / 1000 < sqrt 3 < 1733 / 1000.
Proof.
  assert (H3 : sqrt 3 * sqrt 3 = 3) by (apply sqrt_sqrt; lra).
  assert (Hp : 0 <= sqrt 3) by apply sqrt_pos.
  split; nra.
Qed.

Lemma sin_4PI3 : sin (4 * (PI / 3)) = - (sqrt 3 / 2).
Proof.
  replace (4 * (PI / 3)) with (PI / 3 + PI) by field.
  rewrite neg_sin, sin_PI3. reflexivity.
Qed.

Lemma cos_4PI3 : cos (4 * (PI / 3)) = - (1 / 2).
Proof.
  replace (4 * (PI / 3)) with (PI / 3 + PI) by field.
  rewrite neg_cos, cos_PI3. reflexivity.
Qed.

Lemma sin_5PI3 : sin (5 * (PI / 3)) = - (sqrt 3 / 2).
Proof.
  replace (5 * (PI / 3)) with (2 * (PI / 3) + PI) by field.
  rewrite neg_sin, sin_2PI3. reflexivity.
Qed.

Lemma cos_5PI3 : cos (5 * (PI / 3)) = 1 / 2.
Proof.
  replace (5 * (PI / 3)) with (2 * (PI / 3) + PI) by field.
  rewrite neg_cos, cos_2PI3. lra.
Qed.

(** A small positive angle: its sine lies below it, its cosine within
    its square of one. *)
Lemma small_angle (d : R) :
  0 < d < 1 -> 0 < sin d < d /\ 1 - d * d <= cos d <= 1.
Proof.
  intros [Hd0 Hd1].
  pose proof PI_lower as HPI.
  assert (Hs : 0 < sin d) by (apply sin_gt_0; lra).
  assert (Hs' : sin d < d) by (apply sin_lt_x; lra).
  assert (Hc : 0 < cos d) by (apply cos_gt_0; lra).
  pose proof (COS_bound d) as [_ Hc1].
  pose proof (sin2_cos2 d) as Hsc. unfold Rsqr in Hsc.
  repeat split; try lra; nra.
Qed.

End Trigonometry.

(** ** The real-number instance *)

Module RealFacts.
Local Open Scope R_scope.

Lemma Reqb_true a b : a = b -> Reqb a b = true.
Proof. intros E. unfold Reqb. destruct (Req_dec_T a b); [reflexivity | contradiction]. Qed.

Lemma Reqb_false a b : a <> b -> Reqb a b = false.
Proof. intros E. unfold Reqb. destruct (Req_dec_T a b); [contradiction | reflexivity]. Qed.

Lemma Rltb_true a b : a < b -> Rltb a b = true.
Proof. intros E. unfold Rltb. destruct (Rlt_dec a b); [reflexivity | contradiction]. Qed.

Lemma Rltb_false a b : b <= a -> Rltb a b = false.
Proof. intros E. unfold Rltb. destruct (Rlt_dec a b); [lra | reflexivity]. Qed.

Lemma Rleb_true a b : a <= b -> Rleb a b = true.
Proof. intros E. unfold Rleb. destruct (Rle_dec a b); [reflexivity | contradiction]. Qed.

Lemma Rleb_false a b : b < a -> Rleb a b = false.
Proof. intros E. unfold Rleb. destruct (Rle_dec a b); [lra | reflexivity]. Qed.

Lemma Int_part_between (x : R) (z : Z) :
  IZR z <= x < IZR z + 1 -> Int_part x = z.
Proof.
  intros [Hlo Hhi]. unfold Int_part.
  assert (E : (z + 1)%Z = up x).
  { apply up_tech; [exact Hlo |]. rewrite plus_IZR. exact Hhi. }
  rewrite <- E. lia.
Qed.

Lemma R_to_int_IZR (z : Z) : R_to_int (IZR z) = z.
Proof.
  unfold R_to_int. destruct (Rle_dec 0 (IZR z)).
  - apply Int_part_between. lra.
  - rewrite <- opp_IZR. rewrite (Int_part_between (IZR (- z)) (- z)) by lra. lia.
Qed.

Lemma R_mod1_low x : -1 <= x < 0 -> R_mod1 x = x + 1.
Proof.
  intros Hx. unfold R_mod1. rewrite (Int_part_between x (-1)) by lra. lra.
Qed.

Lemma R_mod1_unit x : 0 <= x < 1 -> R_mod1 x = x.
Proof.
  intros Hx. unfold R_mod1. rewrite (Int_part_between x 0) by lra. lra.
Qed.

Lemma R_mod1_high x : 1 <= x < 2 -> R_mod1 x = x - 1.
Proof.
  intros Hx. unfold R_mod1. rewrite (Int_part_between x 1) by lra. lra.
Qed.
End RealFacts.

(** ** [colorsys] over the reals *)

Module HLSFacts.
Import RealFacts HLS.
Local Open Scope R_scope.

Ltac real_ops :=
  cbn [fltb feqb fleb fadd fsub fdiv fmul fopp of_int fmod1 to_int R_PyFloat] in *.

Lemma v_tri m1 m2 u : colorsys._v m1 m2 u = m1 + (m2 - m1) * tri u.
Proof.
  unfold colorsys._v, tri, colorsys.ONE_SIXTH, colorsys.TWO_THIRD, colorsys.half.
  real_ops. unfold Rltb.
  destruct (Rlt_dec (R_mod1 u) (1 / 6)); [ring |].
  destruct (Rlt_dec (R_mod1 u) (1 / 2)); [ring |].
  destruct (Rlt_dec (R_mod1 u) (2 / 3)); ring.
Qed.

(** Evaluating [tri] at an argument whose range is known. *)
Lemma tri_cases u :
  -1 <= u < 2 ->
  (u < 0 /\ R_mod1 u = u + 1) \/ (0 <= u < 1 /\ R_mod1 u = u)
  \/ (1 <= u /\ R_mod1 u = u - 1).
Proof.
  intros Hu.
  destruct (Rlt_dec u 0); [left; split; [lra | apply R_mod1_low; lra] |].
  destruct (Rlt_dec u 1); [right; left; split; [lra | apply R_mod1_unit; lra] |].
  right; right; split; [lra | apply R_mod1_high; lra].
Qed.

Ltac tri_eval :=
  unfold tri;
  match goal with
  | |- context [R_mod1 ?u] =>
      let H := fresh in
      let E := fresh in
      destruct (tri_cases u) as [[H E] | [[H E] | [H E]]];
      [ nra | rewrite E .. ]
  end;
  cbv zeta;
  repeat match goal with
         | |- context [Rlt_dec ?a ?b] => destruct (Rlt_dec a b)
         end;
  try nra.

Lemma max3_spec r g b :
  let M := colorsys.max3 r g b in
  r <= M /\ g <= M /\ b <= M /\ (M = r \/ M = g \/ M = b).
Proof.
  unfold colorsys.max3. real_ops. unfold Rltb.
  destruct (Rlt_dec r g); destruct (Rlt_dec _ b); cbv zeta; lra.
Qed.

Lemma min3_spec r g b :
  let m := colorsys.min3 r g b in
  m <= r /\ m <= g /\ m <= b /\ (m = r \/ m = g \/ m = b).
Proof.
  unfold colorsys.min3. real_ops. unfold Rltb.
  destruct (Rlt_dec g r); destruct (Rlt_dec b _); cbv zeta; lra.
Qed.

(** The hue ramp recovers the rescaled components, and does so too
    after the hue is mirrored with green and blue exchanged. *)
Lemma tri_roundtrip x y z :
  unit_range x -> unit_range y -> unit_range z ->
  x = 1 \/ y = 1 \/ z = 1 ->
  x = 0 \/ y = 0 \/ z = 0 ->
  let h := R_mod1 (hue6 x y z / 6) in
  0 <= h < 1
  /\ tri (h + 1 / 3) = x /\ tri h = y /\ tri (h - 1 / 3) = z
  /\ tri (1 - h + 1 / 3) = x /\ tri (1 - h) = z /\ tri (1 - h - 1 / 3) = y.
Proof.
  unfold unit_range, hue6. intros Hx Hy Hz Hone Hzero.
  destruct (Req_dec_T x 1) as [Ex | Nx];
    [| destruct (Req_dec_T y 1) as [Ey | Ny]].
  all: match goal with
       | |- context [R_mod1 ?u] =>
           destruct (tri_cases u) as [[Hu Eu] | [[Hu Eu] | [Hu Eu]]];
           [ lra | rewrite Eu .. ]; cbv zeta
       end.
  all: try (exfalso; lra).
  all: split; [lra |].
  all: repeat split; tri_eval.
Qed.

Lemma rgb_to_hls_grey x :
  colorsys.rgb_to_hls x x x = Some (0, (x + x) / 2, 0).
Proof.
  unfold colorsys.rgb_to_hls, colorsys.max3, colorsys.min3. real_ops.
  rewrite (Rltb_false x x) by lra. cbv zeta.
  rewrite (Rltb_false x x) by lra.
  rewrite (Reqb_true x x) by reflexivity. reflexivity.
Qed.

Lemma rgb_to_hls_colour r g b :
  unit_range r -> unit_range g -> unit_range b ->
  let M := colorsys.max3 r g b in
  let m := colorsys.min3 r g b in
  m <> M ->
  colorsys.rgb_to_hls r g b
  = Some (R_mod1 (hue6 ((r - m) / (M - m)) ((g - m) / (M - m)) ((b - m) / (M - m)) / 6),
          (m + M) / 2, saturation m M).
Proof.
  intros Hr Hg Hb M m Hne. unfold unit_range in Hr, Hg, Hb.
  pose proof (max3_spec r g b) as HM. pose proof (min3_spec r g b) as Hmin.
  cbv zeta in HM, Hmin. fold M in HM. fold m in Hmin.
  assert (Hd : 0 < M - m) by lra.
  unfold colorsys.rgb_to_hls. fold M m.
  unfold colorsys.div, colorsys.half. real_ops. cbv zeta.
  rewrite (Reqb_false m M) by exact Hne.
  rewrite (Reqb_false (M + m) 0) by lra.
  rewrite (Reqb_false (2 - M - m) 0) by lra.
  rewrite (Reqb_false (M - m) 0) by lra.
  assert (Es : (if Rleb ((m + M) / 2) (1 / 2)
                then Some ((M - m) / (M + m))
                else Some ((M - m) / (2 - M - m)))
               = Some (saturation m M)).
  { unfold saturation, Rleb. destruct (Rle_dec ((m + M) / 2) (1 / 2)); reflexivity. }
  rewrite Es. do 2 f_equal. f_equal. f_equal.
  unfold hue6, Reqb.
  destruct (Req_dec_T r M) as [Er | Nr];
    destruct (Req_dec_T ((r - m) / (M - m)) 1) as [Er' | Nr'].
  - field. lra.
  - exfalso. apply Nr'. rewrite Er. field. lra.
  - exfalso. apply Nr.
    assert (E : r - m = ((r - m) / (M - m)) * (M - m)) by (field; lra).
    rewrite Er' in E. lra.
  - destruct (Req_dec_T g M) as [Eg | Ng];
      destruct (Req_dec_T ((g - m) / (M - m)) 1) as [Eg' | Ng'].
    + field. lra.
    + exfalso. apply Ng'. rewrite Eg. field. lra.
    + exfalso. apply Ng.
      assert (E : g - m = ((g - m) / (M - m)) * (M - m)) by (field; lra).
      rewrite Eg' in E. lra.
    + field. lra.
Qed.


Lemma M2_inverted m M :
  0 <= m -> m < M -> M <= 1 ->
  M2 (1 - (m + M) / 2) (saturation m M) = 1 - m.
Proof.
  intros H0 H1 H2. unfold M2, saturation.
  destruct (Rle_dec ((m + M) / 2) (1 / 2));
    destruct (Rle_dec (1 - (m + M) / 2) (1 / 2)).
  - assert (E : M = 1 - m) by lra. subst M. field. lra.
  - field. lra.
  - field. lra.
  - exfalso. lra.
Qed.

Lemma saturation_pos m M :
  0 <= m -> m < M -> M <= 1 -> 0 < saturation m M.
Proof.
  intros H0 H1 H2. unfold saturation.
  destruct (Rle_dec ((m + M) / 2) (1 / 2)); apply Rdiv_lt_0_compat; lra.
Qed.

Lemma hls_to_rgb_colour h l s :
  s <> 0 ->
  colorsys.hls_to_rgb h l s
  = (let m2 := M2 l s in
     let m1 := 2 * l - m2 in
     (m1 + (m2 - m1) * tri (h + 1 / 3),
      m1 + (m2 - m1) * tri h,
      m1 + (m2 - m1) * tri (h - 1 / 3))).
Proof.
  intros Hs. unfold colorsys.hls_to_rgb.
  rewrite !v_tri. unfold colorsys.half, colorsys.ONE_THIRD. real_ops.
  rewrite (Reqb_false s 0) by exact Hs.
  unfold M2, Rleb. destruct (Rle_dec l (1 / 2)); reflexivity.
Qed.
End HLSFacts.

(** ** The polar derivations over the reals *)

Module PolarFacts.
Import FlowColor ColorSpec PolarSpec RealFacts HLS HLSFacts.
Local Open Scope R_scope.

Lemma ratio_unit a d : 0 < d -> 0 <= a <= d -> unit_range (a / d).
Proof.
  intros Hd Ha. unfold unit_range.
  assert (E : a / d * d = a) by (field; lra).
  split; [apply Rmult_le_reg_r with d | apply Rmult_le_reg_r with d]; try exact Hd; lra.
Qed.

Lemma ratio_one a d : 0 < d -> a = d -> a / d = 1.
Proof. intros Hd ->. field. lra. Qed.

Lemma ratio_zero a d : 0 < d -> a = 0 -> a / d = 0.
Proof. intros Hd ->. field. lra. Qed.

Section Colour.
Variables r g b : R.
Hypothesis Hr : unit_range r.
Hypothesis Hg : unit_range g.
Hypothesis Hb : unit_range b.

Let M := colorsys.max3 r g b.
Let m := colorsys.min3 r g b.

Lemma rgb_to_hls_total : exists hls, colorsys.rgb_to_hls r g b = Some hls.
Proof.
  destruct (Req_dec_T m M) as [E | N].
  - unfold colorsys.rgb_to_hls. fold M m. real_ops. cbv zeta.
    rewrite (Reqb_true m M E). eexists. reflexivity.
  - eexists. apply rgb_to_hls_colour; assumption.
Qed.

Lemma grey_components : m = M -> g = r /\ b = r.
Proof.
  intros E.
  pose proof (max3_spec r g b) as HM. pose proof (min3_spec r g b) as Hm.
  cbv zeta in HM, Hm. fold M in HM. fold m in Hm. lra.
Qed.

Lemma colour_ramp :
  m <> M ->
  let d := M - m in
  let h := R_mod1 (hue6 ((r - m) / d) ((g - m) / d) ((b - m) / d) / 6) in
  0 < d /\ 0 <= m /\ M <= 1
  /\ d * tri (h + 1 / 3) = r - m /\ d * tri h = g - m /\ d * tri (h - 1 / 3) = b - m
  /\ d * tri (1 - h + 1 / 3) = r - m /\ d * tri (1 - h) = b - m
  /\ d * tri (1 - h - 1 / 3) = g - m.
Proof.
  intros N d h.
  pose proof (max3_spec r g b) as HM. pose proof (min3_spec r g b) as Hm.
  cbv zeta in HM, Hm. fold M in HM. fold m in Hm.
  unfold unit_range in Hr, Hg, Hb.
  assert (Hd : 0 < d) by (unfold d; lra).
  destruct (tri_roundtrip ((r - m) / d) ((g - m) / d) ((b - m) / d))
    as (_ & E1 & E2 & E3 & E4 & E5 & E6).
  - apply ratio_unit; [exact Hd | unfold d; lra].
  - apply ratio_unit; [exact Hd | unfold d; lra].
  - apply ratio_unit; [exact Hd | unfold d; lra].
  - destruct HM as (_ & _ & _ & [E | [E | E]]);
      [left | right; left | right; right]; apply ratio_one; try exact Hd; unfold d; lra.
  - destruct Hm as (_ & _ & _ & [E | [E | E]]);
      [left | right; left | right; right]; apply ratio_zero; try exact Hd; lra.
  - fold h in E1, E2, E3, E4, E5, E6.
    rewrite E1, E2, E3, E4, E5, E6.
    repeat split; try lra; field; lra.
Qed.


(** Mirroring the lightness moves the three components by the
    same amount. *)
Lemma lightness_mirror :
  exists h l s, colorsys.rgb_to_hls r g b = Some (h, l, s)
                /\ colorsys.hls_to_rgb h (1 - l) s
                   = (r + (1 - M - m), g + (1 - M - m), b + (1 - M - m)).
Proof.
  destruct (Req_dec_T m M) as [E | N].
  - destruct (grey_components E) as [-> ->].
    do 3 eexists. split; [apply rgb_to_hls_grey |].
    unfold colorsys.hls_to_rgb. real_ops.
    rewrite (Reqb_true 0 0) by reflexivity.
    pose proof (max3_spec r r r) as HM. pose proof (min3_spec r r r) as Hm.
    cbv zeta in HM, Hm. fold M in HM. fold m in Hm.
    (f_equal; [f_equal |]); lra.
  - destruct (colour_ramp N) as (Hd & H0 & H1 & E1 & E2 & E3 & _).
    do 3 eexists. split; [apply rgb_to_hls_colour; assumption |].
    fold M m.
    rewrite hls_to_rgb_colour
      by (apply Rgt_not_eq; apply saturation_pos; lra).
    cbv zeta. rewrite M2_inverted by lra.
    replace (2 * (1 - (m + M) / 2) - (1 - m)) with (1 - M) by lra.
    replace (1 - m - (1 - M)) with (M - m) by lra.
    (f_equal; [f_equal |]); lra.
Qed.
End Colour.

Lemma unit_component z : (0 <= z <= 255)%Z -> unit_range (IZR z / 255).
Proof.
  intros [H0 H1]. apply IZR_le in H0, H1. unfold unit_range. lra.
Qed.

Lemma max3_components r g b :
  colorsys.max3 (IZR r / 255) (IZR g / 255) (IZR b / 255)
  = IZR (brightest (r, g, b)) / 255.
Proof.
  pose proof (max3_spec (IZR r / 255) (IZR g / 255) (IZR b / 255)) as H.
  cbv zeta in H. destruct H as (H1 & H2 & H3 & E).
  assert (Hz : forall x y, IZR x / 255 <= IZR y / 255 -> (x <= y)%Z)
    by (intros x y Hxy; apply le_IZR; lra).
  unfold brightest.
  destruct E as [E | [E | E]]; rewrite E in *;
    apply Hz in H1, H2, H3; do 2 f_equal; lia.
Qed.

Lemma min3_components r g b :
  colorsys.min3 (IZR r / 255) (IZR g / 255) (IZR b / 255)
  = IZR (darkest (r, g, b)) / 255.
Proof.
  pose proof (min3_spec (IZR r / 255) (IZR g / 255) (IZR b / 255)) as H.
  cbv zeta in H. destruct H as (H1 & H2 & H3 & E).
  assert (Hz : forall x y, IZR x / 255 <= IZR y / 255 -> (x <= y)%Z)
    by (intros x y Hxy; apply le_IZR; lra).
  unfold darkest.
  destruct E as [E | [E | E]]; rewrite E in *;
    apply Hz in H1, H2, H3; do 2 f_equal; lia.
Qed.

Lemma to_int_component z x : x = IZR z / 255 -> R_to_int (x * 255) = z.
Proof.
  intros ->. replace (IZR z / 255 * 255) with (IZR z) by field.
  apply R_to_int_IZR.
Qed.

Lemma invert_channel_total ch c :
  in_gamut c -> invert_channel (F := R) ch c <> None.
Proof.
  destruct c as [[r g] b]. intros (Hr & Hg & Hb).
  unfold invert_channel. real_ops.
  destruct (rgb_to_hls_total _ _ _ (unit_component _ Hr) (unit_component _ Hg) (unit_component _ Hb))
    as ([[h l] s] & E).
  rewrite E. destruct ch;
    match goal with
    | |- context [colorsys.hls_to_rgb ?a ?b ?c] =>
        destruct (colorsys.hls_to_rgb a b c) as [[x y] z]
    end; discriminate.
Qed.


Lemma invert_lightness c :
  in_gamut c ->
  invert_channel (F := R) Lightness c
  = Some (shift (255 - brightest c - darkest c) c).
Proof.
  destruct c as [[r g] b]. intros (Hr & Hg & Hb).
  unfold invert_channel. real_ops.
  destruct (lightness_mirror _ _ _ (unit_component _ Hr) (unit_component _ Hg) (unit_component _ Hb))
    as (h & l & s & E1 & E2).
  rewrite E1, E2. rewrite max3_components, min3_components.
  set (M := brightest (r, g, b)). set (m := darkest (r, g, b)).
  cbn [shift].
  rewrite (to_int_component (r + (255 - M - m)) _),
          (to_int_component (g + (255 - M - m)) _),
          (to_int_component (b + (255 - M - m)) _).
  - reflexivity.
  - rewrite !plus_IZR, !minus_IZR. field.
  - rewrite !plus_IZR, !minus_IZR. field.
  - rewrite !plus_IZR, !minus_IZR. field.
Qed.




End PolarFacts.

(** ** Undo groups *)

Module UndoFacts.
Import Undo.

Lemma quiet_app {F} (a b : list (call F)) : quiet a -> quiet b -> quiet (a ++ b).
Proof. unfold quiet. intros Ha Hb. rewrite forallb_app, Ha, Hb. reflexivity. Qed.
End UndoFacts.

(** ** The yin-yang *)

Module YinYangFacts.
Import Undo UndoFacts YinYang YinYangSpec.

Ltac st_simpl :=
  cbn [yy_rim_width yy_symbol_size yy_symbol_dimension yy_mode yy_image_size
       yy_center yy_flow_size yy_head_diameter yy_head_radius yy_eye_radius
       yy_eye_diameter yy_flow_offset yy_base next_handle
       with_next_handle with_base with_image_size initialize fst snd] in *.

Ltac wp_step :=
  lazymatch goal with
  | |- runs (bind _ _) _ _ => apply runs_bind
  | |- runs (ret _) _ _ => apply runs_ret
  | |- runs get _ _ => apply runs_get
  | |- runs (put _) _ _ => apply runs_put
  | |- runs (emit _) _ _ => apply runs_emit
  | |- runs (lift _) _ _ => eapply runs_lift; [reflexivity |]
  | |- runs (pick _ _ _) _ _ => eapply runs_lift; [reflexivity |]
  | |- runs fresh _ _ => eexists _, _, _; split; [reflexivity |]
  | |- runs (set_base _) _ _ => eexists _, _, _; split; [reflexivity |]
  | |- runs (set_image_size _) _ _ => eexists _, _, _; split; [reflexivity |]
  | |- runs (if ?b then _ else _) _ _ => destruct b eqn:?
  | |- runs (let '(_, _) := (_, _) in _) _ _ => cbv beta iota
  | |- runs (match ?o with Some _ => _ | None => _ end) _ _ => destruct o eqn:?
  | |- runs (for_each (_ :: _) _) _ _ => unfold for_each; cbn [for_in]
  | |- runs (for_in (_ :: _) _ _) _ _ => cbn [for_in]
  | |- runs (for_in [] _ _) _ _ => cbn [for_in]
  end; cbv beta; st_simpl.

Ltac wp := repeat wp_step.

Ltac quiet_solve :=
  lazymatch goal with
  | |- quiet (_ ++ _) => apply quiet_app; [quiet_solve | quiet_solve]
  | |- quiet [] => reflexivity
  | |- quiet [_] => reflexivity
  | |- quiet _ => assumption
  end.

Ltac post :=
  repeat match goal with
         | H : _ /\ _ |- _ => destruct H
         | H : exists _, _ |- _ => destruct H
         end;
  subst; st_simpl.

Ltac call H :=
  eapply runs_conseq;
  [ apply H; st_simpl; try reflexivity; try assumption
  | cbv beta zeta; intros ? ? ? ?; post ].

Section WithFloat.
Context {F : Type} `{PyFloat F}.
Implicit Types (s : yy (F:=F)) (p : params (F:=F)).

Lemma new_gradient_spec l r i s :
  runs (new_gradient l r i) s
       (fun g s' out => s' = with_next_handle s (S (next_handle s)) /\ quiet out).
Proof. unfold new_gradient. wp. split; [reflexivity | quiet_solve]. Qed.

Lemma draw_side_spec c g pat i s :
  i = 0 \/ i = 1 ->
  (yy_mode s = 1 -> g <> None) ->
  runs (draw_side c g pat i) s (fun _ s' out => s' = s /\ quiet out).
Proof.
  intros Hi Hg. unfold draw_side, draw_flow_selection, fill.
  destruct Hi as [-> | ->]; destruct g as [g |].
  all: wp.
  all: try (split; [reflexivity | quiet_solve]).
  all: exfalso; apply Hg; [apply Z.eqb_eq; assumption | reflexivity].
Qed.

Lemma draw_flows_spec p c2 s :
  yy_mode s = mode p ->
  runs (draw_flows p c2) s
       (fun _ s' out => (exists n, s' = with_next_handle s n) /\ quiet out).
Proof.
  intros Hm. unfold draw_flows. wp.
  - call new_gradient_spec. wp. call new_gradient_spec. wp.
    call draw_side_spec; [left; reflexivity | discriminate |].
    wp. call draw_side_spec; [right; reflexivity | discriminate |].
    wp. split; [eexists; reflexivity | quiet_solve].
  - assert (Hn : yy_mode s <> 1).
    { rewrite Hm. apply Z.eqb_neq. assumption. }
    call draw_side_spec; [left; reflexivity | intros E; destruct (Hn E) |].
    wp. call draw_side_spec; [right; reflexivity | intros E; destruct (Hn E) |].
    wp. split; [| quiet_solve].
    exists (next_handle s). destruct s; reflexivity.
Qed.

Lemma rim_stage_spec p s :
  runs (rim_stage p) s (fun _ s' out => s' = s /\ quiet out).
Proof.
  unfold rim_stage, draw_rim, draw_flow_selection, fill. wp.
  all: split; [reflexivity | quiet_solve].
Qed.

Lemma frame_spec rotation timer angle s :
  runs (frame rotation timer angle) s (fun _ _ out => quiet out).
Proof. unfold frame. wp. quiet_solve. Qed.

Lemma process_frame_count_spec p timer s :
  animation_ready p ->
  runs (process_frame_count p timer) s (fun _ _ out => quiet out).
Proof.
  intros [Hd Hf]. unfold process_frame_count, colorsys.div.
  destruct (fltb (of_int 1) (frame_count p)) eqn:E; [| wp; quiet_solve].
  rewrite (Hf eq_refl). cbn [lift]. apply runs_bind, runs_ret. cbv beta.
  assert (Hs : exists sign, getitem [1; -1] (direction p) = Some sign).
  { destruct Hd as [-> | ->]; eexists; reflexivity. }
  destruct Hs as [sign Hs].
  apply runs_bind. unfold pick. eapply runs_lift; [exact Hs |]. cbv beta.
  apply runs_bind.
  eapply runs_conseq.
  - apply (runs_for_in
             (fun _ angle => frame (fmul (fdiv (of_int 360) (frame_count p))
                                         (of_int sign)) timer angle)
             (fun _ _ _ out => quiet out)).
    + intros x rest acc s0 out Hq.
      eapply runs_conseq; [apply frame_spec |].
      cbv beta. intros. apply quiet_app; assumption.
    + reflexivity.
  - cbv beta. intros. wp. quiet_solve.
Qed.

Lemma finish_spec p timer gs s :
  animation_ready p ->
  runs (finish p timer gs) s (fun _ _ out => quiet out).
Proof.
  intros Hr. unfold finish. wp.
  all: call process_frame_count_spec; wp; quiet_solve.
Qed.

Lemma yy_draw_symbol_spec p c2 timer s :
  yy_mode s = mode p -> animation_ready p ->
  runs (draw_symbol p c2 timer) s (fun _ _ out => quiet out).
Proof.
  intros Hm Hr. unfold draw_symbol. wp.
  call draw_flows_spec. wp. call rim_stage_spec. wp.
  eapply runs_conseq; [apply finish_spec; assumption |].
  cbv beta. intros. quiet_solve.
Qed.

Lemma render_yin_yang_one_undo_group p s :
  render_ready p ->
  exists out, calls (render_yin_yang p) s = Some out /\ one_undo_group out.
Proof.
  intros (He & Hc & Hr).
  assert (R : runs (render_yin_yang p) s (fun _ _ out => one_undo_group out)).
  { unfold render_yin_yang, colorsys.div. rewrite He.
    destruct (FlowColor.set_colors_105 (mode p) (flow_color_1 p) (flow_color_2 p))
      as [c2 |] eqn:Ec; [| destruct (Hc eq_refl)].
    wp.
    all: eapply runs_conseq;
      [ apply yy_draw_symbol_spec; [reflexivity | assumption] |].
    all: cbv beta; intros _ s' out Hq; wp.
    all: eexists [_; _; _; _; _; _; _], out, [gimp_context_pop].
    all: split; [reflexivity | split; [reflexivity | split; [exact Hq | reflexivity]]]. }
  destruct (runs_calls _ _ _ R) as (out & Hcalls & _ & _ & Hg).
  exists out. split; assumption.
Qed.
End WithFloat.
End YinYangFacts.

(** ** The animation *)

Module AnimationFacts.
Import Animation Undo UndoFacts YinYangSpec.

Lemma rotations_app {F} (a b : list (call F)) :
  rotations (a ++ b) = rotations a ++ rotations b.
Proof.
  induction a as [| c a IH]; [reflexivity |].
  destruct c; cbn [rotations app]; rewrite IH; reflexivity.
Qed.

Lemma length_range n : List.length (range n) = Z.to_nat n.
Proof. unfold range. rewrite length_map, length_seq. reflexivity. Qed.

Section WithFloat.
Context {F : Type} `{PyFloat F}.

Lemma length_angles_from n (rotation angle : F) :
  List.length (angles_from n rotation angle) = n.
Proof.
  revert angle. induction n as [| n IH]; intros angle; cbn [angles_from List.length].
  - reflexivity.
  - rewrite IH. reflexivity.
Qed.

(** Either direction gives as many angles as the other. *)
Lemma animation_angles_length (frame_count : F) (direction : Z) :
  direction = 0 \/ direction = 1 ->
  List.length (animation_angles frame_count direction)
  = List.length (animation_angles frame_count 0).
Proof.
  intros Hd. unfold animation_angles.
  destruct (fltb (of_int 1) frame_count); [| reflexivity].
  change (getitem [1; -1] 0) with (Some 1).
  destruct Hd as [-> | ->]; [reflexivity |].
  change (getitem [1; -1] 1) with (Some (-1)).
  cbv zeta. rewrite !length_angles_from. reflexivity.
Qed.

Lemma frame_105_rotation rotation timer angle (s : YinYang.yy (F:=F)) :
  runs (YinYang.frame rotation timer angle) s
       (fun angle' _ out =>
          angle' = fadd (YinYang.keep_in_bounds angle) rotation
          /\ rotations out = [YinYang.keep_in_bounds angle]).
Proof. unfold YinYang.frame. YinYangFacts.wp. split; reflexivity. Qed.

Lemma frame_102_rotation rotation timer angle (s : YinYang102.YY (F:=F)) :
  runs (YinYang102.frame rotation timer angle) s
       (fun angle' _ out =>
          angle' = fadd (YinYang.keep_in_bounds angle) rotation
          /\ rotations out = [YinYang.keep_in_bounds angle]).
Proof.
  unfold YinYang102.frame.
  repeat first [ apply runs_bind | apply runs_get | apply runs_emit
               | apply runs_ret
               | (eexists _, _, _; split; [reflexivity |]) ]; cbv beta.
  split; reflexivity.
Qed.

(** A loop whose body applies one rotation per pass applies
    [angles_from]. *)
Lemma frames_rotations {S} (body : F -> M S (call F) F) rotation :
  (forall angle s,
      runs (body angle) s
           (fun angle' _ out =>
              angle' = fadd (YinYang.keep_in_bounds angle) rotation
              /\ rotations out = [YinYang.keep_in_bounds angle])) ->
  forall (xs : list Z) angle s,
    runs (for_in xs (fun _ a => body a) angle) s
         (fun _ _ out =>
            rotations out = angles_from (List.length xs) rotation angle).
Proof.
  intros Hbody. induction xs as [| x xs IH]; intros angle s.
  - apply runs_ret. reflexivity.
  - cbn [for_in]. apply runs_bind.
    eapply runs_conseq; [apply Hbody |].
    cbv beta. intros angle' s' out [-> Hout].
    eapply runs_conseq; [apply IH |].
    cbv beta. intros _ _ out' Hout'.
    rewrite rotations_app, Hout, Hout'. reflexivity.
Qed.

Lemma process_frame_count_105_angles p timer (s : YinYang.yy (F:=F)) :
  animation_ready p ->
  runs (YinYang.process_frame_count p timer) s
       (fun _ _ out =>
          rotations out
          = animation_angles (YinYang.frame_count p) (YinYang.direction p)).
Proof.
  intros [Hd Hf]. unfold YinYang.process_frame_count, animation_angles, colorsys.div.
  destruct (fltb (of_int 1) (YinYang.frame_count p)) eqn:E;
    [| apply runs_ret; reflexivity].
  rewrite (Hf eq_refl). cbn [lift]. apply runs_bind, runs_ret. cbv beta.
  assert (Hs : exists sign, getitem [1; -1] (YinYang.direction p) = Some sign).
  { destruct Hd as [-> | ->]; eexists; reflexivity. }
  destruct Hs as [sign Hs]. rewrite Hs.
  apply runs_bind. unfold YinYang.pick. eapply runs_lift; [exact Hs |]. cbv beta.
  apply runs_bind.
  eapply runs_conseq;
    [ apply (frames_rotations (fun a => YinYang.frame _ timer a));
      intros; apply frame_105_rotation |].
  cbv beta. intros _ s' out Hout. apply runs_ret.
  cbn [app]. rewrite app_nil_r, Hout, length_range. reflexivity.
Qed.

Lemma process_frame_count_102_angles p timer (s : YinYang102.YY (F:=F)) :
  animation_ready p ->
  runs (YinYang102.process_frame_count p timer) s
       (fun _ _ out =>
          rotations out
          = animation_angles (YinYang.frame_count p) (YinYang.direction p)).
Proof.
  intros [Hd Hf]. unfold YinYang102.process_frame_count, animation_angles, colorsys.div.
  destruct (fltb (of_int 1) (YinYang.frame_count p)) eqn:E;
    [| apply runs_ret; reflexivity].
  rewrite (Hf eq_refl). cbn [lift]. apply runs_bind, runs_ret. cbv beta.
  assert (Hs : exists sign, getitem [1; -1] (YinYang.direction p) = Some sign).
  { destruct Hd as [-> | ->]; eexists; reflexivity. }
  destruct Hs as [sign Hs]. rewrite Hs.
  apply runs_bind. unfold YinYang102.pick. eapply runs_lift; [exact Hs |]. cbv beta.
  apply runs_bind.
  eapply runs_conseq;
    [ apply (frames_rotations (fun a => YinYang102.frame _ timer a));
      intros; apply frame_102_rotation |].
  cbv beta. intros _ s' out Hout. apply runs_ret.
  cbn [app]. rewrite app_nil_r, Hout, length_range. reflexivity.
Qed.
End WithFloat.

(** *** Real numbers *)

Section Reals.
Local Open Scope R_scope.

Lemma keep_in_bounds_R (a : R) :
  -360 <= a <= 360 -> in_bounds_R (YinYang.keep_in_bounds a).
Proof.
  intros Ha. unfold YinYang.keep_in_bounds, in_bounds_R.
  cbn [fltb fadd of_int R_PyFloat]. unfold Rltb.
  destruct (Rlt_dec 180 a); [lra |].
  destruct (Rlt_dec a (-180)); lra.
Qed.

Lemma angles_from_R n (rotation angle : R) :
  -180 <= rotation <= 180 -> -360 <= angle <= 360 ->
  Forall in_bounds_R (angles_from n rotation angle).
Proof.
  intros Hr. revert angle.
  induction n as [| n IH]; intros angle Ha; cbn [angles_from].
  - constructor.
  - pose proof (keep_in_bounds_R angle Ha) as Hk.
    constructor; [exact Hk |].
    apply IH. unfold in_bounds_R in Hk. cbn [fadd R_PyFloat]. lra.
Qed.

Lemma animation_angles_R (frame_count : R) (direction : Z) :
  2 <= frame_count <= 60 -> (direction = 0 \/ direction = 1)%Z ->
  Forall in_bounds_R (animation_angles frame_count direction).
Proof.
  intros Hf Hd. unfold animation_angles.
  destruct (fltb (of_int 1) frame_count); [| constructor].
  assert (Hq : 0 < 360 / frame_count <= 180).
  { split.
    - apply Rdiv_lt_0_compat; lra.
    - apply Rmult_le_reg_r with frame_count; [lra |].
      unfold Rdiv. rewrite Rmult_assoc, Rinv_l by lra. lra. }
  destruct Hd as [-> | ->]; cbn [getitem List.length Z.of_nat Z.leb Z.ltb
                                  Z.compare andb nth_error Z.to_nat Pos.to_nat];
    cbn [of_int fmul fdiv R_PyFloat];
    apply angles_from_R; lra.
Qed.

Lemma animation_angles_R_length (n : Z) (direction : Z) :
  (2 <= n)%Z -> (direction = 0 \/ direction = 1)%Z ->
  List.length (animation_angles (IZR n) direction) = Z.to_nat (n - 1).
Proof.
  intros Hn Hd. rewrite (animation_angles_length _ _ Hd). unfold animation_angles.
  cbn [fltb of_int to_int R_PyFloat].
  rewrite RealFacts.Rltb_true by (apply IZR_lt; lia).
  change (getitem [1; -1] 0)%Z with (Some 1%Z). cbv beta iota zeta.
  rewrite length_angles_from, RealFacts.R_to_int_IZR. reflexivity.
Qed.
End Reals.

(** *** Binary64 *)

Lemma float_frames_all : forallb float_frames_ok frame_counts = true.
Proof. vm_compute. reflexivity. Qed.

Lemma in_frame_counts n : 2 <= n <= 60 -> In n frame_counts.
Proof.
  intros Hn. unfold frame_counts.
  replace n with (Z.of_nat (Z.to_nat n)) by lia.
  apply in_map, in_seq. lia.
Qed.

Lemma float_frames n : 2 <= n <= 60 -> float_frames_ok n = true.
Proof.
  intros Hn. pose proof float_frames_all as H.
  rewrite forallb_forall in H. apply H, in_frame_counts, Hn.
Qed.

Lemma animation_angles_float n direction :
  2 <= n <= 60 -> direction = 0 \/ direction = 1 ->
  PrimFloat.eqb (float_of_int n) (float_of_int 0) = false
  /\ List.length (animation_angles (float_of_int n) direction) = Z.to_nat (n - 1)
  /\ forallb in_bounds_float (animation_angles (float_of_int n) direction) = true.
Proof.
  intros Hn Hd. pose proof (float_frames n Hn) as H. unfold float_frames_ok in H.
  apply andb_prop in H. destruct H as [H Hlen].
  apply andb_prop in H. destruct H as [H H1].
  apply andb_prop in H. destruct H as [Hz H0].
  apply negb_true_iff in Hz. apply Nat.eqb_eq in Hlen.
  split; [exact Hz | split].
  - rewrite (animation_angles_length _ _ Hd). exact Hlen.
  - destruct Hd as [-> | ->]; assumption.
Qed.
End AnimationFacts.

(** ** The flower *)

Module FlowerFacts.
Import Undo Flower ColorSpec FlowerSpec.

Lemma tr_nil : tr [] [].
Proof. split; reflexivity. Qed.

Lemma tr_app w1 w2 o1 o2 : tr w1 o1 -> tr w2 o2 -> tr (w1 ++ w2) (o1 ++ o2).
Proof.
  intros [H1 V1] [H2 V2]. split.
  - rewrite forallb_app, H1, H2. reflexivity.
  - unfold view in *. rewrite flat_map_app, V1, V2. reflexivity.
Qed.

Lemma tr_one e : ok e = true -> tr (view_event e) [e].
Proof.
  intros H. split; cbn [forallb view flat_map].
  - rewrite H. reflexivity.
  - apply app_nil_r.
Qed.

Lemma tr_eq w w' out : tr w' out -> w' = w -> tr w out.
Proof. intros H <-. exact H. Qed.

Lemma range_2 : range 2 = [0; 1]. Proof. reflexivity. Qed.
Lemma range_3 : range 3 = [0; 1; 2]. Proof. reflexivity. Qed.
Lemma range_6 : range 6 = [0; 1; 2; 3; 4; 5]. Proof. reflexivity. Qed.
Lemma range_7 : range 7 = [0; 1; 2; 3; 4; 5; 6]. Proof. reflexivity. Qed.
Lemma range_12 : range 12 = [0; 1; 2; 3; 4; 5; 6; 7; 8; 9; 10; 11].
Proof. reflexivity. Qed.

(** Projections of an updated state. *)
Ltac st_simpl :=
  cbn [ring_center extra_ring image_center image_size image_focus
       circle_diameter circle_radius frame_width flower_radius flower_type
       line_width ring_colors frame_color color_mode random_raw random_pos
       next_handle with_next_handle with_ring_center with_extra_ring
       with_ring_colors with_frame_color with_random_pos evolved focus
       fst snd] in *.

(** One step of symbolic execution. *)
Ltac wp_step :=
  lazymatch goal with
  | |- runs (bind _ _) _ _ => apply runs_bind
  | |- runs (ret _) _ _ => apply runs_ret
  | |- runs get _ _ => apply runs_get
  | |- runs (put _) _ _ => apply runs_put
  | |- runs (emit _) _ _ => apply runs_emit
  | |- runs (pdb _) _ _ => apply runs_emit
  | |- runs (lift _) _ _ => eapply runs_lift; [reflexivity |]
  | |- runs fresh _ _ => eexists _, _, _; split; [reflexivity |]
  | |- runs (set_ring_center _) _ _ => eexists _, _, _; split; [reflexivity |]
  | |- runs (set_extra_ring _) _ _ => eexists _, _, _; split; [reflexivity |]
  | |- runs (set_ring_colors _) _ _ => eexists _, _, _; split; [reflexivity |]
  | |- runs (set_frame_color _) _ _ => eexists _, _, _; split; [reflexivity |]
  | |- runs (randint _ _) _ _ => eexists _, _, _; split; [reflexivity |]
  | |- runs (if ?b then _ else _) _ _ => destruct b eqn:?
  | |- runs (let '(_, _) := (_, _) in _) _ _ => cbv beta iota
  | |- runs (let '(_, _) := (if ?b then _ else _) in _) _ _ =>
      let v := eval vm_compute in b in
      lazymatch v with
      | true => change b with true; cbv beta iota
      | false => change b with false; cbv beta iota
      | _ => destruct b eqn:?
      end
  | |- runs (let '(_, _) := ?p in _) _ _ => destruct p eqn:?
  | |- runs (for_each (_ :: _) _) _ _ => unfold for_each; cbn [for_in]
  | |- runs (for_in (_ :: _) _ _) _ _ => cbn [for_in]
  | |- runs (for_in [] _ _) _ _ => cbn [for_in]
  end; cbv beta; st_simpl.

Ltac wp := repeat wp_step.

(** Closing a goal about the calls of a finished run. *)
Ltac tr_parts :=
  lazymatch goal with
  | |- tr _ (_ ++ _) => eapply tr_app; [tr_parts | tr_parts]
  | |- tr _ [] => apply tr_nil
  | |- tr _ [_] => apply tr_one; reflexivity
  | |- tr _ _ => eassumption
  end.

Ltac tr_solve := eapply tr_eq; [tr_parts | try reflexivity].

Ltac post :=
  repeat match goal with
         | H : _ /\ _ |- _ => destruct H
         | H : exists _, _ |- _ => destruct H
         end;
  subst; st_simpl.

(** Using the specification of a callee. *)
Ltac call H :=
  eapply runs_conseq;
  [ apply H; st_simpl; try reflexivity; try assumption
  | cbv beta zeta; intros ? ? ? ?; post ].

Ltac list_of_length l H :=
  repeat (destruct l as [| ? l]; [discriminate H |]);
  destruct l; [clear H | discriminate H].

Ltac open_state s :=
  destruct s as [rc er ic isz ifo cd cr fw fr ft lw cols fc cm rr rp nh];
  st_simpl.

Ltac points :=
  repeat match goal with
         | H : forallb is_point _ = true |- _ => cbn [forallb] in H
         | H : _ && _ = true |- _ => apply andb_prop in H; destruct H
         | H : is_point ?c = true |- _ =>
             destruct c; [discriminate H | clear H]
         | H : true = true |- _ => clear H
         end.

Lemma draw_flower_circle_spec x y c s :
  runs (draw_flower_circle x y c) s
       (fun _ s' out => s' = with_next_handle s (S (next_handle s)) /\ tr [Fill c] out).
Proof.
  unfold draw_flower_circle, make_new_layer, draw_circle_selection, fill_circle.
  wp; (split; [reflexivity | tr_solve]).
Qed.

Lemma draw_center_circle_spec c s :
  runs (draw_center_circle c) s
       (fun _ s' out => s' = with_next_handle s (S (next_handle s)) /\ tr [Fill c] out).
Proof.
  unfold draw_center_circle. wp. call draw_flower_circle_spec.
  split; [reflexivity | tr_solve].
Qed.

Lemma draw_frame_spec c s :
  runs (draw_frame c) s
       (fun _ s' out =>
          if frame_width s =? 0 then s' = s /\ out = []
          else s' = with_next_handle s (S (next_handle s)) /\ tr [Fill c] out).
Proof.
  unfold draw_frame, make_new_layer, fill_circle. wp_step. wp_step.
  destruct (frame_width s =? 0) eqn:E; cbn [negb];
    wp; try (split; [reflexivity | tr_solve]).
  split; reflexivity.
Qed.

Lemma ring_1_loop_spec c x y a s :
  runs (ring_1_loop c (x, y, a)) s
       (fun '(x', y', a') s' out =>
          s' = with_next_handle s (6 + next_handle s)%nat
          /\ tr (fills c 6) out
          /\ a' = (a + DEGREE_60 + DEGREE_60 + DEGREE_60 + DEGREE_60 + DEGREE_60 + DEGREE_60)%R
          /\ (x', y') = get_point_on_circle (focus s) a' (IZR (circle_radius s))).
Proof.
  unfold ring_1_loop. rewrite range_6.
  repeat (wp; call draw_flower_circle_spec). wp.
  split; [reflexivity | split; [tr_solve | split; [reflexivity | symmetry; assumption]]].
Qed.

Lemma draw_1st_ring_spec c s :
  runs (draw_1st_ring c) s
       (fun _ s' out =>
          s' = with_next_handle s (6 + next_handle s)%nat /\ tr (fills c 6) out).
Proof.
  unfold draw_1st_ring. wp. call ring_1_loop_spec.
  destruct a as [[x y] a]. post. wp. split; [reflexivity | tr_solve].
Qed.

Lemma draw_2nd_ring_spec c s :
  runs (draw_2nd_ring c) s
       (fun _ s' out =>
          s' = with_next_handle s (6 + next_handle s)%nat /\ tr (fills c 6) out).
Proof.
  unfold draw_2nd_ring. rewrite range_6.
  repeat (wp; call draw_flower_circle_spec). wp.
  split; [reflexivity | tr_solve].
Qed.

Lemma draw_5th_ring_spec c s :
  runs (draw_5th_ring c) s
       (fun _ s' out =>
          s' = with_next_handle s (6 + next_handle s)%nat /\ tr (fills c 6) out).
Proof.
  unfold draw_5th_ring. rewrite range_6.
  repeat (wp; call draw_flower_circle_spec). wp.
  split; [reflexivity | tr_solve].
Qed.

Lemma draw_3rd_ring_spec c s :
  List.length (ring_center s) = 6%nat ->
  runs (draw_3rd_ring c) s
       (fun _ s' out =>
          exists rc,
            s' = with_next_handle (with_ring_center s rc) (6 + next_handle s)%nat
            /\ List.length rc = 6%nat /\ forallb is_point rc = true
            /\ tr (fills c 6) out).
Proof.
  intros H6. open_state s. list_of_length rc H6.
  unfold draw_3rd_ring, store_ring_center. rewrite range_6.
  repeat (wp; call draw_flower_circle_spec). wp.
  eexists. split; [reflexivity | split; [reflexivity | split; [reflexivity | tr_solve]]].
Qed.

Lemma draw_4th_ring_spec c s :
  List.length (ring_center s) = 6%nat ->
  forallb is_point (ring_center s) = true ->
  runs (draw_4th_ring c) s
       (fun _ s' out =>
          s' = with_next_handle s (12 + next_handle s)%nat /\ tr (fills c 12) out).
Proof.
  intros H6 Hp. open_state s. list_of_length rc H6. points.
  unfold draw_4th_ring, load_ring_center. rewrite range_6.
  repeat (wp; call draw_flower_circle_spec). wp.
  split; [reflexivity | tr_solve].
Qed.

Lemma draw_6th_ring_spec c s :
  List.length (ring_center s) = 6%nat ->
  forallb is_point (ring_center s) = true ->
  List.length (extra_ring s) = 12%nat ->
  runs (draw_6th_ring c) s
       (fun _ s' out =>
          exists er,
            s' = with_next_handle (with_extra_ring s er) (18 + next_handle s)%nat
            /\ List.length er = 12%nat /\ forallb is_point er = true
            /\ tr (ring_6_view c) out).
Proof.
  intros H6 Hp H12. open_state s.
  list_of_length rc H6. points. list_of_length er H12.
  unfold draw_6th_ring, perimeter_pass, perimeter_pass_clamped, clamped_circle,
    perimeter_circle, load_ring_center, load_extra_ring, store_extra_ring.
  rewrite range_6, range_2, range_3.
  repeat (wp; call draw_flower_circle_spec). wp.
  eexists. split; [reflexivity | split; [reflexivity | split; [reflexivity | tr_solve]]].
Qed.

Ltac call_frame :=
  eapply runs_conseq;
  [ apply draw_frame_spec
  | cbv beta; st_simpl; intros ? ? ? ?;
    match goal with
    | H : (if ?b then _ else _) |- _ => destruct b eqn:?
    end; post ].

Ltac call_ring :=
  first [ call draw_center_circle_spec
        | call draw_1st_ring_spec | call draw_2nd_ring_spec
        | call draw_3rd_ring_spec | call draw_4th_ring_spec
        | call draw_5th_ring_spec | call draw_6th_ring_spec
        | call_frame ].

Lemma draw_colored_flower_spec c0 c1 c2 c3 c4 c5 c6 s :
  List.length (ring_center s) = 6%nat ->
  List.length (extra_ring s) = 12%nat ->
  ring_colors s = [c0; c1; c2; c3; c4; c5; c6] ->
  runs draw_colored_flower s
       (fun _ s' out =>
          exists rc er n,
            s' = evolved s rc er n /\ lists_filled rc er
            /\ tr (flower_view c0 c1 c2 c3 c4 c5 c6 (frame_color s) (frame_width s))
                  out).
Proof.
  intros H6 H12 Hc. open_state s. subst cols.
  unfold draw_colored_flower, get_layer_by_name.
  change (enumerate rings) with
    [(0, draw_1st_ring); (1, draw_2nd_ring); (2, draw_3rd_ring);
     (3, draw_4th_ring); (4, draw_5th_ring); (5, draw_6th_ring)].
  repeat (wp; call_ring); wp.
  all: eexists _, _, _; split; [reflexivity | split; [repeat split; assumption |]].
  all: unfold flower_view, frame_view;
    match goal with H : (_ =? 0) = _ |- _ => rewrite H end; tr_solve.
Qed.

Lemma draw_black_and_white_spec s :
  List.length (ring_center s) = 6%nat ->
  List.length (extra_ring s) = 12%nat ->
  runs draw_black_and_white s
       (fun _ s' out =>
          exists rc er n,
            s' = evolved s rc er n /\ lists_filled rc er
            /\ tr (flower_view WHITE WHITE WHITE WHITE WHITE WHITE WHITE WHITE
                     (frame_width s))
                  out).
Proof.
  intros H6 H12. open_state s.
  unfold draw_black_and_white, rings.
  repeat (wp; call_ring); wp.
  all: eexists _, _, _; split; [reflexivity | split; [repeat split; assumption |]].
  all: unfold flower_view, frame_view;
    match goal with H : (_ =? 0) = _ |- _ => rewrite H end; tr_solve.
Qed.

Lemma create_bw_alpha_spec s :
  List.length (extra_ring s) = 12%nat ->
  forallb is_point (extra_ring s) = true ->
  runs create_bw_alpha s
       (fun _ s' out =>
          exists n, s' = with_next_handle s n /\ tr (mask_view (frame_width s)) out).
Proof.
  intros H12 Hp. open_state s. list_of_length er H12. points.
  unfold create_bw_alpha, get_layer_by_name, make_new_layer, fill_layer,
    load_extra_ring, draw_circle_selection, fill_circle.
  rewrite range_12.
  repeat (wp; try call_frame); wp.
  all: eexists; split; [reflexivity |].
  all: unfold mask_view, frame_view;
    match goal with
    | H : (?v =? 0) = _ |- context [if ?v =? 0 then _ else _] => rewrite H
    end; tr_solve.
Qed.

Lemma drawn_range s k : 0 <= drawn s k <= 255.
Proof.
  unfold drawn.
  pose proof (Z.mod_pos_bound (random_raw s (k + random_pos s)%nat) (255 - 0 + 1)).
  lia.
Qed.

Lemma total_nonneg f cols :
  Forall (fun c => 0 <= f c) cols -> 0 <= total f cols.
Proof.
  unfold total. intros H.
  assert (G : forall acc, 0 <= acc -> 0 <= fold_left (fun a c => a + f c) cols acc).
  { induction H as [| c cols Hc _ IH]; intros acc Hacc; cbn [fold_left].
    - exact Hacc.
    - apply IH. lia. }
  apply G. lia.
Qed.

Lemma random_colors_spec s :
  List.length (ring_colors s) = 7%nat ->
  runs random_colors s
       (fun _ s' out =>
          let cols := List.map (random_color s) (List.seq 0 7) in
          s' = with_random_pos
                 (with_frame_color (with_ring_colors s cols)
                    (total red cols / 7, total green cols / 7, total blue cols / 7))
                 (21 + random_pos s)
          /\ out = []).
Proof.
  intros H7. open_state s. list_of_length cols H7.
  repeat match goal with c : color |- _ => destruct c as [[? ?] ?] end.
  unfold random_colors, RING_COLORS_COUNT. rewrite range_7, range_3.
  wp. split; reflexivity.
Qed.

Lemma tr_no_undo_mark w out : tr w out -> no_undo_mark out.
Proof. intros [H _]. exact H. Qed.

Lemma no_undo_mark_app a b :
  no_undo_mark a -> no_undo_mark b -> no_undo_mark (a ++ b).
Proof.
  unfold no_undo_mark. intros Ha Hb. rewrite forallb_app, Ha, Hb. reflexivity.
Qed.

Ltac quiet :=
  lazymatch goal with
  | |- no_undo_mark (_ ++ _) => apply no_undo_mark_app; [quiet | quiet]
  | |- no_undo_mark [] => reflexivity
  | |- no_undo_mark [_] => reflexivity
  | |- no_undo_mark _ =>
      first [assumption | eapply tr_no_undo_mark; eassumption]
  end.

Ltac call_flower :=
  lazymatch goal with
  | |- runs draw_colored_flower _ _ =>
      eapply runs_conseq;
      [ eapply draw_colored_flower_spec; st_simpl; try reflexivity; try assumption
      | cbv beta; intros ? ? ? ?; post ]
  | |- runs draw_black_and_white _ _ => call draw_black_and_white_spec
  | |- runs create_bw_alpha _ _ => call create_bw_alpha_spec
  | |- runs random_colors _ _ => call random_colors_spec
  end.

Ltac filled :=
  repeat match goal with
         | H : lists_filled _ _ |- _ => destruct H as (? & ? & ? & ?)
         end.

Lemma color_pass_spec p s :
  List.length (ring_center s) = 6%nat ->
  List.length (extra_ring s) = 12%nat ->
  List.length (ring_colors s) = 7%nat ->
  runs (color_pass p) s
       (fun _ s' out =>
          List.length (ring_center s') = 6%nat
          /\ List.length (extra_ring s') = 12%nat
          /\ frame_width s' = frame_width s
          /\ flower_type s' = flower_type s
          /\ no_undo_mark out).
Proof.
  intros H6 H12 H7. open_state s. list_of_length cols H7.
  unfold color_pass, draw_gradient, make_new_layer, fill_layer, get_layer_by_name.
  repeat (wp; try call_flower); wp.
  all: filled; repeat (split; [first [assumption | reflexivity] |]); quiet.
Qed.

Lemma transfer_alpha_spec s :
  runs transfer_alpha s
       (fun _ s' out => no_undo_mark out).
Proof.
  unfold transfer_alpha, get_layer_by_name, info_msg. wp. quiet.
Qed.

Lemma draw_symbol_spec p s :
  List.length (ring_center s) = 6%nat ->
  List.length (extra_ring s) = 12%nat ->
  List.length (ring_colors s) = 7%nat ->
  runs (draw_symbol p) s (fun _ _ out => no_undo_mark out).
Proof.
  intros H6 H12 H7.
  unfold draw_symbol, make_new_layer, fill_layer, get_layer_by_name.
  wp.
  all: try (call color_pass_spec; wp).
  all: repeat (wp; filled; try call_flower); wp.
  all: try (call transfer_alpha_spec; wp).
  all: quiet.
Qed.

Lemma host_calls_app a b : host_calls (a ++ b) = host_calls a ++ host_calls b.
Proof.
  induction a as [| e a IH]; [reflexivity |].
  destruct e; cbn [host_calls app]; rewrite IH; reflexivity.
Qed.

Lemma no_undo_mark_host_calls out :
  no_undo_mark out -> forallb not_undo_mark (host_calls out) = true.
Proof.
  unfold no_undo_mark. induction out as [| e out IH]; [reflexivity |].
  cbn [forallb]. intros H. apply andb_prop in H. destruct H as [He Ho].
  destruct e; cbn [host_calls forallb]; auto.
  cbn [ok] in He. unfold not_undo_mark. rewrite He. cbn [andb]. auto.
Qed.

Lemma render_flower_one_undo_group p s :
  lists_sized s ->
  exists out, calls (render_flower p) s = Some out
              /\ one_undo_group (host_calls out).
Proof.
  intros [H6 H12].
  assert (R : runs (render_flower p) s
                   (fun _ _ out => one_undo_group (host_calls out))).
  { unfold render_flower. wp.
    eapply runs_conseq;
      [ apply draw_symbol_spec; unfold init_globals; st_simpl;
        first [assumption | reflexivity] |].
    cbv beta. intros _ s' out Hout. wp.
    exists [gimp_context_push; gimp_context_set_antialias false;
            gimp_context_set_feather false;
            gimp_Image (image_size (init_globals p s))
                       (image_size (init_globals p s))],
      (host_calls out), [gimp_context_pop].
    split; [| split; [reflexivity | split; [| reflexivity]]].
    - cbn [app host_calls]. rewrite host_calls_app. reflexivity.
    - apply no_undo_mark_host_calls, Hout. }
  destruct (runs_calls _ _ _ R) as (out & Hc & _ & _ & Hg).
  exists out. split; assumption.
Qed.

Lemma extra_reads_view out : extra_reads out = obs_reads (view out).
Proof.
  unfold extra_reads, obs_reads, view.
  induction out as [| e out IH]; [reflexivity |].
  cbn [flat_map]. rewrite flat_map_app, <- IH. f_equal.
  destruct e as [h | l i | l i]; [destruct h | destruct l | destruct l]; reflexivity.
Qed.

Lemma fill_colors_view out : fill_colors out = obs_fills (view out).
Proof.
  unfold fill_colors, obs_fills, view.
  induction out as [| e out IH]; [reflexivity |].
  cbn [flat_map]. rewrite flat_map_app, <- IH. f_equal.
  destruct e as [h | l i | l i]; [destruct h | destruct l | destruct l]; reflexivity.
Qed.

Lemma extra_reads_in_range out :
  forallb ok out = true -> Forall (fun i => 0 <= i <= 11) (extra_reads out).
Proof.
  unfold extra_reads. induction out as [| e out IH]; intros H; [constructor |].
  cbn [forallb] in H. apply andb_prop in H. destruct H as [He Ho].
  cbn [flat_map]. apply Forall_app. split; [| exact (IH Ho)].
  destruct e as [h | l i | l i]; [constructor | destruct l | constructor];
    [constructor |].
  constructor; [| constructor]. cbn [ok] in He. lia.
Qed.

(** *** Closing the ring *)

Section Ring.
Local Open Scope R_scope.

Lemma full_turn_excess :
  exists d, full_turn = d + 2 * PI /\ 0 < d < 2 / 100000.
Proof.
  exists (full_turn - 2 * PI). split; [ring |].
  pose proof PI_lower. pose proof PI_upper.
  unfold full_turn, DEGREE_60. lra.
Qed.

Lemma full_turn_sin_cos :
  0 < sin full_turn < 2 / 100000 /\ 1 - 2 / 100000 <= cos full_turn <= 1.
Proof.
  destruct full_turn_excess as (d & -> & Hd).
  rewrite sin_plus, cos_plus, sin_2PI, cos_2PI.
  destruct (small_angle d) as [Hs Hc]; [lra |].
  replace (sin d * 1 + cos d * 0) with (sin d) by ring.
  replace (cos d * 1 - sin d * 0) with (cos d) by ring.
  split; [lra | nra].
Qed.

Lemma ring_closes fx fy r :
  closes_within (2 / 100000) r
    (get_point_on_circle (fx, fy) full_turn r)
    (get_point_on_circle (fx, fy) 0 r).
Proof.
  destruct full_turn_sin_cos as [Hs Hc].
  unfold closes_within, get_point_on_circle. cbn [fst snd].
  rewrite sin_0, cos_0.
  replace (sin full_turn * r + fx - (0 * r + fx)) with (sin full_turn * r) by ring.
  replace (cos full_turn * - r + fy - (1 * - r + fy))
    with ((1 - cos full_turn) * r) by ring.
  rewrite !Rabs_mult.
  pose proof (Rabs_pos r) as Hr.
  rewrite (Rabs_pos_eq (sin full_turn)) by lra.
  rewrite (Rabs_pos_eq (1 - cos full_turn)) by lra.
  split; apply Rmult_le_compat_r; lra.
Qed.
End Ring.
End FlowerFacts.

(** ** Stages that do nothing, and the inputs of the dialog *)

Module FrameFacts.
Import Undo Frame FlowColor ColorSpec PolarSpec PolarFacts RealFacts YinYang
       YinYangSpec YinYangFacts.

Section Keeps.
Context {S C X : Type} (f : S -> X).

Lemma keeps_ret {A} (a : A) : keeps f (ret (C:=C) a).
Proof. intros s a' s' out E. injection E; intros; subst; reflexivity. Qed.

Lemma keeps_get : keeps f (get (C:=C)).
Proof. intros s a' s' out E. injection E; intros; subst; reflexivity. Qed.

Lemma keeps_emit (c : C) : keeps f (emit c).
Proof. intros s a' s' out E. injection E; intros; subst; reflexivity. Qed.

Lemma keeps_lift {A} (o : option A) : keeps f (lift (S:=S) (C:=C) o).
Proof.
  destruct o as [a |]; [apply keeps_ret |].
  intros s a' s' out E. discriminate E.
Qed.

Lemma keeps_bind {A B} (m : M S C A) (k : A -> M S C B) :
  keeps f m -> (forall a, keeps f (k a)) -> keeps f (bind m k).
Proof.
  intros Hm Hk s b s2 out E. unfold bind in E.
  destruct (m s) as [[[a s1] o1] |] eqn:Em; [| discriminate E].
  destruct (k a s1) as [[[b' s2'] o2] |] eqn:Ek; [| discriminate E].
  injection E; intros; subst.
  etransitivity; [eapply Hk; eassumption | eapply Hm; eassumption].
Qed.


End Keeps.

Ltac keeps_step :=
  lazymatch goal with
  | |- keeps _ (bind _ _) => apply keeps_bind; [| intros ?]
  | |- keeps _ (ret _) => apply keeps_ret
  | |- keeps _ get => apply keeps_get
  | |- keeps _ (emit _) => apply keeps_emit
  | |- keeps _ (lift _) => apply keeps_lift
  | |- keeps _ (pick _ _ _) => apply keeps_lift
  | |- keeps _ (if ?b then _ else _) => destruct b
  | |- keeps _ (let '(_, _) := ?p in _) => destruct p
  end.

Section WithFloat.
Context {F : Type} `{PyFloat F}.
Implicit Types (s : yy (F:=F)) (p : params (F:=F)).




End WithFloat.

Lemma draw_frame_skip c (s : Flower.state) :
  Flower.frame_width s = 0 -> Flower.draw_frame c s = Some (tt, s, []).
Proof.
  intros E. unfold Flower.draw_frame, bind, get. rewrite E. reflexivity.
Qed.

(** *** The dialog's inputs, in exact arithmetic *)

Lemma set_colors_105_total mode c1 c2 :
  in_gamut c1 -> set_colors_105 (F:=R) mode c1 c2 <> None.
Proof.
  intros Hc. unfold set_colors_105.
  destruct (mode =? YY_INVERTED_COLOR); [discriminate |].
  destruct ((mode =? YY_POLAR_HUE) || (mode =? YY_POLAR_LIGHTNESS)
            || (mode =? YY_POLAR_SATURATION)); [| discriminate].
  apply invert_channel_total, Hc.
Qed.

Lemma dialog_input_ready (p : params (F:=R)) : dialog_input p -> render_ready p.
Proof.
  intros (He & Hc & Hd). split; [| split; [| split]].
  - cbn [feqb of_int R_PyFloat]. apply Reqb_false. lra.
  - apply set_colors_105_total, Hc.
  - exact Hd.
  - cbn [fltb feqb of_int R_PyFloat]. unfold Rltb. intros Hf.
    destruct (Rlt_dec 1 (frame_count p)); [| discriminate Hf].
    apply Reqb_false. lra.
Qed.

End FrameFacts.

(** ** Raising *)

Module RaiseFacts.
Import Frame FrameFacts.

Section Raises.
Context {S C : Type}.

Lemma bind_raises_now {A B} (m : M S C A) (k : A -> M S C B) s :
  m s = None -> bind m k s = None.
Proof. intros E. unfold bind. rewrite E. reflexivity. Qed.

Lemma bind_raises_later {A B} (m : M S C A) (k : A -> M S C B) s :
  runs m s (fun a s' _ => k a s' = None) -> bind m k s = None.
Proof.
  intros (a & s' & out & Hm & Hk). unfold bind. rewrite Hm, Hk. reflexivity.
Qed.

Lemma runs_not_raised {A} (m : M S C A) s Q : runs m s Q -> m s <> None.
Proof. intros (a & s' & out & Hm & _). rewrite Hm. discriminate. Qed.

(** A loop raises when one of its passes does, whatever the locals,
    as long as no pass changes what that pass looks at. *)
Lemma for_in_raises {A L X} (f : S -> X) (v : X) (x : A)
      (body : A -> L -> M S C L) (xs : list A) :
  In x xs ->
  (forall y acc, keeps f (body y acc)) ->
  (forall acc s, f s = v -> body x acc s = None) ->
  forall acc s, f s = v -> for_in xs body acc s = None.
Proof.
  intros Hin Hkeep Hx. induction xs as [| y xs IH]; [destruct Hin |].
  intros acc s Hs. cbn [for_in]. unfold bind.
  destruct (body y acc s) as [[[acc' s'] out] |] eqn:E; [| reflexivity].
  destruct Hin as [-> | Hin].
  - rewrite (Hx acc s Hs) in E. discriminate E.
  - rewrite (IH Hin acc' s'); [reflexivity |].
    rewrite (Hkeep y acc s acc' s' out E). exact Hs.
Qed.
End Raises.

Import Flower FlowerSpec.

Lemma getitem_nth {A} (l : list A) (n : nat) :
  (n < List.length l)%nat -> getitem l (Z.of_nat n) = nth_error l n.
Proof.
  intros Hn. unfold getitem.
  replace (0 <=? Z.of_nat n) with true by (symmetry; apply Z.leb_le; lia).
  replace (Z.of_nat n <? Z.of_nat (List.length l)) with true
    by (symmetry; apply Z.ltb_lt; lia).
  cbn [andb]. rewrite Nat2Z.id. reflexivity.
Qed.

Lemma in_range_of_nat (n : nat) (k : Z) :
  (n < Z.to_nat k)%nat -> In (Z.of_nat n) (range k).
Proof. intros Hn. unfold range. apply in_map, in_seq. lia. Qed.

(** A list with an entry that is not a point has the initial [0]
    somewhere. *)
Lemma missing_point (l : list cell) :
  forallb is_point l = false ->
  exists i, In i (range (Z.of_nat (List.length l))) /\ getitem l i = Some Int0.
Proof.
  intros H.
  assert (G : exists n, nth_error l n = Some Int0).
  { induction l as [| c l IH]; [discriminate H |].
    cbn [forallb] in H. destruct c as [| p].
    - exists 0%nat. reflexivity.
    - cbn [is_point andb] in H. destruct (IH H) as [n Hn].
      exists (S n). exact Hn. }
  destruct G as [n Hn].
  assert (Hlt : (n < List.length l)%nat).
  { apply nth_error_Some. rewrite Hn. discriminate. }
  exists (Z.of_nat n). split.
  - apply in_range_of_nat. lia.
  - rewrite getitem_nth by exact Hlt. exact Hn.
Qed.

Lemma fresh_keeps {X} (f : state -> X) :
  (forall s n, f (with_next_handle s n) = f s) -> keeps f fresh.
Proof. intros Hf s a s' out E. injection E; intros; subst. apply Hf. Qed.

Lemma set_extra_ring_keeps_ring_center l : keeps ring_center (set_extra_ring l).
Proof. intros s a s' out E. injection E; intros; subst. reflexivity. Qed.

Ltac keeps_flower :=
  repeat first
    [ keeps_step
    | apply fresh_keeps; reflexivity
    | apply set_extra_ring_keeps_ring_center ].

Lemma draw_flower_circle_keeps {X} (f : state -> X) x y c :
  (forall s n, f (with_next_handle s n) = f s) ->
  keeps f (draw_flower_circle x y c).
Proof.
  intros Hf.
  unfold draw_flower_circle, make_new_layer, draw_circle_selection, fill_circle, pdb.
  repeat first [keeps_step | apply fresh_keeps; exact Hf].
Qed.

Lemma load_ring_center_raises i s :
  getitem (ring_center s) i = Some Int0 -> load_ring_center i s = None.
Proof.
  intros E. unfold load_ring_center, bind, get, emit. rewrite E. reflexivity.
Qed.

Lemma load_extra_ring_raises i s :
  getitem (extra_ring s) i = Some Int0 -> load_extra_ring i s = None.
Proof.
  intros E. unfold load_extra_ring, bind, get, emit. rewrite E. reflexivity.
Qed.

Lemma draw_4th_ring_raises c s :
  List.length (ring_center s) = 6%nat ->
  forallb is_point (ring_center s) = false ->
  draw_4th_ring c s = None.
Proof.
  intros H6 Hp. destruct (missing_point _ Hp) as (i & Hin & Hi).
  rewrite H6 in Hin.
  unfold draw_4th_ring.
  apply bind_raises_later, runs_get. apply bind_raises_now.
  apply (for_in_raises ring_center (ring_center s) i); [exact Hin | | | reflexivity].
  - intros y [a1 a2].
    unfold load_ring_center, pdb.
    repeat first [keeps_step | apply draw_flower_circle_keeps; reflexivity].
  - intros [a1 a2] s1 E. apply bind_raises_now, load_ring_center_raises.
    rewrite E. exact Hi.
Qed.

Lemma draw_6th_ring_raises c s :
  List.length (ring_center s) = 6%nat ->
  forallb is_point (ring_center s) = false ->
  draw_6th_ring c s = None.
Proof.
  intros H6 Hp. destruct (missing_point _ Hp) as (i & Hin & Hi).
  rewrite H6 in Hin.
  unfold draw_6th_ring.
  apply bind_raises_later, runs_get. apply bind_raises_now.
  apply (for_in_raises ring_center (ring_center s) i); [exact Hin | | | reflexivity].
  - intros y a.
    unfold load_ring_center, store_extra_ring, pdb. keeps_flower.
  - intros a s1 E. apply bind_raises_now, load_ring_center_raises.
    rewrite E. exact Hi.
Qed.

Lemma create_bw_alpha_raises s :
  List.length (extra_ring s) = 12%nat ->
  forallb is_point (extra_ring s) = false ->
  create_bw_alpha s = None.
Proof.
  intros H12 Hp. destruct (missing_point _ Hp) as (i & Hin & Hi).
  rewrite H12 in Hin.
  unfold create_bw_alpha, get_layer_by_name, make_new_layer, fill_layer.
  apply bind_raises_later, runs_get.
  apply bind_raises_later. FlowerFacts.wp.
  all: do 2 (apply bind_raises_later; FlowerFacts.wp).
  all: apply bind_raises_now; unfold for_each.
  all: apply (for_in_raises extra_ring (extra_ring s) i);
    [ exact Hin
    | intros y []; unfold load_extra_ring, pdb; keeps_flower
    | intros [] s2 E2; apply bind_raises_now, load_extra_ring_raises;
      rewrite E2; exact Hi
    | reflexivity ].
Qed.
End RaiseFacts.

(** ** The lists after a render *)

Module ListsFacts.
Import Undo Flower ColorSpec FlowerSpec FlowerFacts.

Lemma transfer_alpha_state s :
  runs transfer_alpha s (fun _ s' _ => exists n, s' = with_next_handle s n).
Proof.
  unfold transfer_alpha, get_layer_by_name, info_msg. wp.
  eexists. reflexivity.
Qed.

Lemma draw_symbol_lists p s :
  List.length (ring_center s) = 6%nat ->
  List.length (extra_ring s) = 12%nat ->
  List.length (ring_colors s) = 7%nat ->
  runs (draw_symbol p) s
       (fun _ s' _ => lists_filled (ring_center s') (extra_ring s')).
Proof.
  intros H6 H12 H7.
  unfold draw_symbol, make_new_layer, fill_layer, get_layer_by_name.
  wp.
  all: try (call color_pass_spec; wp).
  all: repeat (wp; filled; try call_flower); wp.
  all: try (call transfer_alpha_state; wp).
  all: repeat split; assumption.
Qed.

Lemma render_flower_lists p s :
  lists_sized s ->
  runs (render_flower p) s
       (fun _ s' _ => lists_filled (ring_center s') (extra_ring s')).
Proof.
  intros [H6 H12]. unfold render_flower. wp.
  eapply runs_conseq;
    [ apply draw_symbol_lists; unfold init_globals; st_simpl;
      first [assumption | reflexivity] |].
  cbv beta. intros _ s' out Hf. wp. exact Hf.
Qed.
End ListsFacts.

(** ** What the flower selects *)

Module SelectionFacts.
Import Flower FlowerSpec FlowerFacts CircleSpec SelectionSpec.
Local Open Scope R_scope.

Lemma half_IZR (z : Z) : IZR (z / 2) = IZR z / 2 - IZR (z mod 2) / 2.
Proof.
  pose proof (Z.div_mod z 2 ltac:(lia)) as E.
  apply (f_equal IZR) in E. rewrite plus_IZR, mult_IZR in E. lra.
Qed.

Lemma ellipses_app {F} (a b : list (call F)) :
  ellipses (a ++ b) = ellipses a ++ ellipses b.
Proof.
  induction a as [| c a IH]; [reflexivity |].
  destruct c; cbn [ellipses app]; rewrite IH; reflexivity.
Qed.

Lemma added_app {F} (a b : list (channel_op * shape F)) :
  added (a ++ b) = (added a + added b)%nat.
Proof. unfold added, selected. rewrite flat_map_app, length_app. reflexivity. Qed.

Lemma centre_of_disc p d : centre_of (disc p d) = p.
Proof.
  destruct p as [x y]. unfold centre_of, disc. cbn [fst snd]. f_equal; lra.
Qed.

Lemma inside_disc (margin size cx cy d : R) :
  margin <= cx - d / 2 -> margin <= cy - d / 2 ->
  cx + d / 2 <= size - margin -> cy + d / 2 <= size - margin ->
  inside margin size (disc (cx, cy) d).
Proof.
  intros H1 H2 H3 H4. unfold inside, disc. cbn [fst snd]. repeat split; lra.
Qed.

(** Equal lists of shapes, number by number. *)
Ltac shapes :=
  repeat match goal with
         | |- _ :: _ = _ :: _ => apply f_equal2
         | |- (_, _) = (_, _) => apply f_equal2
         end;
  try reflexivity; lra.

Lemma draw_flower_circle_ellipses x y c s :
  circle_diameter s = (2 * circle_radius s)%Z ->
  runs (draw_flower_circle x y c) s
       (fun _ _ out =>
          ellipses (host_calls out)
          = if flower_type s =? LINES
            then [circle_around CHANNEL_OP_ADD
                    (x + line_shift s, y + line_shift s)
                    (IZR (circle_diameter s + line_width s));
                  circle_around CHANNEL_OP_SUBTRACT
                    (x + line_shift s, y + line_shift s)
                    (IZR (circle_diameter s - line_width s))]
            else [circle_around CHANNEL_OP_ADD (x, y) (IZR (circle_diameter s))]).
Proof.
  intros Hd.
  unfold draw_flower_circle, make_new_layer, draw_circle_selection, fill_circle,
    line_shift.
  wp; cbn [app host_calls ellipses]; unfold circle_around, disc; cbn [fst snd].
  - rewrite plus_IZR, minus_IZR, Hd, mult_IZR, half_IZR. shapes.
  - rewrite Hd, mult_IZR. shapes.
Qed.

Lemma draw_frame_ellipses c s :
  frame_width s <> 0%Z ->
  runs (draw_frame c) s
       (fun _ _ out =>
          ellipses (host_calls out)
          = [circle_around CHANNEL_OP_ADD
               (IZR (image_center s) + line_shift s, IZR (image_center s) + line_shift s)
               (IZR (flower_radius s * 2 + line_extra s + frame_width s * 2));
             circle_around CHANNEL_OP_SUBTRACT
               (IZR (image_center s) + line_shift s, IZR (image_center s) + line_shift s)
               (IZR (flower_radius s * 2 + line_extra s))]
          /\ fill_colors out = [c]).
Proof.
  intros Hw. apply Z.eqb_neq in Hw.
  unfold draw_frame, make_new_layer, fill_circle, line_shift, line_extra.
  wp_step. wp_step. rewrite Hw. cbn [negb].
  destruct (flower_type s =? LINES) eqn:E.
  all: wp; cbn [app host_calls ellipses]; unfold circle_around, disc; cbn [fst snd].
  all: (split; [| reflexivity]).
  all: rewrite ?plus_IZR, ?minus_IZR, ?mult_IZR, ?half_IZR.
  all: shapes.
Qed.
End SelectionFacts.

(** ** The rings around the centre *)

Module RingFacts.
Import Flower FlowerSpec FlowerFacts CircleSpec SelectionSpec SelectionFacts.

Lemma on_circle (f : point) (a r : R) :
  sq_distance (get_point_on_circle f a r) f = (r * r)%R.
Proof.
  destruct f as [fx fy]. unfold sq_distance, get_point_on_circle. cbn [fst snd].
  pose proof (sin2_cos2 a) as Hsc. unfold Rsqr in Hsc.
  replace (sin a * r + fx - fx)%R with (sin a * r)%R by ring.
  replace (cos a * - r + fy - fy)%R with (- (cos a * r))%R by ring.
  transitivity ((sin a * sin a + cos a * cos a) * (r * r))%R; [ring |].
  rewrite Hsc. ring.
Qed.

Lemma centred_around_app p r a b :
  centred_around p r a -> centred_around p r b -> centred_around p r (a ++ b).
Proof. intros Ha Hb. apply Forall_app. split; assumption. Qed.

Lemma centred_at_around p q r es :
  centred_at q es -> sq_distance q p = (r * r)%R -> centred_around p r es.
Proof.
  intros Hq Hd. eapply Forall_impl; [| exact Hq].
  cbv beta. intros e ->. exact Hd.
Qed.

(** One circle of the flower: the shapes selected have their middle
    at the point given, and one of them is added. *)
Lemma draw_flower_circle_centred x y c s :
  circle_diameter s = 2 * circle_radius s ->
  line_shift s = 0%R ->
  runs (draw_flower_circle x y c) s
       (fun _ s' out =>
          s' = with_next_handle s (S (next_handle s))
          /\ centred_at (x, y) (ellipses (host_calls out))
          /\ added (ellipses (host_calls out)) = 1%nat).
Proof.
  intros Hd Hl.
  destruct (draw_flower_circle_spec x y c s) as ([] & s1 & out & Hrun & Hs1 & _).
  destruct (draw_flower_circle_ellipses x y c s Hd) as ([] & s2 & out2 & Hrun2 & He).
  rewrite Hrun in Hrun2. injection Hrun2 as <- <-.
  exists tt, s1, out. split; [exact Hrun |]. split; [exact Hs1 |].
  rewrite He, Hl. unfold centred_at, added, circle_around.
  replace (x + 0)%R with x by lra. replace (y + 0)%R with y by lra.
  destruct (flower_type s =? LINES).
  - split; [| reflexivity].
    repeat constructor; cbn [snd]; apply centre_of_disc.
  - split; [| reflexivity].
    repeat constructor; cbn [snd]; apply centre_of_disc.
Qed.

(** Closing a goal about the circles of a finished ring. *)
Ltac ring_parts :=
  lazymatch goal with
  | |- centred_around _ _ (_ ++ _) => apply centred_around_app; [ring_parts | ring_parts]
  | |- centred_around _ _ [] => apply Forall_nil
  | |- centred_around _ _ _ =>
      eapply centred_at_around; [eassumption |];
      first [ match goal with
              | E : get_point_on_circle _ _ _ = _ |- _ =>
                  rewrite <- E;
                  etransitivity; [apply on_circle | rewrite ?mult_IZR; ring]
              end
            | unfold sq_distance, focus;
              repeat match goal with
                     | H : image_focus _ = _ |- _ => rewrite H
                     end;
              cbn [fst snd]; rewrite ?minus_IZR, ?mult_IZR; ring ]
  end.

Ltac ring_solve :=
  rewrite ?host_calls_app, ?ellipses_app; cbn [host_calls ellipses app];
  split;
  [ ring_parts
  | rewrite ?added_app;
    repeat match goal with
           | H : added _ = _ |- _ => rewrite H; clear H
           end;
    reflexivity ].

Ltac call_circle :=
  eapply runs_conseq;
  [ apply draw_flower_circle_centred; unfold line_shift; st_simpl; assumption
  | cbv beta zeta; intros ? ? ? ?; post ].

Lemma draw_1st_ring_centred c s :
  circle_diameter s = 2 * circle_radius s ->
  line_shift s = 0%R ->
  image_focus s = (image_center s, image_center s) ->
  runs (draw_1st_ring c) s
       (fun _ _ out =>
          centred_around (focus s) (IZR (circle_radius s)) (ellipses (host_calls out))
          /\ added (ellipses (host_calls out)) = 6%nat).
Proof.
  intros Hd Hl Hf. unfold draw_1st_ring, ring_1_loop. rewrite range_6.
  unfold line_shift in Hl.
  repeat (wp; call_circle). wp.
  ring_solve.
Qed.

Lemma draw_2nd_ring_centred c s :
  circle_diameter s = 2 * circle_radius s ->
  line_shift s = 0%R ->
  image_focus s = (image_center s, image_center s) ->
  runs (draw_2nd_ring c) s
       (fun _ _ out =>
          centred_around (focus s) (IZR (circle_radius s * 2))
            (ellipses (host_calls out))
          /\ added (ellipses (host_calls out)) = 6%nat).
Proof.
  intros Hd Hl Hf. unfold draw_2nd_ring. rewrite range_6.
  unfold line_shift in Hl.
  repeat (wp; call_circle). wp.
  ring_solve.
Qed.

Lemma draw_5th_ring_centred c s :
  circle_diameter s = 2 * circle_radius s ->
  line_shift s = 0%R ->
  runs (draw_5th_ring c) s
       (fun _ _ out =>
          centred_around (focus s) (IZR (circle_radius s * 3))
            (ellipses (host_calls out))
          /\ added (ellipses (host_calls out)) = 6%nat).
Proof.
  intros Hd Hl. unfold draw_5th_ring. rewrite range_6.
  unfold line_shift in Hl.
  repeat (wp; call_circle). wp.
  ring_solve.
Qed.
End RingFacts.

(** ** The frame within the image *)

Module FitFacts.
Import RealFacts Flower FlowerSpec FlowerFacts SelectionSpec SelectionFacts FrameFacts.
Local Open Scope R_scope.

Lemma Int_part_greatest (z : Z) (x : R) : IZR z <= x -> (z <= Int_part x)%Z.
Proof.
  intros H. pose proof (base_Int_part x) as [_ Hx].
  assert (L : IZR z < IZR (Int_part x + 1)) by (rewrite plus_IZR; lra).
  apply lt_IZR in L. lia.
Qed.

Lemma to_int_nonneg (a : R) : 0 <= a -> (0 <= R_to_int a)%Z.
Proof.
  intros Ha. unfold R_to_int. destruct (Rle_dec 0 a) as [_ | N]; [| destruct (N Ha)].
  apply (Int_part_greatest 0). exact Ha.
Qed.

(** Cutting to integers before adding gives no more than cutting
    after. *)
Lemma to_int_superadditive (a b : R) :
  0 <= a -> 0 <= b -> (R_to_int a + R_to_int b <= R_to_int (a + b))%Z.
Proof.
  intros Ha Hb. unfold R_to_int.
  destruct (Rle_dec 0 a) as [_ | N]; [| destruct (N Ha)].
  destruct (Rle_dec 0 b) as [_ | N]; [| destruct (N Hb)].
  destruct (Rle_dec 0 (a + b)) as [_ | N]; [| exfalso; apply N; lra].
  apply Int_part_greatest. rewrite plus_IZR.
  pose proof (base_Int_part a). pose proof (base_Int_part b). lra.
Qed.

Lemma draw_frame_fits c (p : params) (s0 : state) :
  0 <= symbol_radius p -> 0 <= frame_w p -> 0 <= line_w p ->
  runs (draw_frame c) (init_globals p s0)
       (fun _ _ out =>
          Forall (fun e => inside 2 (IZR (image_size (init_globals p s0))) (snd e))
                 (ellipses (host_calls out))).
Proof.
  intros HR Hf Hl. set (s := init_globals p s0).
  destruct (Z.eq_dec (frame_width s) 0) as [E | N].
  - exists tt, s, []. split; [apply draw_frame_skip, E | constructor].
  - eapply runs_conseq; [apply (draw_frame_ellipses c s N) |].
    cbv beta. intros _ s' out [He _]. rewrite He.
    pose proof (to_int_superadditive (symbol_radius p * 2) (frame_w p * 2)
                  ltac:(lra) ltac:(lra)) as Hsum.
    pose proof (to_int_nonneg (symbol_radius p * 2) ltac:(lra)) as H1.
    pose proof (to_int_nonneg (frame_w p * 2) ltac:(lra)) as H2.
    pose proof (to_int_nonneg (line_w p * 2) ltac:(lra)) as H3.
    unfold circle_around, line_shift, line_extra, s, init_globals, SCALE.
    cbn [image_center image_size frame_width flower_radius flower_type line_width
         to_int R_PyFloat].
    set (fr := R_to_int (symbol_radius p * 2)) in *.
    set (fw := R_to_int (frame_w p * 2)) in *.
    set (lw := R_to_int (line_w p * 2)) in *.
    set (sum := R_to_int (symbol_radius p * 2 + frame_w p * 2)) in *.
    assert (Hm : (0 <= lw mod 2 < 2)%Z) by (apply Z.mod_pos_bound; lia).
    destruct Hm as [Hm0 Hm1]. apply IZR_le in Hm0. apply IZR_lt in Hm1.
    assert (Hq : (lw mod 2 <= lw)%Z) by (apply Z.mod_le; lia).
    apply IZR_le in Hq, Hsum, H1, H2, H3. rewrite plus_IZR in Hsum.
    destruct (flower_part p =? LINES).
    + rewrite Z.div_mul by lia.
      apply Forall_cons; [| apply Forall_cons; [| apply Forall_nil]];
        cbn [snd]; apply inside_disc; repeat rewrite ?plus_IZR, ?mult_IZR; lra.
    + rewrite Z.div_mul by lia.
      apply Forall_cons; [| apply Forall_cons; [| apply Forall_nil]];
        cbn [snd]; apply inside_disc; repeat rewrite ?plus_IZR, ?mult_IZR; lra.
Qed.
End FitFacts.

(** ** Gradients *)

Module GradientFacts.
Import GradientSpec.

Lemma gradient_log_app {F} (a b : list (call F)) :
  gradient_log (a ++ b) = gradient_log a ++ gradient_log b.
Proof.
  induction a as [| c a IH]; [reflexivity |].
  destruct c; cbn [gradient_log app]; rewrite IH; reflexivity.
Qed.

(** Closing a goal about the gradients of a finished run. *)
Ltac log_solve :=
  rewrite ?gradient_log_app; cbn [gradient_log app];
  repeat match goal with
         | H : gradient_log _ = _ |- _ => rewrite H
         end;
  cbn [app]; rewrite ?app_nil_r; try reflexivity.
End GradientFacts.

(** ** yin-yang-1-02: undo group and gradients *)

Module YinYang102Facts.
Import Undo UndoFacts YinYang YinYangSpec YinYang102 YinYang102Spec.
Import GradientSpec GradientFacts.

Ltac st_simpl :=
  cbn [YY_rim_width YY_symbol_size YY_symbol_dimension YY_mode YY_image_size
       YY_center YY_flow_size YY_head_diameter YY_head_radius YY_eye_radius
       YY_eye_diameter YY_flow_offset YY_base YinYang102.next_handle
       YinYang102.with_next_handle YinYang102.with_base YinYang102.initialize
       fst snd] in *.

Ltac wp_step :=
  lazymatch goal with
  | |- runs (bind _ _) _ _ => apply runs_bind
  | |- runs (ret _) _ _ => apply runs_ret
  | |- runs get _ _ => apply runs_get
  | |- runs (put _) _ _ => apply runs_put
  | |- runs (emit _) _ _ => apply runs_emit
  | |- runs (lift _) _ _ => eapply runs_lift; [reflexivity |]
  | |- runs (YinYang102.pick _ _ _) _ _ => eapply runs_lift; [reflexivity |]
  | |- runs YinYang102.fresh _ _ => eexists _, _, _; split; [reflexivity |]
  | |- runs (YinYang102.set_base _) _ _ => eexists _, _, _; split; [reflexivity |]
  | |- runs (if ?b then _ else _) _ _ => destruct b eqn:?
  | |- runs (let '(_, _) := (_, _) in _) _ _ => cbv beta iota
  | |- runs (for_each (_ :: _) _) _ _ => unfold for_each; cbn [for_in]
  | |- runs (for_in (_ :: _) _ _) _ _ => cbn [for_in]
  | |- runs (for_in [] _ _) _ _ => cbn [for_in]
  end; cbv beta; st_simpl.

Ltac wp := repeat wp_step.

Ltac quiet_solve :=
  lazymatch goal with
  | |- quiet (_ ++ _) => apply quiet_app; [quiet_solve | quiet_solve]
  | |- quiet [] => reflexivity
  | |- quiet [_] => reflexivity
  | |- quiet _ => assumption
  end.

Ltac post :=
  repeat match goal with
         | H : _ /\ _ |- _ => destruct H
         | H : exists _, _ |- _ => destruct H
         end;
  subst; st_simpl.

Ltac call H :=
  eapply runs_conseq;
  [ apply H; st_simpl; try reflexivity; try assumption
  | cbv beta zeta; intros ? ? ? ?; post ].

Ltac quiet_log := split; [quiet_solve | log_solve].

Section WithFloat.
Context {F : Type} `{PyFloat F}.
Implicit Types (s : YY (F:=F)) (p : params (F:=F)).

Lemma new_gradient_102_spec l r i s :
  runs (YinYang102.new_gradient l r i) s
       (fun g s' out =>
          g = YinYang102.next_handle s
          /\ s' = YinYang102.with_next_handle s (S (YinYang102.next_handle s))
          /\ quiet out /\ gradient_log out = [Created g]).
Proof.
  unfold YinYang102.new_gradient. wp.
  split; [reflexivity | split; [reflexivity | quiet_log]].
Qed.

Lemma draw_side_102_spec c g pat i s :
  i = 0 \/ i = 1 ->
  (YY_mode s = 1 -> g <> None) ->
  runs (YinYang102.draw_side c g pat i) s
       (fun _ s' out => s' = s /\ quiet out /\ gradient_log out = []).
Proof.
  intros Hi Hg.
  unfold YinYang102.draw_side, YinYang102.draw_flow_selection, YinYang102.fill.
  destruct Hi as [-> | ->]; destruct g as [g |].
  all: wp.
  all: try (split; [reflexivity | quiet_log]).
  all: exfalso; apply Hg; [apply Z.eqb_eq; assumption | reflexivity].
Qed.

Lemma draw_flows_102_spec p c2 s :
  YY_mode s = mode p ->
  runs (YinYang102.draw_flows p c2) s
       (fun _ s' out =>
          YY_base s' = YY_base s /\ YY_rim_width s' = YY_rim_width s
          /\ quiet out
          /\ exists gs, gradient_log out = List.map Created gs
                        /\ List.length gs = gradient_count (mode p)).
Proof.
  intros Hm. unfold YinYang102.draw_flows, gradient_count. wp.
  - call new_gradient_102_spec. wp. call new_gradient_102_spec. wp.
    call draw_side_102_spec; [left; reflexivity | discriminate |].
    wp. call draw_side_102_spec; [right; reflexivity | discriminate |].
    wp. split; [reflexivity | split; [reflexivity | split; [quiet_solve |]]].
    eexists [_; _]. split; [log_solve | reflexivity].
  - assert (Hn : YY_mode s <> 1).
    { rewrite Hm. apply Z.eqb_neq. assumption. }
    call draw_side_102_spec; [left; reflexivity | intros E; destruct (Hn E) |].
    wp. call draw_side_102_spec; [right; reflexivity | intros E; destruct (Hn E) |].
    wp. split; [reflexivity | split; [reflexivity | split; [quiet_solve |]]].
    exists []. split; [log_solve | reflexivity].
Qed.

Lemma rim_stage_102_spec p s :
  runs (YinYang102.rim_stage p) s
       (fun _ s' out => s' = s /\ quiet out /\ gradient_log out = []).
Proof.
  unfold YinYang102.rim_stage, YinYang102.draw_rim, YinYang102.draw_flow_selection,
    YinYang102.fill.
  wp.
  all: split; [reflexivity | quiet_log].
Qed.

Lemma frame_102_spec rotation timer angle s :
  runs (YinYang102.frame rotation timer angle) s
       (fun _ _ out => quiet out /\ gradient_log out = []).
Proof. unfold YinYang102.frame. wp. quiet_log. Qed.

Lemma process_frame_count_102_spec p timer s :
  animation_ready p ->
  runs (YinYang102.process_frame_count p timer) s
       (fun _ _ out => quiet out /\ gradient_log out = []).
Proof.
  intros [Hd Hf]. unfold YinYang102.process_frame_count, colorsys.div.
  destruct (fltb (of_int 1) (frame_count p)) eqn:E; [| wp; quiet_log].
  rewrite (Hf eq_refl). cbn [lift]. apply runs_bind, runs_ret. cbv beta.
  assert (Hs : exists sign, getitem [1; -1] (direction p) = Some sign).
  { destruct Hd as [-> | ->]; eexists; reflexivity. }
  destruct Hs as [sign Hs].
  apply runs_bind. unfold YinYang102.pick. eapply runs_lift; [exact Hs |]. cbv beta.
  apply runs_bind.
  eapply runs_conseq.
  - apply (runs_for_in
             (fun _ angle => YinYang102.frame
                               (fmul (fdiv (of_int 360) (frame_count p))
                                     (of_int sign)) timer angle)
             (fun _ _ _ out => quiet out /\ gradient_log out = [])).
    + intros x rest acc s0 out [Hq Hl].
      eapply runs_conseq; [apply frame_102_spec |].
      cbv beta. intros ? ? ? [Hq' Hl']. quiet_log.
    + split; reflexivity.
  - cbv beta. intros ? ? ? [Hq Hl]. wp. quiet_log.
Qed.

Lemma finish_102_spec p timer s :
  animation_ready p ->
  runs (YinYang102.finish p timer) s
       (fun _ _ out => quiet out /\ gradient_log out = []).
Proof.
  intros Hr. unfold YinYang102.finish. wp.
  all: call process_frame_count_102_spec; quiet_log.
Qed.

Lemma draw_symbol_102_spec p c2 timer s :
  YY_mode s = mode p -> animation_ready p ->
  runs (YinYang102.draw_symbol p c2 timer) s
       (fun _ _ out =>
          quiet out
          /\ exists gs, gradient_log out = List.map Created gs
                        /\ List.length gs = gradient_count (mode p)).
Proof.
  intros Hm Hr. unfold YinYang102.draw_symbol. wp.
  call draw_flows_102_spec. wp. call rim_stage_102_spec. wp.
  eapply runs_conseq; [apply finish_102_spec; assumption |].
  cbv beta. intros ? ? ? [Hq Hl]. split; [quiet_solve |].
  eexists. split; [log_solve | assumption].
Qed.

Lemma render_yin_yang_102_spec p s :
  render_ready_102 p ->
  runs (YinYang102.render_yin_yang p) s
       (fun _ _ out =>
          one_undo_group out
          /\ exists gs, gradient_log out = List.map Created gs
                        /\ List.length gs = gradient_count (mode p)).
Proof.
  intros (He & Hc & Hr).
  unfold YinYang102.render_yin_yang, colorsys.div. rewrite He.
  destruct (FlowColor.set_colors_102 (mode p) (flow_color_1 p) (flow_color_2 p))
    as [c2 |] eqn:Ec; [| destruct (Hc eq_refl)].
  wp.
  all: eapply runs_conseq;
    [ apply draw_symbol_102_spec; [reflexivity | assumption] |].
  all: cbv beta; intros _ s' out (Hq & gs & Hl & Hn); wp.
  all: split;
    [ eexists [_; _; _; _; _], out, [gimp_context_pop];
      split; [reflexivity | split; [reflexivity | split; [exact Hq | reflexivity]]]
    | exists gs; split; [log_solve | exact Hn] ].
Qed.
End WithFloat.
End YinYang102Facts.

(** ** yin-yang-1-05: gradients *)

Module YinYangGradientFacts.
Import Undo UndoFacts YinYang YinYangSpec YinYangFacts.
Import GradientSpec GradientFacts.

Section WithFloat.
Context {F : Type} `{PyFloat F}.
Implicit Types (s : yy (F:=F)) (p : params (F:=F)).

Lemma new_gradient_log l r i s :
  runs (new_gradient l r i) s
       (fun g s' out =>
          s' = with_next_handle s (S (next_handle s))
          /\ gradient_log out = [Created g]).
Proof. unfold new_gradient. wp. split; reflexivity. Qed.

Lemma draw_side_log c g pat i s :
  i = 0 \/ i = 1 ->
  (yy_mode s = 1 -> g <> None) ->
  runs (draw_side c g pat i) s (fun _ s' out => s' = s /\ gradient_log out = []).
Proof.
  intros Hi Hg. unfold draw_side, draw_flow_selection, fill.
  destruct Hi as [-> | ->]; destruct g as [g |].
  all: wp.
  all: try (split; reflexivity).
  all: exfalso; apply Hg; [apply Z.eqb_eq; assumption | reflexivity].
Qed.

Lemma draw_flows_log p c2 s :
  yy_mode s = mode p ->
  runs (draw_flows p c2) s
       (fun gs _ out =>
          gradient_log out = List.map Created (present gs)
          /\ List.length (present gs) = gradient_count (mode p)).
Proof.
  intros Hm. unfold draw_flows, gradient_count. wp.
  - call new_gradient_log. wp. call new_gradient_log. wp.
    call draw_side_log; [left; reflexivity | discriminate |].
    wp. call draw_side_log; [right; reflexivity | discriminate |].
    wp. split; [log_solve | reflexivity].
  - assert (Hn : yy_mode s <> 1).
    { rewrite Hm. apply Z.eqb_neq. assumption. }
    call draw_side_log; [left; reflexivity | intros E; destruct (Hn E) |].
    wp. call draw_side_log; [right; reflexivity | intros E; destruct (Hn E) |].
    wp. split; [log_solve | reflexivity].
Qed.

Lemma rim_stage_log p s :
  runs (rim_stage p) s (fun _ _ out => gradient_log out = []).
Proof.
  unfold rim_stage, draw_rim, draw_flow_selection, fill. wp.
  all: reflexivity.
Qed.

Lemma frame_log rotation timer angle s :
  runs (frame rotation timer angle) s (fun _ _ out => gradient_log out = []).
Proof. unfold frame. wp. reflexivity. Qed.

Lemma process_frame_count_log p timer s :
  animation_ready p ->
  runs (process_frame_count p timer) s (fun _ _ out => gradient_log out = []).
Proof.
  intros [Hd Hf]. unfold process_frame_count, colorsys.div.
  destruct (fltb (of_int 1) (frame_count p)) eqn:E; [| wp; reflexivity].
  rewrite (Hf eq_refl). cbn [lift]. apply runs_bind, runs_ret. cbv beta.
  assert (Hs : exists sign, getitem [1; -1] (direction p) = Some sign).
  { destruct Hd as [-> | ->]; eexists; reflexivity. }
  destruct Hs as [sign Hs].
  apply runs_bind. unfold pick. eapply runs_lift; [exact Hs |]. cbv beta.
  apply runs_bind.
  eapply runs_conseq.
  - apply (runs_for_in
             (fun _ angle => frame (fmul (fdiv (of_int 360) (frame_count p))
                                         (of_int sign)) timer angle)
             (fun _ _ _ out => gradient_log out = [])).
    + intros x rest acc s0 out Hl.
      eapply runs_conseq; [apply frame_log |].
      cbv beta. intros ? ? ? Hl'. log_solve.
    + reflexivity.
  - cbv beta. intros ? ? ? Hl. wp. log_solve.
Qed.

Lemma finish_log p timer gs s :
  animation_ready p ->
  runs (finish p timer gs) s
       (fun _ _ out => gradient_log out = List.map Deleted (present gs)).
Proof.
  intros Hr. unfold finish, present. destruct gs as [[g1 |] [g2 |]]; cbn [fst snd].
  all: wp.
  all: call process_frame_count_log; wp; log_solve.
Qed.

Lemma draw_symbol_log p c2 timer s :
  yy_mode s = mode p -> animation_ready p ->
  runs (draw_symbol p c2 timer) s
       (fun _ _ out =>
          exists gs, gradient_log out = List.map Created gs ++ List.map Deleted gs
                     /\ List.length gs = gradient_count (mode p)).
Proof.
  intros Hm Hr. unfold draw_symbol. wp.
  eapply runs_conseq; [apply draw_flows_log; exact Hm |].
  cbv beta. intros gs s1 out1 [Hl Hn]. wp.
  eapply runs_conseq; [apply rim_stage_log |].
  cbv beta. intros ? s2 out2 Hl2.
  eapply runs_conseq; [apply finish_log; exact Hr |].
  cbv beta. intros ? s3 out3 Hl3.
  exists (present gs). split; [log_solve | exact Hn].
Qed.

Lemma render_yin_yang_log p s :
  render_ready p ->
  runs (render_yin_yang p) s
       (fun _ _ out =>
          exists gs, gradient_log out = List.map Created gs ++ List.map Deleted gs
                     /\ List.length gs = gradient_count (mode p)).
Proof.
  intros (He & Hc & Hr).
  unfold render_yin_yang, colorsys.div. rewrite He.
  destruct (FlowColor.set_colors_105 (mode p) (flow_color_1 p) (flow_color_2 p))
    as [c2 |] eqn:Ec; [| destruct (Hc eq_refl)].
  wp.
  all: eapply runs_conseq;
    [ apply draw_symbol_log; [reflexivity | assumption] |].
  all: cbv beta; intros _ s' out (gs & Hl & Hn); wp.
  all: exists gs; split; [log_solve | exact Hn].
Qed.
End WithFloat.
End YinYangGradientFacts.

(** ** Evenly spaced frames *)

Module TurnFacts.
Import Animation AnimationFacts RealFacts TurnSpec RaiseFacts.
Local Open Scope R_scope.

Lemma turns_apart_refl a : turns_apart a a.
Proof. exists 0%Z. lra. Qed.

Lemma turns_apart_trans a b c : turns_apart a b -> turns_apart b c -> turns_apart a c.
Proof.
  intros [k ->] [j ->]. exists (j + k)%Z. rewrite plus_IZR. lra.
Qed.

Lemma turns_apart_plus a b r : turns_apart a b -> turns_apart (a + r) (b + r).
Proof. intros [k ->]. exists k. lra. Qed.

Lemma keep_in_bounds_turn (a : R) : turns_apart (YinYang.keep_in_bounds a) a.
Proof.
  unfold YinYang.keep_in_bounds. cbn [fltb fadd of_int R_PyFloat]. unfold Rltb.
  destruct (Rlt_dec 180 a); [exists (-1)%Z; lra |].
  destruct (Rlt_dec a (-180)); [exists 1%Z; lra | apply turns_apart_refl].
Qed.

Lemma angles_from_nth n : forall (rotation angle base : R) (k : nat),
  turns_apart angle base -> (k < n)%nat ->
  exists a, nth_error (angles_from n rotation angle) k = Some a
            /\ turns_apart a (base + INR k * rotation).
Proof.
  induction n as [| n IH]; intros rotation angle base k Hb Hk; [lia |].
  cbn [angles_from]. destruct k as [| k].
  - exists (YinYang.keep_in_bounds angle). split; [reflexivity |].
    replace (base + INR 0 * rotation) with base by (cbn [INR]; lra).
    eapply turns_apart_trans; [apply keep_in_bounds_turn | exact Hb].
  - cbn [nth_error fadd R_PyFloat].
    destruct (IH rotation (YinYang.keep_in_bounds angle + rotation)
                 (base + rotation) k) as (a & Ha & Hturn).
    + apply turns_apart_plus.
      eapply turns_apart_trans; [apply keep_in_bounds_turn | exact Hb].
    + lia.
    + exists a. split; [exact Ha |].
      rewrite S_INR.
      replace (base + (INR k + 1) * rotation) with (base + rotation + INR k * rotation)
        by lra.
      exact Hturn.
Qed.

Lemma animation_angles_evenly_spaced (n direction : Z) :
  (2 <= n)%Z -> (direction = 0 \/ direction = 1)%Z ->
  evenly_spaced n direction (animation_angles (IZR n) direction).
Proof.
  intros Hn Hd k Hk.
  assert (E : animation_angles (IZR n) direction
              = angles_from (Z.to_nat (n - 1)) (step_angle n direction)
                            (step_angle n direction)).
  { unfold animation_angles, step_angle. cbn [fltb of_int to_int fmul fdiv R_PyFloat].
    rewrite Rltb_true by (apply IZR_lt; lia). rewrite R_to_int_IZR.
    destruct Hd as [-> | ->]; reflexivity. }
  rewrite E.
  destruct (angles_from_nth (Z.to_nat (n - 1)) (step_angle n direction)
              (step_angle n direction) (step_angle n direction) (Z.to_nat k)
              (turns_apart_refl _)) as (a & Ha & Hturn); [lia |].
  exists a. split.
  - replace k with (Z.of_nat (Z.to_nat k)) by lia.
    rewrite getitem_nth; [exact Ha |].
    rewrite length_angles_from. lia.
  - replace (IZR (k + 1) * step_angle n direction)
      with (step_angle n direction + INR (Z.to_nat k) * step_angle n direction);
      [exact Hturn |].
    rewrite INR_IZR_INZ, Z2Nat.id, plus_IZR by lia. lra.
Qed.
End TurnFacts.

(** ** The inputs of the dialog of yin-yang-1-02 *)

Module ReadyFacts.
Import FlowColor ColorSpec PolarSpec PolarFacts RealFacts YinYang YinYangSpec
       YinYang102Spec.

Lemma set_colors_102_total mode c1 c2 :
  in_gamut c1 -> set_colors_102 (F:=R) mode c1 c2 <> None.
Proof.
  intros Hc. unfold set_colors_102.
  destruct (mode =? 3); [discriminate |].
  destruct ((mode =? 2) || (mode =? 4)); [| discriminate].
  apply invert_channel_total, Hc.
Qed.

Lemma dialog_input_ready_102 (p : params (F:=R)) :
  dialog_input p -> render_ready_102 p.
Proof.
  intros (He & Hc & Hd). split; [| split; [| split]].
  - cbn [feqb of_int R_PyFloat]. apply Reqb_false. lra.
  - apply set_colors_102_total, Hc.
  - exact Hd.
  - cbn [fltb feqb of_int R_PyFloat]. unfold Rltb. intros Hf.
    destruct (Rlt_dec 1 (frame_count p)); [| discriminate Hf].
    apply Reqb_false. lra.
Qed.
End ReadyFacts.

(** ** The two sides of the yin-yang *)

Module SideFacts.
Import RealFacts YinYang YinYangSpec YinYangFacts SelectionSpec SelectionFacts.

Section WithFloat.
Context {F : Type} `{PyFloat F}.

Lemma draw_side_shapes c g pat i (s : yy (F:=F)) :
  i = 0 \/ i = 1 ->
  (yy_mode s = 1 -> g <> None) ->
  runs (draw_side c g pat i) s
       (fun _ _ out =>
          let center := of_int (yy_center s) in
          let eye_offset := fdiv (yy_head_diameter s) (of_int 2) in
          let flow := ((fadd FRAME_WIDTH (of_int (yy_rim_width s)),
                        fadd FRAME_WIDTH (of_int (yy_rim_width s))),
                       (of_int (yy_flow_size s), of_int (yy_flow_size s))) in
          let head y := ((fsub center (yy_head_radius s), y),
                         (yy_head_diameter s, yy_head_diameter s)) in
          let eye y := ((fsub center (yy_eye_radius s), y),
                        (yy_eye_diameter s, yy_eye_diameter s)) in
          let below := fsub (fadd center eye_offset) (yy_eye_radius s) in
          let above := fsub (fsub center eye_offset) (yy_eye_radius s) in
          selected CHANNEL_OP_REPLACE (ellipses out) = [flow]
          /\ selected CHANNEL_OP_ADD (ellipses out)
             = (if i =? 0 then [head center; eye above]
                else [head (yy_flow_offset s); eye below])
          /\ selected CHANNEL_OP_SUBTRACT (ellipses out)
             = (if i =? 0 then [head (yy_flow_offset s); eye below]
                else [head center; eye above])
          /\ rectangles out
             = [(CHANNEL_OP_SUBTRACT,
                 (((if i =? 0 then of_int 0 else center), of_int 0),
                  (center, of_int (yy_image_size s))))]).
Proof.
  intros Hi Hg. unfold draw_side, draw_flow_selection, fill.
  destruct Hi as [-> | ->]; destruct g as [g |].
  all: wp.
  all: try (cbv zeta; repeat split; reflexivity).
  all: exfalso; apply Hg; [apply Z.eqb_eq; assumption | reflexivity].
Qed.

Lemma draw_side_102_shapes c g pat i (s : YinYang102.YY (F:=F)) :
  i = 0 \/ i = 1 ->
  (YinYang102.YY_mode s = 1 -> g <> None) ->
  runs (YinYang102.draw_side c g pat i) s
       (fun _ _ out =>
          let center := of_int (YinYang102.YY_center s) in
          let eye_offset := fdiv (YinYang102.YY_head_diameter s) (of_int 2) in
          let flow := ((fadd YinYang102.border_f (YinYang102.YY_rim_width s),
                        fadd YinYang102.border_f (YinYang102.YY_rim_width s)),
                       (YinYang102.YY_flow_size s, YinYang102.YY_flow_size s)) in
          let head y := ((fsub center (YinYang102.YY_head_radius s), y),
                         (YinYang102.YY_head_diameter s,
                          YinYang102.YY_head_diameter s)) in
          let eye y := ((fsub center (YinYang102.YY_eye_radius s), y),
                        (YinYang102.YY_eye_diameter s, YinYang102.YY_eye_diameter s)) in
          let below := fsub (fadd center eye_offset) (YinYang102.YY_eye_radius s) in
          let above := fsub (fsub center eye_offset) (YinYang102.YY_eye_radius s) in
          selected CHANNEL_OP_REPLACE (ellipses out) = [flow]
          /\ selected CHANNEL_OP_ADD (ellipses out)
             = (if i =? 0 then [head center; eye above]
                else [head (YinYang102.YY_flow_offset s); eye below])
          /\ selected CHANNEL_OP_SUBTRACT (ellipses out)
             = (if i =? 0 then [head (YinYang102.YY_flow_offset s); eye below]
                else [head center; eye above])
          /\ rectangles out
             = [(CHANNEL_OP_SUBTRACT,
                 (((if i =? 0 then of_int 0 else center), of_int 0),
                  (center, of_int (YinYang102.YY_image_size s))))]).
Proof.
  intros Hi Hg.
  unfold YinYang102.draw_side, YinYang102.draw_flow_selection, YinYang102.fill.
  destruct Hi as [-> | ->]; destruct g as [g |].
  all: YinYang102Facts.wp.
  all: try (cbv zeta; repeat split; reflexivity).
  all: exfalso; apply Hg; [apply Z.eqb_eq; assumption | reflexivity].
Qed.
End WithFloat.

Local Open Scope R_scope.

(** Only zero is its own fourfold, cut to an integer. *)
Lemma fourfold_fixed (w : R) : IZR (R_to_int (w * 4)) = w <-> w = 0.
Proof.
  split.
  - intros E. remember (R_to_int (w * 4)) as z eqn:Hz.
    rewrite <- E in Hz.
    replace (IZR z * 4) with (IZR (z * 4)) in Hz by (rewrite mult_IZR; lra).
    rewrite R_to_int_IZR in Hz.
    assert (Ez : z = 0%Z) by lia.
    rewrite Ez in E. symmetry. exact E.
  - intros ->. replace (0 * 4) with (IZR 0) by lra. rewrite R_to_int_IZR. reflexivity.
Qed.

Lemma draw_side_picture (n : Z) (p : params (F:=R)) (e : R) (s0 : yy (F:=R))
      c g pat i :
  (i = 0 \/ i = 1)%Z ->
  (mode p = 1%Z -> g <> None) ->
  symbol_diameter p = IZR n ->
  rim_width p = 0 ->
  runs (draw_side c g pat i) (initialize p e s0)
       (fun _ _ out => side_picture i (IZR (2 * n + 2)) (IZR (4 * n)) (e * 2) out).
Proof.
  intros Hi Hg Hn Hw.
  eapply runs_conseq;
    [apply (draw_side_shapes c g pat i (initialize p e s0) Hi Hg) |].
  cbv beta zeta. intros _ _ out (R0 & A0 & S0 & _).
  unfold side_picture. rewrite R0, A0, S0. clear R0 A0 S0.
  unfold disc.
  cbn [initialize yy_rim_width yy_center yy_flow_size yy_head_diameter yy_head_radius
       yy_eye_radius yy_eye_diameter yy_flow_offset fst snd
       fadd fsub fmul fdiv of_int to_int R_PyFloat].
  unfold FRAME_WIDTH, FRAME_WIDTH_INT, SCALE. cbn [of_int R_PyFloat].
  rewrite Hn, Hw.
  replace (0 * 4) with (IZR 0) by lra.
  replace (IZR n * 4) with (IZR (n * 4)) by (rewrite mult_IZR; lra).
  rewrite !R_to_int_IZR.
  replace (n * 4 + 2 * 2)%Z with ((2 * n + 2) * 2)%Z by lia.
  rewrite Z.div_mul by lia.
  replace (n * 4 - 0 * 2)%Z with (4 * n)%Z by lia.
  repeat rewrite ?plus_IZR, ?minus_IZR, ?mult_IZR.
  destruct Hi as [-> | ->]; cbn [Z.eqb]; repeat split; shapes.
Qed.

Lemma draw_side_102_picture (n : Z) (p : params (F:=R)) (e : R)
      (t0 : YinYang102.YY (F:=R)) c g pat i :
  (i = 0 \/ i = 1)%Z ->
  (mode p = 1%Z -> g <> None) ->
  symbol_diameter p = IZR (2 * n) ->
  runs (YinYang102.draw_side c g pat i) (YinYang102.initialize p e t0)
       (fun _ _ out =>
          side_picture i (IZR (n + 2)) (IZR (2 * n) - rim_width p * 2) (e * 2) out).
Proof.
  intros Hi Hg Hn.
  eapply runs_conseq;
    [apply (draw_side_102_shapes c g pat i (YinYang102.initialize p e t0) Hi Hg) |].
  cbv beta zeta. intros _ _ out (R0 & A0 & S0 & _).
  unfold side_picture. rewrite R0, A0, S0. clear R0 A0 S0.
  unfold disc.
  cbn [YinYang102.initialize YinYang102.YY_rim_width YinYang102.YY_center
       YinYang102.YY_flow_size YinYang102.YY_head_diameter YinYang102.YY_head_radius
       YinYang102.YY_eye_radius YinYang102.YY_eye_diameter YinYang102.YY_flow_offset
       fst snd fadd fsub fmul fdiv of_int to_int R_PyFloat].
  unfold YinYang102.border_f, YinYang102.border_i. cbn [of_int R_PyFloat].
  rewrite Hn. rewrite !R_to_int_IZR.
  replace (2 * n + 2 * 2)%Z with ((n + 2) * 2)%Z by lia.
  rewrite Z.div_mul by lia.
  repeat rewrite ?plus_IZR, ?minus_IZR, ?mult_IZR.
  destruct Hi as [-> | ->]; cbn [Z.eqb]; repeat split; shapes.
Qed.
End SideFacts.

(** ** Flow Color 2 within the gamut *)

Module GamutFacts.
Import FlowColor ColorSpec PolarSpec RealFacts HLS HLSFacts PolarFacts YinYangSpec
       GamutSpec.
Local Open Scope R_scope.

Lemma R_mod1_range x : 0 <= R_mod1 x < 1.
Proof. unfold R_mod1. pose proof (base_Int_part x). lra. Qed.

Lemma tri_unit u : unit_range (tri u).
Proof.
  unfold tri, unit_range. pose proof (R_mod1_range u) as Hu. cbv zeta.
  destruct (Rlt_dec (R_mod1 u) (1 / 6)); [lra |].
  destruct (Rlt_dec (R_mod1 u) (1 / 2)); [lra |].
  destruct (Rlt_dec (R_mod1 u) (2 / 3)); lra.
Qed.

Lemma saturation_unit m M :
  0 <= m -> m < M -> M <= 1 -> unit_range (saturation m M).
Proof.
  intros H0 H1 H2. unfold saturation.
  destruct (Rle_dec ((m + M) / 2) (1 / 2)); apply ratio_unit; lra.
Qed.

Lemma ramp_between m1 m2 t :
  m1 <= m2 -> unit_range t -> m1 <= m1 + (m2 - m1) * t <= m2.
Proof. unfold unit_range. intros H1 Ht. split; nra. Qed.

Lemma hls_to_rgb_unit h l s :
  unit_range l -> unit_range s ->
  exists x y z, colorsys.hls_to_rgb h l s = (x, y, z)
                /\ unit_range x /\ unit_range y /\ unit_range z.
Proof.
  intros Hl Hs. destruct (Req_dec_T s 0) as [-> | Ns].
  - exists l, l, l. split; [| repeat split; apply Hl].
    unfold colorsys.hls_to_rgb. real_ops. rewrite (Reqb_true 0 0) by reflexivity.
    reflexivity.
  - rewrite (hls_to_rgb_colour h l s Ns). cbv zeta.
    do 3 eexists. split; [reflexivity |].
    assert (Hm : 0 <= 2 * l - M2 l s /\ 2 * l - M2 l s <= M2 l s /\ M2 l s <= 1).
    { unfold unit_range in Hl, Hs. unfold M2.
      destruct (Rle_dec l (1 / 2)); repeat split; nra. }
    destruct Hm as (H0 & H1 & H2).
    pose proof (ramp_between _ _ _ H1 (tri_unit (h + 1 / 3))).
    pose proof (ramp_between _ _ _ H1 (tri_unit h)).
    pose proof (ramp_between _ _ _ H1 (tri_unit (h - 1 / 3))).
    unfold unit_range. repeat split; lra.
Qed.

Lemma to_int_unit x : unit_range x -> (0 <= R_to_int (x * 255) <= 255)%Z.
Proof.
  intros [H0 H1]. unfold R_to_int.
  destruct (Rle_dec 0 (x * 255)) as [_ | N]; [| exfalso; apply N; lra].
  pose proof (base_Int_part (x * 255)) as [Hlo Hhi].
  split.
  - assert (H : IZR (-1) < IZR (Int_part (x * 255))) by lra.
    apply lt_IZR in H. lia.
  - apply le_IZR. lra.
Qed.

Lemma rgb_to_hls_unit r g b :
  unit_range r -> unit_range g -> unit_range b ->
  exists h l s, colorsys.rgb_to_hls r g b = Some (h, l, s)
                /\ unit_range l /\ unit_range s.
Proof.
  intros Hr Hg Hb.
  pose proof (max3_spec r g b) as HM. pose proof (min3_spec r g b) as Hm.
  cbv zeta in HM, Hm.
  destruct (Req_dec_T (colorsys.min3 r g b) (colorsys.max3 r g b)) as [E | N].
  - destruct (grey_components r g b E) as [-> ->].
    do 3 eexists. split; [apply rgb_to_hls_grey |].
    unfold unit_range in *. split; lra.
  - do 3 eexists. split; [apply rgb_to_hls_colour; assumption |].
    unfold unit_range in Hr, Hg, Hb.
    split; [unfold unit_range; lra | apply saturation_unit; lra].
Qed.

Lemma invert_channel_in_gamut ch c :
  in_gamut c -> exists d, invert_channel (F := R) ch c = Some d /\ in_gamut d.
Proof.
  destruct c as [[r g] b]. intros (Hr & Hg & Hb).
  unfold invert_channel. real_ops.
  destruct (rgb_to_hls_unit _ _ _ (unit_component _ Hr) (unit_component _ Hg)
              (unit_component _ Hb)) as (h & l & s & E & Hl & Hs).
  rewrite E.
  assert (Hl' : unit_range (1 - l)) by (unfold unit_range in *; lra).
  assert (Hs' : unit_range (1 - s)) by (unfold unit_range in *; lra).
  destruct ch.
  - destruct (hls_to_rgb_unit (1 - h) l s Hl Hs) as (x & y & z & E' & Hx & Hy & Hz).
    rewrite E'. eexists. split; [reflexivity |].
    repeat split; apply to_int_unit; assumption.
  - destruct (hls_to_rgb_unit h (1 - l) s Hl' Hs) as (x & y & z & E' & Hx & Hy & Hz).
    rewrite E'. eexists. split; [reflexivity |].
    repeat split; apply to_int_unit; assumption.
  - destruct (hls_to_rgb_unit h l (1 - s) Hl Hs') as (x & y & z & E' & Hx & Hy & Hz).
    rewrite E'. eexists. split; [reflexivity |].
    repeat split; apply to_int_unit; assumption.
Qed.

Lemma invert_rgb_in_gamut c : in_gamut c -> in_gamut (invert_rgb c).
Proof. destruct c as [[r g] b]. unfold in_gamut, invert_rgb. lia. Qed.

Lemma grid_keeps_gamut :
  forallb (fun c => keeps_gamut Hue c && keeps_gamut Lightness c
                    && keeps_gamut Saturation c) grid = true.
Proof. vm_compute. reflexivity. Qed.
End GamutFacts.

(** ** The fills of a flower *)

Module FillFacts.
Import Undo Flower ColorSpec FlowerSpec FlowerFacts FillSpec.

Lemma fill_colors_app a b : fill_colors (a ++ b) = fill_colors a ++ fill_colors b.
Proof. unfold fill_colors. apply flat_map_app. Qed.

Lemma color_pass_view p s :
  List.length (ring_center s) = 6%nat ->
  List.length (extra_ring s) = 12%nat ->
  List.length (ring_colors s) = 7%nat ->
  runs (color_pass p) s
       (fun _ s' out =>
          List.length (ring_center s') = 6%nat
          /\ List.length (extra_ring s') = 12%nat
          /\ List.length (ring_colors s') = 7%nat
          /\ frame_width s' = frame_width s
          /\ flower_type s' = flower_type s
          /\ ((mode p =? RANDOM_COLORS) = false ->
              ring_colors s' = ring_colors s /\ frame_color s' = frame_color s)
          /\ tr (ground (flower_type s)
                 ++ flower_view (nth 0 (ring_colors s') BLACK)
                      (nth 1 (ring_colors s') BLACK) (nth 2 (ring_colors s') BLACK)
                      (nth 3 (ring_colors s') BLACK) (nth 4 (ring_colors s') BLACK)
                      (nth 5 (ring_colors s') BLACK) (nth 6 (ring_colors s') BLACK)
                      (frame_color s') (frame_width s))
                out).
Proof.
  intros H6 H12 H7. open_state s. list_of_length cols H7.
  unfold color_pass, draw_gradient, make_new_layer, fill_layer, get_layer_by_name,
    ground.
  repeat (wp; try call_flower); wp.
  all: filled; repeat (split; [first [assumption | reflexivity] |]).
  all: (split; [first [intros E; discriminate E | intros _; split; reflexivity] |]).
  all: cbn [nth map seq]; tr_solve; cbn [view_event app]; rewrite ?app_nil_r;
    reflexivity.
Qed.

Lemma transfer_alpha_view s :
  runs transfer_alpha s
       (fun _ s' out => exists n, s' = with_next_handle s n /\ tr [] out).
Proof.
  unfold transfer_alpha, get_layer_by_name, info_msg. wp.
  eexists. split; [reflexivity | tr_solve].
Qed.

Ltac view_solve :=
  tr_solve; cbn [view_event app]; rewrite ?app_nil_r; reflexivity.

Lemma draw_symbol_view p s :
  List.length (ring_center s) = 6%nat ->
  List.length (extra_ring s) = 12%nat ->
  List.length (ring_colors s) = 7%nat ->
  runs (draw_symbol p) s
       (fun _ s' out =>
          frame_width s' = frame_width s
          /\ flower_type s' = flower_type s
          /\ List.length (ring_colors s') = 7%nat
          /\ ((mode p =? RANDOM_COLORS) = false ->
              ring_colors s' = ring_colors s /\ frame_color s' = frame_color s)
          /\ tr (symbol_view (mode p) (flower_type s) (frame_width s)
                   (ring_colors s') (frame_color s'))
                out).
Proof.
  intros H6 H12 H7.
  unfold draw_symbol, make_new_layer, fill_layer, get_layer_by_name,
    symbol_view, ground.
  wp.
  all: try (call color_pass_view; wp).
  all: repeat (wp; filled; try call_flower); wp.
  all: try (call transfer_alpha_view; wp).
  all: repeat (split; [first [assumption | reflexivity | split; reflexivity] |]).
  all: repeat match goal with
              | E : frame_width _ = frame_width _, H : tr _ _ |- _ =>
                  rewrite E in H
              | E : negb _ = _, H : tr (ground _ ++ _) _ |- _ =>
                  unfold ground in H; rewrite E in H
              end.
  all: view_solve.
Qed.

Lemma symbol_view_fills mode ft fw cols fc :
  List.length cols = 7%nat ->
  obs_fills (symbol_view mode ft fw cols fc) = render_fills mode ft fw cols fc.
Proof.
  intros H7. list_of_length cols H7.
  unfold symbol_view, render_fills, ground, flower_view, mask_view, frame_view,
    painting.
  destruct (mode =? 0), (ft =? LINES), (fw =? 0); reflexivity.
Qed.

Lemma render_flower_fills p s :
  lists_sized s ->
  runs (render_flower p) s
       (fun _ s' out =>
          fill_colors out
          = render_fills (mode p) (flower_part p) (frame_width s')
              (ring_colors s') (frame_color s')
          /\ frame_width s' = to_int (frame_w p * IZR SCALE)%R
          /\ ((mode p =? RANDOM_COLORS) = false ->
              ring_colors s' = [color1 p; color2 p; color3 p; color4 p;
                                color5 p; color6 p; color7 p]
              /\ frame_color s' = frame_col p)).
Proof.
  intros [H6 H12]. unfold render_flower. wp.
  eapply runs_conseq;
    [ apply draw_symbol_view; unfold init_globals; st_simpl;
      first [assumption | reflexivity] |].
  cbv beta. intros _ s' out (Hfw & _ & H7 & Hc & [_ Hv]). wp.
  unfold init_globals in Hfw, Hc, Hv. st_simpl.
  split; [| split; [exact Hfw | exact Hc]].
  rewrite !fill_colors_app. cbn [fill_colors flat_map app].
  rewrite app_nil_r. fold (fill_colors out).
  rewrite fill_colors_view, Hv, Hfw. apply symbol_view_fills, H7.
Qed.
End FillFacts.

(** ** What the sides and the rim are painted with *)

Module PaintFacts.
Import PaintSpec.

Lemma paint_calls_app {F} (a b : list (call F)) :
  paint_calls (a ++ b) = paint_calls a ++ paint_calls b.
Proof.
  induction a as [| c a IH]; [reflexivity |].
  destruct c; cbn [paint_calls app]; rewrite IH; reflexivity.
Qed.

Ltac paint_solve :=
  rewrite ?paint_calls_app; cbn [paint_calls app];
  repeat match goal with
         | H : paint_calls _ = _ |- _ => rewrite H
         end;
  cbn [app]; rewrite ?app_nil_r; try reflexivity.

Lemma succ_neqb (n : nat) : Nat.eqb (S n) n = false.
Proof. apply Nat.eqb_neq. lia. Qed.

Lemma paints_of_calls mode pm n c1 c2 pat1 pat2 no_rim rc :
  paints_from empty_context
    (flows_calls mode pm n c1 c2 pat1 pat2 ++ rim_calls no_rim rc)
  = side_paints mode pm c1 c2 pat1 pat2 ++ rim_paint no_rim rc.
Proof.
  unfold flows_calls, side_calls, rim_calls, side_paints, rim_paint,
    empty_context.
  destruct (mode =? 1), (mode =? pm), no_rim;
    cbn [app paints_from end_of end_color ctx_foreground ctx_pattern
         ctx_gradient ctx_lefts ctx_rights];
    rewrite ?Nat.eqb_refl, ?succ_neqb; reflexivity.
Qed.
End PaintFacts.

Module Paint105Facts.
Import Undo UndoFacts YinYang YinYangSpec YinYangFacts.
Import PaintSpec PaintFacts.

Section WithFloat.
Context {F : Type} `{PyFloat F}.
Implicit Types (s : yy (F:=F)) (p : params (F:=F)).

Lemma new_gradient_paint l r i s :
  runs (new_gradient l r i) s
       (fun g s' out =>
          g = next_handle s
          /\ s' = with_next_handle s (S (next_handle s))
          /\ paint_calls out = [SetRight g r; SetLeft g l]).
Proof. unfold new_gradient. wp. repeat split. Qed.

Lemma draw_side_paint c g pat i s :
  i = 0 \/ i = 1 ->
  (yy_mode s = 1 -> g <> None) ->
  runs (draw_side c g pat i) s
       (fun _ s' out =>
          s' = s /\ paint_calls out = side_calls (yy_mode s) 6 c g pat).
Proof.
  intros Hi Hg.
  unfold draw_side, draw_flow_selection, fill, side_calls,
    FlowColor.YY_GRADIENT, FlowColor.YY_PATTERN.
  destruct Hi as [-> | ->]; destruct g as [g |].
  all: wp.
  all: try (split; reflexivity).
  all: exfalso; apply Hg; [apply Z.eqb_eq; assumption | reflexivity].
Qed.

Lemma draw_flows_paint p c2 s :
  yy_mode s = mode p ->
  runs (draw_flows p c2) s
       (fun _ s' out =>
          yy_rim_width s' = yy_rim_width s
          /\ exists n, paint_calls out
                       = flows_calls (mode p) 6 n (flow_color_1 p) c2
                           (flow_pattern_1 p) (flow_pattern_2 p)).
Proof.
  intros Hm. unfold draw_flows, flows_calls. wp.
  - call new_gradient_paint. wp. call new_gradient_paint. wp.
    call draw_side_paint; [left; reflexivity | discriminate |].
    wp. call draw_side_paint; [right; reflexivity | discriminate |].
    wp. split; [reflexivity |]. exists (next_handle s).
    rewrite <- Hm. paint_solve.
  - assert (Hn : yy_mode s <> 1).
    { rewrite Hm. apply Z.eqb_neq. assumption. }
    call draw_side_paint; [left; reflexivity | intros E; destruct (Hn E) |].
    wp. call draw_side_paint; [right; reflexivity | intros E; destruct (Hn E) |].
    wp. split; [reflexivity |]. exists 0%nat.
    rewrite <- Hm. paint_solve.
    unfold side_calls. rewrite Hm, Heqb. reflexivity.
Qed.

Lemma rim_stage_paint p s :
  runs (rim_stage p) s
       (fun _ _ out =>
          paint_calls out = rim_calls (yy_rim_width s =? 0) (rim_color p)).
Proof.
  unfold rim_stage, draw_rim, draw_flow_selection, fill, rim_calls.
  apply runs_bind, runs_get. cbv beta.
  destruct (yy_rim_width s =? 0); cbn [negb]; wp; reflexivity.
Qed.

Lemma frame_paint rotation timer angle s :
  runs (frame rotation timer angle) s (fun _ _ out => paint_calls out = []).
Proof. unfold frame. wp. reflexivity. Qed.

Lemma process_frame_count_paint p timer s :
  animation_ready p ->
  runs (process_frame_count p timer) s (fun _ _ out => paint_calls out = []).
Proof.
  intros [Hd Hf]. unfold process_frame_count, colorsys.div.
  destruct (fltb (of_int 1) (frame_count p)) eqn:E; [| wp; reflexivity].
  rewrite (Hf eq_refl). cbn [lift]. apply runs_bind, runs_ret. cbv beta.
  assert (Hs : exists sign, getitem [1; -1] (direction p) = Some sign).
  { destruct Hd as [-> | ->]; eexists; reflexivity. }
  destruct Hs as [sign Hs].
  apply runs_bind. unfold pick. eapply runs_lift; [exact Hs |]. cbv beta.
  apply runs_bind.
  eapply runs_conseq.
  - apply (runs_for_in
             (fun _ angle => frame (fmul (fdiv (of_int 360) (frame_count p))
                                         (of_int sign)) timer angle)
             (fun _ _ _ out => paint_calls out = [])).
    + intros x rest acc s0 out Hl.
      eapply runs_conseq; [apply frame_paint |].
      cbv beta. intros ? ? ? Hl'. paint_solve.
    + reflexivity.
  - cbv beta. intros ? ? ? Hl. wp. paint_solve.
Qed.

Lemma finish_paint p timer gs s :
  animation_ready p ->
  runs (finish p timer gs) s (fun _ _ out => paint_calls out = []).
Proof.
  intros Hr. unfold finish. destruct gs as [[g1 |] [g2 |]]; cbn [fst snd].
  all: wp.
  all: call process_frame_count_paint; wp; paint_solve.
Qed.

Lemma draw_symbol_paint p c2 timer s :
  yy_mode s = mode p -> animation_ready p ->
  runs (draw_symbol p c2 timer) s
       (fun _ _ out =>
          paints out
          = side_paints (mode p) 6 (flow_color_1 p) c2
              (flow_pattern_1 p) (flow_pattern_2 p)
            ++ rim_paint (yy_rim_width s =? 0) (rim_color p)).
Proof.
  intros Hm Hr. unfold draw_symbol. wp.
  eapply runs_conseq; [apply draw_flows_paint; exact Hm |].
  cbv beta. intros gs s1 out1 (Hw & n & Hl). wp.
  eapply runs_conseq; [apply rim_stage_paint |].
  cbv beta. intros ? s2 out2 Hl2.
  eapply runs_conseq; [apply finish_paint; exact Hr |].
  cbv beta. intros ? s3 out3 Hl3.
  unfold paints. rewrite !paint_calls_app, Hl, Hl2, Hl3, app_nil_r, Hw.
  apply paints_of_calls.
Qed.

Lemma render_yin_yang_paint p s :
  render_ready p ->
  runs (render_yin_yang p) s
       (fun _ _ out =>
          exists c2,
            FlowColor.set_colors_105 (mode p) (flow_color_1 p) (flow_color_2 p)
            = Some c2
            /\ paints out
               = side_paints (mode p) FlowColor.YY_PATTERN (flow_color_1 p) c2
                   (flow_pattern_1 p) (flow_pattern_2 p)
                 ++ rim_paint (to_int (fmul (rim_width p) (of_int SCALE)) =? 0)
                      (rim_color p)).
Proof.
  intros (He & Hc & Hr).
  unfold render_yin_yang, colorsys.div. rewrite He.
  destruct (FlowColor.set_colors_105 (mode p) (flow_color_1 p) (flow_color_2 p))
    as [c2 |] eqn:Ec; [| destruct (Hc eq_refl)].
  wp.
  all: eapply runs_conseq;
    [ apply draw_symbol_paint; [reflexivity | assumption] |].
  all: cbv beta; intros _ s' out Hp; wp.
  all: exists c2; split; [reflexivity |].
  all: transitivity (paints out); [| exact Hp].
  all: unfold paints; rewrite ?paint_calls_app; cbn [paint_calls app];
    rewrite ?app_nil_r; reflexivity.
Qed.
End WithFloat.
End Paint105Facts.

Module Paint102Facts.
Import Undo UndoFacts YinYang YinYangSpec YinYang102 YinYang102Spec.
Import YinYang102Facts PaintSpec PaintFacts.

Section WithFloat.
Context {F : Type} `{PyFloat F}.
Implicit Types (s : YY (F:=F)) (p : params (F:=F)).

Lemma new_gradient_102_paint l r i s :
  runs (YinYang102.new_gradient l r i) s
       (fun g s' out =>
          g = YinYang102.next_handle s
          /\ s' = YinYang102.with_next_handle s (S (YinYang102.next_handle s))
          /\ paint_calls out = [SetRight g r; SetLeft g l]).
Proof. unfold YinYang102.new_gradient. wp. repeat split. Qed.

Lemma draw_side_102_paint c g pat i s :
  i = 0 \/ i = 1 ->
  (YY_mode s = 1 -> g <> None) ->
  runs (YinYang102.draw_side c g pat i) s
       (fun _ s' out =>
          s' = s /\ paint_calls out = side_calls (YY_mode s) 5 c g pat).
Proof.
  intros Hi Hg.
  unfold YinYang102.draw_side, YinYang102.draw_flow_selection, YinYang102.fill,
    side_calls.
  destruct Hi as [-> | ->]; destruct g as [g |].
  all: wp.
  all: try (split; reflexivity).
  all: exfalso; apply Hg; [apply Z.eqb_eq; assumption | reflexivity].
Qed.

Lemma draw_flows_102_paint p c2 s :
  YY_mode s = mode p ->
  runs (YinYang102.draw_flows p c2) s
       (fun _ s' out =>
          YY_rim_width s' = YY_rim_width s
          /\ exists n, paint_calls out
                       = flows_calls (mode p) 5 n (flow_color_1 p) c2
                           (flow_pattern_1 p) (flow_pattern_2 p)).
Proof.
  intros Hm. unfold YinYang102.draw_flows, flows_calls. wp.
  - call new_gradient_102_paint. wp. call new_gradient_102_paint. wp.
    call draw_side_102_paint; [left; reflexivity | discriminate |].
    wp. call draw_side_102_paint; [right; reflexivity | discriminate |].
    wp. split; [reflexivity |]. exists (YinYang102.next_handle s).
    rewrite <- Hm. paint_solve.
  - assert (Hn : YY_mode s <> 1).
    { rewrite Hm. apply Z.eqb_neq. assumption. }
    call draw_side_102_paint; [left; reflexivity | intros E; destruct (Hn E) |].
    wp. call draw_side_102_paint; [right; reflexivity | intros E; destruct (Hn E) |].
    wp. split; [reflexivity |]. exists 0%nat.
    rewrite <- Hm. paint_solve.
    unfold side_calls. rewrite Hm, Heqb. reflexivity.
Qed.

Lemma rim_stage_102_paint p s :
  runs (YinYang102.rim_stage p) s
       (fun _ _ out =>
          paint_calls out
          = rim_calls (feqb (YY_rim_width s) (of_int 0)) (rim_color p)).
Proof.
  unfold YinYang102.rim_stage, YinYang102.draw_rim,
    YinYang102.draw_flow_selection, YinYang102.fill, rim_calls.
  apply runs_bind, runs_get. cbv beta.
  destruct (feqb (YY_rim_width s) (of_int 0)); cbn [negb]; wp; reflexivity.
Qed.

Lemma frame_102_paint rotation timer angle s :
  runs (YinYang102.frame rotation timer angle) s
       (fun _ _ out => paint_calls out = []).
Proof. unfold YinYang102.frame. wp. reflexivity. Qed.

Lemma process_frame_count_102_paint p timer s :
  animation_ready p ->
  runs (YinYang102.process_frame_count p timer) s
       (fun _ _ out => paint_calls out = []).
Proof.
  intros [Hd Hf]. unfold YinYang102.process_frame_count, colorsys.div.
  destruct (fltb (of_int 1) (frame_count p)) eqn:E; [| wp; reflexivity].
  rewrite (Hf eq_refl). cbn [lift]. apply runs_bind, runs_ret. cbv beta.
  assert (Hs : exists sign, getitem [1; -1] (direction p) = Some sign).
  { destruct Hd as [-> | ->]; eexists; reflexivity. }
  destruct Hs as [sign Hs].
  apply runs_bind. unfold YinYang102.pick. eapply runs_lift; [exact Hs |]. cbv beta.
  apply runs_bind.
  eapply runs_conseq.
  - apply (runs_for_in
             (fun _ angle => YinYang102.frame
                               (fmul (fdiv (of_int 360) (frame_count p))
                                     (of_int sign)) timer angle)
             (fun _ _ _ out => paint_calls out = [])).
    + intros x rest acc s0 out Hl.
      eapply runs_conseq; [apply frame_102_paint |].
      cbv beta. intros ? ? ? Hl'. paint_solve.
    + reflexivity.
  - cbv beta. intros ? ? ? Hl. wp. paint_solve.
Qed.

Lemma finish_102_paint p timer s :
  animation_ready p ->
  runs (YinYang102.finish p timer) s (fun _ _ out => paint_calls out = []).
Proof.
  intros Hr. unfold YinYang102.finish. wp.
  all: call process_frame_count_102_paint; paint_solve.
Qed.

Lemma draw_symbol_102_paint p c2 timer s :
  YY_mode s = mode p -> animation_ready p ->
  runs (YinYang102.draw_symbol p c2 timer) s
       (fun _ _ out =>
          paints out
          = side_paints (mode p) 5 (flow_color_1 p) c2
              (flow_pattern_1 p) (flow_pattern_2 p)
            ++ rim_paint (feqb (YY_rim_width s) (of_int 0)) (rim_color p)).
Proof.
  intros Hm Hr. unfold YinYang102.draw_symbol. wp.
  eapply runs_conseq; [apply draw_flows_102_paint; exact Hm |].
  cbv beta. intros gs s1 out1 (Hw & n & Hl). wp.
  eapply runs_conseq; [apply rim_stage_102_paint |].
  cbv beta. intros ? s2 out2 Hl2.
  eapply runs_conseq; [apply finish_102_paint; exact Hr |].
  cbv beta. intros ? s3 out3 Hl3.
  unfold paints. rewrite !paint_calls_app, Hl, Hl2, Hl3, app_nil_r, Hw.
  apply paints_of_calls.
Qed.

Lemma render_yin_yang_102_paint p s :
  render_ready_102 p ->
  runs (YinYang102.render_yin_yang p) s
       (fun _ _ out =>
          exists c2,
            FlowColor.set_colors_102 (mode p) (flow_color_1 p) (flow_color_2 p)
            = Some c2
            /\ paints out
               = side_paints (mode p) 5 (flow_color_1 p) c2
                   (flow_pattern_1 p) (flow_pattern_2 p)
                 ++ rim_paint (feqb (rim_width p) (of_int 0)) (rim_color p)).
Proof.
  intros (He & Hc & Hr).
  unfold YinYang102.render_yin_yang, colorsys.div. rewrite He.
  destruct (FlowColor.set_colors_102 (mode p) (flow_color_1 p) (flow_color_2 p))
    as [c2 |] eqn:Ec; [| destruct (Hc eq_refl)].
  wp.
  all: eapply runs_conseq;
    [ apply draw_symbol_102_paint; [reflexivity | assumption] |].
  all: cbv beta; intros _ s' out Hp; wp.
  all: exists c2; split; [reflexivity |].
  all: transitivity (paints out); [| exact Hp].
  all: unfold paints; rewrite ?paint_calls_app; cbn [paint_calls app];
    rewrite ?app_nil_r; reflexivity.
Qed.
End WithFloat.
End Paint102Facts.

(* ================================================================== *)
(** * The properties C1 to C10 *)
(* ================================================================== *)

Section Properties.
Import Undo Frame FlowColor ColorSpec PolarSpec HLS Animation.
Import RealFacts PolarFacts UndoFacts AnimationFacts FrameFacts.

Section FlowerProperties.
Import Flower FlowerSpec FlowerFacts.

(** C1: [get_point_on_circle] returns the focus moved right by the
    sine of the angle times the radius and up by the cosine of the
    angle times the radius; at angle zero that is the point straight
    above the focus; and around (0, 0) with radius 10 the points at
    0, 60, 120, 180, 240 and 300 degrees are, to two decimals,
    (0, -10), (8.66, -5), (8.66, 5), (0, 10), (-8.66, 5) and
    (-8.66, -5). *)
Theorem get_point_on_circle_spec :
  (forall fx fy a r : R,
      get_point_on_circle (fx, fy) a r
      = (fx + sin a * r, fy - cos a * r)%R)
  /\ (forall fx fy r : R,
         get_point_on_circle (fx, fy) 0 r = (fx, fy - r)%R)
  /\ Forall2 agree_2_decimals
       (List.map (fun d => get_point_on_circle (0, 0)%R (degrees d) 10)
                 [0; 60; 120; 180; 240; 300])
       hexagon_10.
Proof.
  split; [| split].
  - intros. unfold get_point_on_circle. cbn [fst snd]. f_equal; ring.
  - intros. unfold get_point_on_circle. cbn [fst snd].
    rewrite sin_0, cos_0. f_equal; ring.
  - pose proof sqrt3_bounds as [Hlo Hhi].
    unfold hexagon_10, degrees, get_point_on_circle, agree_2_decimals.
    cbn [List.map fst snd].
    replace (0 * (PI / 180))%R with 0%R by field.
    replace (60 * (PI / 180))%R with (PI / 3)%R by field.
    replace (120 * (PI / 180))%R with (2 * (PI / 3))%R by field.
    replace (180 * (PI / 180))%R with PI by field.
    replace (240 * (PI / 180))%R with (4 * (PI / 3))%R by field.
    replace (300 * (PI / 180))%R with (5 * (PI / 3))%R by field.
    rewrite sin_0, cos_0, sin_PI3, cos_PI3, sin_2PI3, cos_2PI3, sin_PI, cos_PI,
      sin_4PI3, cos_4PI3, sin_5PI3, cos_5PI3.
    repeat constructor; cbn [fst snd]; apply Rabs_def1; lra.
Qed.

(** C2: in the inner loop of the third perimeter pass of
    [draw_6th_ring], a subscript [i + k] above 11 is replaced by 0
    (with [k] zero from then on), and any other is kept; and
    [draw_6th_ring], run once the third ring has put its points into
    [ring_center], raises nothing and reads [extra_ring] at the
    subscripts 0, 1, 2, 2, 3, 4, 4, 5, 6, 6, 7, 8, 8, 9, 10, 10, 11,
    0, in this order, all of them between 0 and 11. *)
Theorem draw_6th_ring_reads_in_bounds (c : color) (s : state) :
  ring_center_filled s ->
  (forall angle1 angle2 i k,
      11 < i + k ->
      clamped_circle angle1 angle2 c i k
      = bind (perimeter_circle 0 angle1 angle2 c) (fun _ => ret 0))
  /\ (forall angle1 angle2 i k,
         i + k <= 11 ->
         clamped_circle angle1 angle2 c i k
         = bind (perimeter_circle (i + k) angle1 angle2 c) (fun _ => ret k))
  /\ exists s' out,
      draw_6th_ring c s = Some (tt, s', out)
      /\ extra_reads out = perimeter_subscripts
      /\ Forall (fun i => 0 <= i <= 11) (extra_reads out).
Proof.
  intros (H6 & Hp & H12). split; [| split].
  - intros a1 a2 i k Hik. unfold clamped_circle.
    replace (i + k >? 11) with true by (symmetry; apply Z.gtb_lt; lia).
    reflexivity.
  - intros a1 a2 i k Hik. unfold clamped_circle.
    replace (i + k >? 11) with false by (symmetry; rewrite Z.gtb_ltb; apply Z.ltb_ge; lia).
    reflexivity.
  - destruct (draw_6th_ring_spec c s H6 Hp H12)
      as ([] & s' & out & Hrun & er & _ & _ & _ & Hok & Hview).
    exists s', out. split; [exact Hrun | split].
    + rewrite extra_reads_view, Hview. reflexivity.
    + apply extra_reads_in_range, Hok.
Qed.

Lemma draw_6th_ring_reads_in_bounds_witness :
  ring_center_filled sample_state
  /\ exists s' out,
      draw_6th_ring WHITE sample_state = Some (tt, s', out)
      /\ extra_reads out = perimeter_subscripts
      /\ Forall (fun i => 0 <= i <= 11) (extra_reads out).
Proof.
  assert (H : ring_center_filled sample_state)
    by (split; [reflexivity | split; reflexivity]).
  split; [exact H |].
  apply (draw_6th_ring_reads_in_bounds WHITE sample_state H).
Defined.

(** C3: the block of [render_flower] for Random Colors, run after the
    globals are set, raises nothing; it leaves seven ring colours
    whose components are the values of its 21 calls of
    [random.randint(0, 255)], in order, each between 0 and 255 (and
    each number from 0 to 255 is the value of a call when the
    generator yields it; how often it does is the generator's
    business); and it sets each component of the frame colour to the
    sum of that component over the seven colours, divided by 7 and
    cut to an integer. *)
Theorem random_colors_mean (p : params) (s : state) :
  let s0 := init_globals p s in
  (forall k,
      randint 0 255 (with_random_pos s0 (k + random_pos s0)%nat)
      = Some (drawn s0 k, with_random_pos s0 (S (k + random_pos s0)), []))
  /\ (forall k v,
         0 <= v <= 255 -> random_raw s0 (k + random_pos s0)%nat = v -> drawn s0 k = v)
  /\ exists s',
      random_colors s0 = Some (tt, s', [])
      /\ ring_colors s' = List.map (random_color s0) (seq 0 7)
      /\ Forall in_gamut (ring_colors s')
      /\ frame_color s' = mean_color (ring_colors s').
Proof.
  intros s0. split; [| split].
  - intros k. unfold randint, drawn. st_simpl. reflexivity.
  - intros k v Hv E. unfold drawn. rewrite E, Z.mod_small by lia. lia.
  - assert (H7 : List.length (ring_colors s0) = 7%nat) by reflexivity.
    destruct (random_colors_spec s0 H7) as ([] & s' & out & Hrun & Hs' & ->).
    cbv zeta in Hs'. exists s'. split; [exact Hrun |].
    assert (Hc : ring_colors s' = List.map (random_color s0) (seq 0 7))
      by (rewrite Hs'; reflexivity).
    assert (Hg : Forall in_gamut (List.map (random_color s0) (seq 0 7))).
    { apply Forall_map, Forall_forall. intros i _. unfold in_gamut, random_color.
      pose proof (drawn_range s0 (3 * i)). pose proof (drawn_range s0 (3 * i + 1)).
      pose proof (drawn_range s0 (3 * i + 2)). tauto. }
    split; [exact Hc | split; [rewrite Hc; exact Hg |]].
    rewrite Hc. rewrite Hs'. st_simpl. unfold mean_color.
    assert (Hf : forall f : color -> Z,
               (forall c, in_gamut c -> 0 <= f c) ->
               total f (List.map (random_color s0) (seq 0 7)) / 7
               = Z.quot (total f (List.map (random_color s0) (seq 0 7))) 7).
    { intros f Hpos. symmetry. apply Z.quot_div_nonneg; [| lia].
      apply total_nonneg. eapply Forall_impl; [| exact Hg].
      intros c. apply Hpos. }
    rewrite !Hf; [reflexivity | | |].
    all: intros [[r g] b]; unfold in_gamut, red, green, blue; cbn [fst snd]; lia.
Qed.

(** C6: six steps of [DEGREE_60] from zero bring [get_point_on_circle]
    back to the first point of the ring, the one at angle zero, which
    lies straight above the centre: along either axis the two points
    are no further apart than 0.00002 times the radius.  The loop of
    [draw_1st_ring], entered with angle zero, leaves that angle and
    that point in its locals. *)
Theorem ring_closes_after_six_steps :
  (forall fx fy r : R,
      get_point_on_circle (fx, fy) 0 r = (fx, fy - r)%R
      /\ closes_within (2 / 100000) r
           (get_point_on_circle (fx, fy) full_turn r)
           (get_point_on_circle (fx, fy) 0 r))
  /\ (forall (c : color) (x y : R) (s : state),
         exists s' out,
           ring_1_loop c (x, y, 0%R) s
           = Some (get_point_on_circle (focus s) full_turn (IZR (circle_radius s)),
                   full_turn, s', out)).
Proof.
  split.
  - intros fx fy r. split; [| apply ring_closes].
    unfold get_point_on_circle. cbn [fst snd]. rewrite sin_0, cos_0.
    f_equal; ring.
  - intros c x y s.
    destruct (ring_1_loop_spec c x y 0%R s)
      as ([[x' y'] a'] & s' & out & Hrun & _ & _ & Ha & Hxy).
    exists s', out. rewrite Hrun. fold full_turn in Ha. subst a'.
    rewrite <- Hxy. reflexivity.
Qed.


End FlowerProperties.

Section YinYangProperties.
Import YinYang YinYangSpec YinYangFacts.
Import FlowerSpec FlowerFacts.




(** C5.  In yin-yang-1-05 the options named Polar Color, Polar Hue,
    Polar Lightness and Polar Saturation stand at the subscripts 2, 3,
    4 and 5 of the Mode list, and the values 2, 3, 4 and 5 of [mode]
    invert the components, the hue, the lightness and the saturation
    of Flow Color 1; the result does not depend on Flow Color 2.  In
    yin-yang-1-02 the option named Polar Lightness stands at
    subscript 3, and the value 3 of [mode] inverts the components:
    red becomes (0, 255, 255), where inverting its lightness gives
    red. *)
Theorem color_switch_by_option_name {F : Type} `{PyFloat F} (c1 c2 : color) :
  (nth_error mode_options_105 2 = Some "Flow Color 1 and Polar Color"%string
   /\ set_colors_105 2 c1 c2 = Some (invert_rgb c1))
  /\ (nth_error mode_options_105 3 = Some "Flow Color 1 and Polar Hue"%string
      /\ set_colors_105 3 c1 c2 = invert_channel Hue c1)
  /\ (nth_error mode_options_105 4 = Some "Flow Color 1 and Polar Lightness"%string
      /\ set_colors_105 4 c1 c2 = invert_channel Lightness c1)
  /\ (nth_error mode_options_105 5 = Some "Flow Color 1 and Polar Saturation"%string
      /\ set_colors_105 5 c1 c2 = invert_channel Saturation c1)
  /\ (nth_error mode_options_102 2 = Some "Flow Color 1 and Polar Hue"%string
      /\ set_colors_102 2 c1 c2 = invert_channel Hue c1)
  /\ (nth_error mode_options_102 4 = Some "Flow Color 1 and Polar Saturation"%string
      /\ set_colors_102 4 c1 c2 = invert_channel Saturation c1)
  /\ (nth_error mode_options_102 3 = Some "Flow Color 1 and Polar Lightness"%string
      /\ set_colors_102 3 c1 c2 = Some (invert_rgb c1))
  /\ set_colors_102 (F:=float) 3 (255, 0, 0) c2 = Some (0, 255, 255)
  /\ invert_channel (F:=float) Lightness (255, 0, 0) = Some (255, 0, 0)
  /\ invert_channel (F:=R) Lightness (255, 0, 0) = Some (255, 0, 0).
Proof.
  repeat split; try reflexivity.
  rewrite invert_lightness by (unfold in_gamut; lia). reflexivity.
Qed.

(** C8.  A call of [render_flower], with the two module-level lists
    of the sizes the module gives them, and a call of
    [render_yin_yang] of yin-yang-1-05, on an input on which it
    raises nothing, each issue one [gimp_image_undo_group_start] and
    one [gimp_image_undo_group_end]: no selection, fill, merge or
    transform is called before the first or after the second, and
    neither is called again between them.  In exact arithmetic
    [render_yin_yang] raises nothing on any input of its dialog. *)
Theorem render_forms_one_undo_group {F : Type} `{PyFloat F}
        (p : Flower.params) (s : Flower.state)
        (q : params (F:=F)) (t : yy (F:=F)) :
  lists_sized s ->
  render_ready q ->
  (exists out, calls (Flower.render_flower p) s = Some out
               /\ one_undo_group (Flower.host_calls out))
  /\ (exists out, calls (render_yin_yang q) t = Some out
                  /\ one_undo_group out)
  /\ (forall q' : params (F:=R), dialog_input q' -> render_ready q').
Proof.
  intros Hs Hq. split; [| split].
  - apply render_flower_one_undo_group, Hs.
  - apply render_yin_yang_one_undo_group, Hq.
  - exact dialog_input_ready.
Qed.

Lemma render_forms_one_undo_group_witness :
  lists_sized FlowerSpec.sample_state
  /\ render_ready sample_params
  /\ (exists out, calls (Flower.render_flower sample_flower_params)
                        FlowerSpec.sample_state = Some out
                  /\ one_undo_group (Flower.host_calls out))
  /\ (exists out, calls (render_yin_yang sample_params) initial_yy = Some out
                  /\ one_undo_group out).
Proof.
  assert (Hs : lists_sized FlowerSpec.sample_state) by (split; reflexivity).
  assert (Hq : render_ready sample_params).
  { split; [reflexivity | split; [| split]].
    - vm_compute. discriminate.
    - right. reflexivity.
    - intros _. reflexivity. }
  split; [exact Hs | split; [exact Hq |]].
  destruct (render_forms_one_undo_group sample_flower_params FlowerSpec.sample_state
              sample_params initial_yy Hs Hq) as (H1 & H2 & _).
  split; [exact H1 | exact H2].
Defined.

(** C9.  For a Frame Count [n] from 2 to 60 and either Direction, the
    animation loop of yin-yang-1-05 and of yin-yang-1-02 raises
    nothing and rotates [n - 1] layers, and every angle it hands to
    [gimp_item_transform_rotate] (before [math.radians]) lies between
    -180 and 180 degrees: in exact arithmetic, and in binary64
    arithmetic. *)
Theorem rotation_angles_in_bounds
        (n : Z) (p : params (F:=R)) (q : params (F:=float))
        (timer : string)
        (s : yy (F:=R)) (s' : YinYang102.YY (F:=R))
        (t : yy (F:=float)) (t' : YinYang102.YY (F:=float)) :
  2 <= n <= 60 ->
  frame_count p = IZR n ->
  direction p = 0 \/ direction p = 1 ->
  frame_count q = float_of_int n ->
  direction q = 0 \/ direction q = 1 ->
  (exists out, calls (process_frame_count p timer) s = Some out
               /\ List.length (rotations out) = Z.to_nat (n - 1)
               /\ Forall in_bounds_R (rotations out))
  /\ (exists out, calls (YinYang102.process_frame_count p timer) s' = Some out
                  /\ List.length (rotations out) = Z.to_nat (n - 1)
                  /\ Forall in_bounds_R (rotations out))
  /\ (exists out, calls (process_frame_count q timer) t = Some out
                  /\ List.length (rotations out) = Z.to_nat (n - 1)
                  /\ forallb in_bounds_float (rotations out) = true)
  /\ (exists out, calls (YinYang102.process_frame_count q timer) t' = Some out
                  /\ List.length (rotations out) = Z.to_nat (n - 1)
                  /\ forallb in_bounds_float (rotations out) = true).
Proof.
  intros Hn Hp Hdp Hq Hdq.
  assert (HnR : (2 <= IZR n <= 60)%R) by (split; apply IZR_le; lia).
  assert (Rp : animation_ready p).
  { split; [exact Hdp |]. intros _. rewrite Hp.
    cbn [feqb of_int R_PyFloat]. apply Reqb_false. lra. }
  destruct (animation_angles_float n (direction q) Hn Hdq) as (Hz & Lq & Bq).
  assert (Rq : animation_ready q).
  { split; [exact Hdq |]. intros _. rewrite Hq. exact Hz. }
  assert (Lp : List.length (animation_angles (IZR n) (direction p)) = Z.to_nat (n - 1))
    by (apply animation_angles_R_length; [lia | exact Hdp]).
  assert (Bp : Forall in_bounds_R (animation_angles (IZR n) (direction p)))
    by (apply animation_angles_R; assumption).
  split; [| split; [| split]].
  - destruct (runs_calls _ _ _ (process_frame_count_105_angles p timer s Rp))
      as (out & Hc & _ & _ & Ha).
    exists out. rewrite Ha, Hp. split; [exact Hc | split; assumption].
  - destruct (runs_calls _ _ _ (process_frame_count_102_angles p timer s' Rp))
      as (out & Hc & _ & _ & Ha).
    exists out. rewrite Ha, Hp. split; [exact Hc | split; assumption].
  - destruct (runs_calls _ _ _ (process_frame_count_105_angles q timer t Rq))
      as (out & Hc & _ & _ & Ha).
    exists out. rewrite Ha, Hq. split; [exact Hc | split; assumption].
  - destruct (runs_calls _ _ _ (process_frame_count_102_angles q timer t' Rq))
      as (out & Hc & _ & _ & Ha).
    exists out. rewrite Ha, Hq. split; [exact Hc | split; assumption].
Qed.

Lemma rotation_angles_in_bounds_witness :
  (exists out, calls (process_frame_count sample_params_R " (100ms)") initial_yy
               = Some out
               /\ List.length (rotations out) = 6%nat
               /\ Forall in_bounds_R (rotations out))
  /\ (exists out, calls (YinYang102.process_frame_count sample_params_R " (100ms)")
                        initial_YY = Some out
                  /\ List.length (rotations out) = 6%nat
                  /\ Forall in_bounds_R (rotations out))
  /\ (exists out, calls (process_frame_count sample_params " (100ms)") initial_yy
                  = Some out
                  /\ List.length (rotations out) = 6%nat
                  /\ forallb in_bounds_float (rotations out) = true)
  /\ (exists out, calls (YinYang102.process_frame_count sample_params " (100ms)")
                        initial_YY = Some out
                  /\ List.length (rotations out) = 6%nat
                  /\ forallb in_bounds_float (rotations out) = true).
Proof.
  apply (rotation_angles_in_bounds 7 sample_params_R sample_params " (100ms)"
           initial_yy initial_YY initial_yy initial_YY).
  - lia.
  - reflexivity.
  - right. reflexivity.
  - reflexivity.
  - right. reflexivity.
Defined.


End YinYangProperties.
End Properties.

(* ================================================================== *)
(** * Further properties, X1 to X19 *)
(* ================================================================== *)

Section MoreProperties.
Import Undo Frame FlowColor ColorSpec PolarSpec HLS Animation.
Import RealFacts PolarFacts UndoFacts AnimationFacts FrameFacts.
Import CircleSpec SelectionSpec GradientSpec TurnSpec GamutSpec Samples.

Section MoreFlowerProperties.
Import Flower FlowerSpec FlowerFacts.
Import RaiseFacts ListsFacts SelectionFacts RingFacts FitFacts.
Import FillSpec FillFacts.

(** X1: the point that [get_point_on_circle] returns lies on the
    circle around the focus of the radius given; the angle plus a
    whole turn gives the same point; the angle plus half a turn, and
    likewise the negated radius, give the point opposite, as seen
    from the focus. *)
Theorem point_on_circle_around_focus (f : point) (a r : R) :
  sq_distance (get_point_on_circle f a r) f = (r * r)%R
  /\ get_point_on_circle f (a + 2 * PI) r = get_point_on_circle f a r
  /\ get_point_on_circle f (a + PI) r = opposite f (get_point_on_circle f a r)
  /\ get_point_on_circle f a (- r) = opposite f (get_point_on_circle f a r).
Proof.
  split; [apply on_circle |].
  destruct f as [fx fy].
  unfold opposite, get_point_on_circle. cbn [fst snd].
  split; [| split].
  - rewrite sin_plus, cos_plus, sin_2PI, cos_2PI. f_equal; ring.
  - rewrite neg_sin, neg_cos. f_equal; ring.
  - f_equal; ring.
Qed.

(** X2: with the two lists of the sizes the module gives them,
    [draw_4th_ring] and [draw_6th_ring] raise exactly when
    [ring_center] holds an entry that is not a point, as it does until
    [draw_3rd_ring] has run. *)
Theorem rings_need_ring_center (c : color) (s : state) :
  lists_sized s ->
  (draw_4th_ring c s = None <-> forallb is_point (ring_center s) = false)
  /\ (draw_6th_ring c s = None <-> forallb is_point (ring_center s) = false).
Proof.
  intros [H6 H12]. split; split.
  - intros E. destruct (forallb is_point (ring_center s)) eqn:Hp; [| reflexivity].
    destruct (runs_not_raised _ _ _ (draw_4th_ring_spec c s H6 Hp) E).
  - apply draw_4th_ring_raises, H6.
  - intros E. destruct (forallb is_point (ring_center s)) eqn:Hp; [| reflexivity].
    destruct (runs_not_raised _ _ _ (draw_6th_ring_spec c s H6 Hp H12) E).
  - apply draw_6th_ring_raises, H6.
Qed.

Lemma rings_need_ring_center_witness :
  lists_sized blank_state
  /\ draw_4th_ring WHITE blank_state = None
  /\ draw_6th_ring WHITE blank_state = None.
Proof.
  assert (Hs : lists_sized blank_state) by (split; reflexivity).
  split; [exact Hs |].
  destruct (rings_need_ring_center WHITE blank_state Hs) as [[_ H4] [_ H6]].
  split; [apply H4 | apply H6]; reflexivity.
Defined.

(** X3: with twelve entries in [extra_ring], [create_bw_alpha] raises
    exactly when one of them is not a point, as until [draw_6th_ring]
    has run; otherwise it reads [extra_ring] at 0, 1, ..., 11 in this
    order, fills with black, then with white, then the frame, if it
    has a width, with white, and leaves the two lists as they were. *)
Theorem create_bw_alpha_needs_extra_ring (s : state) :
  List.length (extra_ring s) = 12%nat ->
  (create_bw_alpha s = None <-> forallb is_point (extra_ring s) = false)
  /\ (forallb is_point (extra_ring s) = true ->
      exists s' out,
        create_bw_alpha s = Some (tt, s', out)
        /\ extra_reads out = range 12
        /\ fill_colors out
           = [BLACK; WHITE] ++ (if frame_width s =? 0 then [] else [WHITE])
        /\ ring_center s' = ring_center s
        /\ extra_ring s' = extra_ring s).
Proof.
  intros H12.
  assert (G : forallb is_point (extra_ring s) = true ->
              exists s' out,
                create_bw_alpha s = Some (tt, s', out)
                /\ extra_reads out = range 12
                /\ fill_colors out
                   = [BLACK; WHITE] ++ (if frame_width s =? 0 then [] else [WHITE])
                /\ ring_center s' = ring_center s
                /\ extra_ring s' = extra_ring s).
  { intros Hp.
    destruct (create_bw_alpha_spec s H12 Hp)
      as ([] & s' & out & Hrun & n & Hs' & Hok & Hview).
    exists s', out. split; [exact Hrun |].
    split; [rewrite extra_reads_view, Hview; unfold mask_view, frame_view;
            destruct (frame_width s =? 0); reflexivity |].
    split; [rewrite fill_colors_view, Hview; unfold mask_view, frame_view;
            destruct (frame_width s =? 0); reflexivity |].
    rewrite Hs'. split; reflexivity. }
  split; [split | exact G].
  - intros E. destruct (forallb is_point (extra_ring s)) eqn:Hp; [| reflexivity].
    destruct (G eq_refl) as (s' & out & Hrun & _). rewrite Hrun in E. discriminate E.
  - apply create_bw_alpha_raises, H12.
Qed.

Lemma create_bw_alpha_needs_extra_ring_witness :
  List.length (extra_ring blank_state) = 12%nat
  /\ create_bw_alpha blank_state = None
  /\ List.length (extra_ring filled_state) = 12%nat
  /\ exists s' out,
      create_bw_alpha filled_state = Some (tt, s', out)
      /\ extra_reads out = range 12
      /\ fill_colors out = [BLACK; WHITE].
Proof.
  assert (Hb : List.length (extra_ring blank_state) = 12%nat) by reflexivity.
  assert (Hf : List.length (extra_ring filled_state) = 12%nat) by reflexivity.
  split; [exact Hb | split; [| split; [exact Hf |]]].
  - destruct (create_bw_alpha_needs_extra_ring blank_state Hb) as [[_ Hr] _].
    apply Hr. reflexivity.
  - destruct (create_bw_alpha_needs_extra_ring filled_state Hf) as [_ Hr].
    destruct (Hr eq_refl) as (s' & out & Hrun & Hread & Hfill & _).
    exists s', out. split; [exact Hrun | split; [exact Hread | exact Hfill]].
Defined.



(** X5: [render_flower], called with the two lists of the sizes the
    module gives them, whatever they hold, raises nothing and leaves
    a point in each of the six entries of [ring_center] and of the
    twelve of [extra_ring]; so a further call, on any input, raises
    nothing either. *)
Theorem render_flower_refills_lists (p p' : params) (s : state) :
  lists_sized s ->
  exists s1 out1 s2 out2,
    render_flower p s = Some (tt, s1, out1)
    /\ lists_filled (ring_center s1) (extra_ring s1)
    /\ render_flower p' s1 = Some (tt, s2, out2)
    /\ lists_filled (ring_center s2) (extra_ring s2).
Proof.
  intros Hs.
  destruct (render_flower_lists p s Hs) as ([] & s1 & out1 & Hrun1 & Hf1).
  assert (Hs1 : lists_sized s1).
  { destruct Hf1 as (F1 & _ & F3 & _). split; assumption. }
  destruct (render_flower_lists p' s1 Hs1) as ([] & s2 & out2 & Hrun2 & Hf2).
  exists s1, out1, s2, out2.
  split; [exact Hrun1 | split; [exact Hf1 | split; [exact Hrun2 | exact Hf2]]].
Qed.

Lemma render_flower_refills_lists_witness :
  lists_sized blank_state
  /\ exists s1 out1 s2 out2,
    render_flower sample_flower_params blank_state = Some (tt, s1, out1)
    /\ lists_filled (ring_center s1) (extra_ring s1)
    /\ render_flower framed_params s1 = Some (tt, s2, out2)
    /\ lists_filled (ring_center s2) (extra_ring s2).
Proof.
  assert (Hs : lists_sized blank_state) by (split; reflexivity).
  split; [exact Hs |].
  apply (render_flower_refills_lists sample_flower_params framed_params blank_state Hs).
Defined.

(** X6: with the circle diameter twice the circle radius, as
    [render_flower] sets them, [draw_flower_circle] raises nothing
    and selects, in Petals and Circles mode, the circle of that
    diameter around the point given, and in Lines mode the ring
    between two circles around it, of the diameter plus and less the
    line width (an odd line width moves their common centre by half a
    pixel along both axes). *)
Theorem draw_flower_circle_is_centred (x y : R) (c : color) (s : state) :
  circle_diameter s = 2 * circle_radius s ->
  (forall p s0,
      circle_diameter (init_globals p s0) = 2 * circle_radius (init_globals p s0))
  /\ exists s' out,
      draw_flower_circle x y c s = Some (tt, s', out)
      /\ ellipses (host_calls out)
         = if flower_type s =? LINES
           then [circle_around CHANNEL_OP_ADD
                   (x + line_shift s, y + line_shift s)%R
                   (IZR (circle_diameter s + line_width s));
                 circle_around CHANNEL_OP_SUBTRACT
                   (x + line_shift s, y + line_shift s)%R
                   (IZR (circle_diameter s - line_width s))]
           else [circle_around CHANNEL_OP_ADD (x, y) (IZR (circle_diameter s))].
Proof.
  intros Hd. split.
  - intros p s0. unfold init_globals. st_simpl. lia.
  - destruct (draw_flower_circle_ellipses x y c s Hd) as ([] & s' & out & Hrun & He).
    exists s', out. split; assumption.
Qed.

Lemma draw_flower_circle_is_centred_witness :
  circle_diameter sample_state = 2 * circle_radius sample_state
  /\ exists s' out,
      draw_flower_circle 202 136 WHITE sample_state = Some (tt, s', out)
      /\ ellipses (host_calls out)
         = [circle_around CHANNEL_OP_ADD (202, 136)%R 132].
Proof.
  assert (Hd : circle_diameter sample_state = 2 * circle_radius sample_state)
    by reflexivity.
  split; [exact Hd |].
  exact (proj2 (draw_flower_circle_is_centred 202 136 WHITE sample_state Hd)).
Defined.

(** X7: with a frame width other than zero [draw_frame] raises
    nothing, selects the ring between two circles around the centre
    of the image, the inner one of twice the flower radius across and
    the outer one wider by twice the frame width, and fills it with
    the colour given; in Lines mode both are wider by the line width,
    and an odd line width moves their centre by half a pixel along
    both axes. *)
Theorem draw_frame_is_ring (c : color) (s : state) :
  frame_width s <> 0 ->
  exists s' out,
    draw_frame c s = Some (tt, s', out)
    /\ ellipses (host_calls out)
       = [circle_around CHANNEL_OP_ADD
            (IZR (image_center s) + line_shift s, IZR (image_center s) + line_shift s)%R
            (IZR (flower_radius s * 2 + line_extra s + frame_width s * 2));
          circle_around CHANNEL_OP_SUBTRACT
            (IZR (image_center s) + line_shift s, IZR (image_center s) + line_shift s)%R
            (IZR (flower_radius s * 2 + line_extra s))]
    /\ fill_colors out = [c].
Proof.
  intros Hw.
  destruct (draw_frame_ellipses c s Hw) as ([] & s' & out & Hrun & He & Hc).
  exists s', out. split; [exact Hrun | split; assumption].
Qed.

Lemma draw_frame_is_ring_witness :
  frame_width framed_state <> 0
  /\ exists s' out,
    draw_frame BLACK framed_state = Some (tt, s', out)
    /\ ellipses (host_calls out)
       = [circle_around CHANNEL_OP_ADD (222 + 0, 222 + 0)%R 440;
          circle_around CHANNEL_OP_SUBTRACT (222 + 0, 222 + 0)%R 400]
    /\ fill_colors out = [BLACK].
Proof.
  assert (Hw : frame_width framed_state <> 0) by discriminate.
  split; [exact Hw |].
  exact (draw_frame_is_ring BLACK framed_state Hw).
Defined.

(** X8: with the circle diameter twice the circle radius and the
    focus at the centre of the image, as [render_flower] sets them,
    and in Petals or Circles mode, or in Lines mode with an even line
    width: [draw_1st_ring], [draw_2nd_ring] and [draw_5th_ring] raise
    nothing and each add six circles to the selection; what they
    select has its middle at the distance of one, two and three
    circle radii from the centre of the image.  In Petals and Circles
    mode the globals of [render_flower] are such. *)
Theorem rings_are_centred (c : color) (s : state) :
  circle_diameter s = 2 * circle_radius s ->
  line_shift s = 0%R ->
  image_focus s = (image_center s, image_center s) ->
  (exists s' out,
      draw_1st_ring c s = Some (tt, s', out)
      /\ centred_around (focus s) (IZR (circle_radius s)) (ellipses (host_calls out))
      /\ added (ellipses (host_calls out)) = 6%nat)
  /\ (exists s' out,
         draw_2nd_ring c s = Some (tt, s', out)
         /\ centred_around (focus s) (IZR (circle_radius s * 2))
              (ellipses (host_calls out))
         /\ added (ellipses (host_calls out)) = 6%nat)
  /\ (exists s' out,
         draw_5th_ring c s = Some (tt, s', out)
         /\ centred_around (focus s) (IZR (circle_radius s * 3))
              (ellipses (host_calls out))
         /\ added (ellipses (host_calls out)) = 6%nat)
  /\ (forall p s0,
         flower_part p <> LINES ->
         circle_diameter (init_globals p s0) = 2 * circle_radius (init_globals p s0)
         /\ line_shift (init_globals p s0) = 0%R
         /\ image_focus (init_globals p s0)
            = (image_center (init_globals p s0), image_center (init_globals p s0))).
Proof.
  intros Hd Hl Hf. split; [| split; [| split]].
  - destruct (draw_1st_ring_centred c s Hd Hl Hf) as ([] & s' & out & Hrun & H1 & H2).
    exists s', out. split; [exact Hrun | split; assumption].
  - destruct (draw_2nd_ring_centred c s Hd Hl Hf) as ([] & s' & out & Hrun & H1 & H2).
    exists s', out. split; [exact Hrun | split; assumption].
  - destruct (draw_5th_ring_centred c s Hd Hl) as ([] & s' & out & Hrun & H1 & H2).
    exists s', out. split; [exact Hrun | split; assumption].
  - intros p s0 Hp. split; [| split].
    + unfold init_globals. st_simpl. lia.
    + unfold line_shift, init_globals. st_simpl.
      apply Z.eqb_neq in Hp. rewrite Hp. reflexivity.
    + reflexivity.
Qed.

Lemma rings_are_centred_witness :
  exists s' out,
    draw_1st_ring WHITE sample_state = Some (tt, s', out)
    /\ centred_around (focus sample_state) (IZR (circle_radius sample_state))
         (ellipses (host_calls out))
    /\ added (ellipses (host_calls out)) = 6%nat.
Proof.
  apply (rings_are_centred WHITE sample_state); reflexivity.
Defined.

(** X9: for a Symbol Radius, a Frame Width and a Line Width that are
    not negative, in exact arithmetic, what [draw_frame] selects with
    the globals of [render_flower] lies within the image, no nearer
    than two pixels to any of its edges. *)
Theorem frame_fits_image (c : color) (p : params) (s0 : state) :
  (0 <= symbol_radius p)%R -> (0 <= frame_w p)%R -> (0 <= line_w p)%R ->
  exists s' out,
    draw_frame c (init_globals p s0) = Some (tt, s', out)
    /\ Forall (fun e => inside 2 (IZR (image_size (init_globals p s0))) (snd e))
              (ellipses (host_calls out)).
Proof.
  intros HR Hf Hl.
  destruct (draw_frame_fits c p s0 HR Hf Hl) as ([] & s' & out & Hrun & Hin).
  exists s', out. split; assumption.
Qed.

Lemma frame_fits_image_witness :
  exists s' out,
    draw_frame BLACK (init_globals framed_params sample_state) = Some (tt, s', out)
    /\ Forall (fun e => inside 2 (IZR (image_size (init_globals framed_params
                                                      sample_state))) (snd e))
              (ellipses (host_calls out)).
Proof.
  apply (frame_fits_image BLACK framed_params sample_state);
    cbn [symbol_radius frame_w line_w framed_params]; lra.
Defined.

(** X18: [render_flower], called with the two lists of the sizes the
    module gives them, raises nothing and sets these foreground
    colours for its fills, in order.  In a colour mode: white for the
    ground (not in Lines mode), the seven ring colours for the circle
    at the centre and the rings of 6, 6, 6, 12, 6 and 18 circles, and
    the frame colour if the frame has a width.  Then, in every mode:
    white for the ground (not in Lines mode), white for each of the
    55 circles and for the frame, and for the mask black, white and,
    for the frame, white.  Unless the mode is Random Colors, the ring
    colours and the frame colour are those of the dialog. *)
Theorem render_flower_fill_colors (p : params) (s : state) :
  lists_sized s ->
  exists s' out,
    render_flower p s = Some (tt, s', out)
    /\ fill_colors out
       = render_fills (mode p) (flower_part p)
           (to_int (frame_w p * IZR SCALE)%R) (ring_colors s') (frame_color s')
    /\ (mode p <> RANDOM_COLORS ->
        ring_colors s' = [color1 p; color2 p; color3 p; color4 p;
                          color5 p; color6 p; color7 p]
        /\ frame_color s' = frame_col p).
Proof.
  intros Hs.
  destruct (render_flower_fills p s Hs) as ([] & s' & out & Hrun & Hf & Hfw & Hc).
  exists s', out. split; [exact Hrun | split].
  - rewrite <- Hfw. exact Hf.
  - intros Hm. apply Hc, Z.eqb_neq, Hm.
Qed.

Lemma render_flower_fill_colors_witness :
  lists_sized blank_state
  /\ exists s' out,
    render_flower sample_flower_params blank_state = Some (tt, s', out)
    /\ fill_colors out
       = render_fills 1 CIRCLES (to_int (0 * IZR SCALE)%R)
           (ring_colors s') (frame_color s')
    /\ (1 <> RANDOM_COLORS ->
        ring_colors s' = [(255, 0, 0); (255, 128, 0); (255, 255, 0); (0, 255, 0);
                          (0, 255, 255); (0, 0, 255); (128, 0, 255)]
        /\ frame_color s' = BLACK).
Proof.
  assert (Hs : lists_sized blank_state) by (split; reflexivity).
  split; [exact Hs |].
  apply (render_flower_fill_colors sample_flower_params blank_state Hs).
Defined.
End MoreFlowerProperties.

Section MoreYinYangProperties.
Import YinYang YinYangSpec YinYangFacts YinYang102Spec YinYang102Facts.
Import GradientFacts YinYangGradientFacts TurnFacts ReadyFacts SideFacts GamutFacts.
Import PaintSpec PaintFacts Paint105Facts Paint102Facts.

(** X10: a call of [render_yin_yang] of yin-yang-1-02, on an input on
    which it raises nothing, issues one [gimp_image_undo_group_start]
    and one [gimp_image_undo_group_end]: no selection, fill, merge or
    transform is called before the first or after the second, and
    neither is called again between them.  In exact arithmetic it
    raises nothing on an input whose Eye Divisor lies between 6 and
    25, whose Flow Color 1 has components from 0 to 255 and whose
    Direction is one of the two options. *)
Theorem render_102_forms_one_undo_group {F : Type} `{PyFloat F}
        (p : params (F:=F)) (s : YinYang102.YY (F:=F)) :
  render_ready_102 p ->
  (exists out, calls (YinYang102.render_yin_yang p) s = Some out
               /\ one_undo_group out)
  /\ (forall q : params (F:=R), dialog_input q -> render_ready_102 q).
Proof.
  intros Hp. split; [| exact dialog_input_ready_102].
  destruct (runs_calls _ _ _ (render_yin_yang_102_spec p s Hp))
    as (out & Hc & _ & _ & Hg & _).
  exists out. split; assumption.
Qed.

Lemma render_102_forms_one_undo_group_witness :
  render_ready_102 sample_params
  /\ exists out, calls (YinYang102.render_yin_yang sample_params) initial_YY = Some out
                 /\ one_undo_group out.
Proof.
  assert (Hp : render_ready_102 sample_params).
  { split; [reflexivity | split; [| split]].
    - discriminate.
    - right. reflexivity.
    - intros _. reflexivity. }
  split; [exact Hp |].
  exact (proj1 (render_102_forms_one_undo_group sample_params initial_YY Hp)).
Defined.

(** X11: a call of [render_yin_yang] of yin-yang-1-05, on an input on
    which it raises nothing, deletes every gradient it has made: in
    the Gradient mode it makes two and afterwards deletes these two,
    in the order in which it made them; in any other mode it makes and
    deletes none. *)
Theorem render_deletes_its_gradients {F : Type} `{PyFloat F}
        (p : params (F:=F)) (s : yy (F:=F)) :
  render_ready p ->
  exists out gs,
    calls (render_yin_yang p) s = Some out
    /\ gradient_log out = List.map Created gs ++ List.map Deleted gs
    /\ List.length gs = gradient_count (mode p).
Proof.
  intros Hp.
  destruct (runs_calls _ _ _ (render_yin_yang_log p s Hp))
    as (out & Hc & _ & _ & gs & Hl & Hn).
  exists out, gs. split; [exact Hc | split; assumption].
Qed.

Lemma render_deletes_its_gradients_witness :
  render_ready gradient_params
  /\ exists out gs,
    calls (render_yin_yang gradient_params) initial_yy = Some out
    /\ gradient_log out = List.map Created gs ++ List.map Deleted gs
    /\ List.length gs = 2%nat.
Proof.
  assert (Hp : render_ready gradient_params).
  { split; [reflexivity | split; [| split]].
    - discriminate.
    - left. reflexivity.
    - intros E. discriminate E. }
  split; [exact Hp |].
  exact (render_deletes_its_gradients gradient_params initial_yy Hp).
Defined.

(** X12: a call of [render_yin_yang] of yin-yang-1-02, on an input on
    which it raises nothing, makes two gradients in the Gradient mode
    and none in any other, and deletes none: the gradients it makes
    stay with the host. *)
Theorem render_102_leaves_its_gradients {F : Type} `{PyFloat F}
        (p : params (F:=F)) (s : YinYang102.YY (F:=F)) :
  render_ready_102 p ->
  exists out gs,
    calls (YinYang102.render_yin_yang p) s = Some out
    /\ gradient_log out = List.map Created gs
    /\ List.length gs = gradient_count (mode p).
Proof.
  intros Hp.
  destruct (runs_calls _ _ _ (render_yin_yang_102_spec p s Hp))
    as (out & Hc & _ & _ & _ & gs & Hl & Hn).
  exists out, gs. split; [exact Hc | split; assumption].
Qed.

Lemma render_102_leaves_its_gradients_witness :
  render_ready_102 gradient_params
  /\ exists out gs,
    calls (YinYang102.render_yin_yang gradient_params) initial_YY = Some out
    /\ gradient_log out = List.map Created gs
    /\ List.length gs = 2%nat.
Proof.
  assert (Hp : render_ready_102 gradient_params).
  { split; [reflexivity | split; [| split]].
    - discriminate.
    - left. reflexivity.
    - intros E. discriminate E. }
  split; [exact Hp |].
  exact (render_102_leaves_its_gradients gradient_params initial_YY Hp).
Defined.

(** X13: in exact arithmetic, for a Frame Count [n] of at least 2 and
    either Direction, the animation loop of yin-yang-1-05 and of
    yin-yang-1-02 turns the [k]-th copy of the layer, counted from
    zero, by an angle that differs by whole turns from [k + 1] times
    360 / [n] degrees, taken negative for the second Direction: the
    frames are evenly spaced. *)
Theorem frames_evenly_spaced
        (n : Z) (p : params (F:=R)) (timer : string)
        (s : yy (F:=R)) (s' : YinYang102.YY (F:=R)) :
  2 <= n ->
  frame_count p = IZR n ->
  direction p = 0 \/ direction p = 1 ->
  (exists out, calls (process_frame_count p timer) s = Some out
               /\ evenly_spaced n (direction p) (rotations out))
  /\ (exists out, calls (YinYang102.process_frame_count p timer) s' = Some out
                  /\ evenly_spaced n (direction p) (rotations out)).
Proof.
  intros Hn Hp Hd.
  assert (Rp : animation_ready p).
  { split; [exact Hd |]. intros _. rewrite Hp.
    cbn [feqb of_int R_PyFloat]. apply Reqb_false.
    apply eq_IZR_contrapositive. lia. }
  pose proof (animation_angles_evenly_spaced n (direction p) Hn Hd) as He.
  rewrite <- Hp in He.
  split.
  - destruct (runs_calls _ _ _ (process_frame_count_105_angles p timer s Rp))
      as (out & Hc & _ & _ & Ha).
    exists out. rewrite Ha. split; assumption.
  - destruct (runs_calls _ _ _ (process_frame_count_102_angles p timer s' Rp))
      as (out & Hc & _ & _ & Ha).
    exists out. rewrite Ha. split; assumption.
Qed.

Lemma frames_evenly_spaced_witness :
  (exists out, calls (process_frame_count sample_params_R " (100ms)") initial_yy
               = Some out
               /\ evenly_spaced 7 1 (rotations out))
  /\ (exists out, calls (YinYang102.process_frame_count sample_params_R " (100ms)")
                        initial_YY = Some out
                  /\ evenly_spaced 7 1 (rotations out)).
Proof.
  apply (frames_evenly_spaced 7 sample_params_R " (100ms)" initial_yy initial_YY).
  - lia.
  - reflexivity.
  - right. reflexivity.
Defined.

(** X14: after the assignments at the top of [render_yin_yang], in
    exact arithmetic: in yin-yang-1-05 the corner of the circle that
    [draw_flow_selection] selects (the frame width plus the rim width
    times four, cut to an integer) is [yy.flow_offset] (the frame
    width plus the rim width as the dialog gives it) exactly when the
    Rim Width is zero; in yin-yang-1-02, which does not scale, the
    corner always is [YY.flow_offset]. *)
Theorem flow_offset_and_flow_circle
        (p : params (F:=R)) (e : R) (s0 : yy (F:=R)) (t0 : YinYang102.YY (F:=R))
        (o : channel_op) :
  (exists a w,
      calls (draw_flow_selection o) (initialize p e s0)
      = Some [gimp_image_select_ellipse o a a w w]
      /\ (yy_flow_offset (initialize p e s0) = a <-> rim_width p = 0%R))
  /\ (exists w,
         calls (YinYang102.draw_flow_selection o) (YinYang102.initialize p e t0)
         = Some [gimp_image_select_ellipse o
                   (YinYang102.YY_flow_offset (YinYang102.initialize p e t0))
                   (YinYang102.YY_flow_offset (YinYang102.initialize p e t0)) w w]).
Proof.
  split.
  - eexists _, _. split; [reflexivity |].
    cbn [yy_flow_offset yy_rim_width initialize].
    unfold FRAME_WIDTH, FRAME_WIDTH_INT, SCALE.
    cbn [fadd fmul of_int to_int R_PyFloat].
    rewrite <- (fourfold_fixed (rim_width p)).
    split; intros E; [| rewrite E; reflexivity].
    apply Rplus_eq_reg_l in E. symmetry. exact E.
  - eexists. reflexivity.
Qed.



(** X16: in exact arithmetic, with Flow Color 1 and Flow Color 2 of
    components from 0 to 255, the block [# Set colors:] of either
    version of the script raises nothing, whatever the mode, and
    leaves a Flow Color 2 of components from 0 to 255; in binary64
    arithmetic the three derivations by hue, lightness and saturation
    do so on the colours whose components are multiples of 17. *)
Theorem flow_color_2_in_gamut (mode : Z) (c1 c2 : color) :
  in_gamut c1 -> in_gamut c2 ->
  (exists c, set_colors_105 (F:=R) mode c1 c2 = Some c /\ in_gamut c)
  /\ (exists c, set_colors_102 (F:=R) mode c1 c2 = Some c /\ in_gamut c)
  /\ forallb (fun c => keeps_gamut Hue c && keeps_gamut Lightness c
                       && keeps_gamut Saturation c) grid = true.
Proof.
  intros H1 H2. split; [| split; [| exact grid_keeps_gamut]].
  - unfold set_colors_105.
    destruct (mode =? YY_INVERTED_COLOR);
      [eexists; split; [reflexivity | apply invert_rgb_in_gamut, H1] |].
    destruct ((mode =? YY_POLAR_HUE) || (mode =? YY_POLAR_LIGHTNESS)
              || (mode =? YY_POLAR_SATURATION));
      [apply invert_channel_in_gamut, H1 |].
    eexists; split; [reflexivity | exact H2].
  - unfold set_colors_102.
    destruct (mode =? 3);
      [eexists; split; [reflexivity | apply invert_rgb_in_gamut, H1] |].
    destruct ((mode =? 2) || (mode =? 4));
      [apply invert_channel_in_gamut, H1 |].
    eexists; split; [reflexivity | exact H2].
Qed.

Lemma flow_color_2_in_gamut_witness :
  in_gamut (0, 0, 255) /\ in_gamut (255, 255, 255)
  /\ exists c, set_colors_105 (F:=R) 5 (0, 0, 255) (255, 255, 255) = Some c
               /\ in_gamut c.
Proof.
  assert (H1 : in_gamut (0, 0, 255)) by (unfold in_gamut; lia).
  assert (H2 : in_gamut (255, 255, 255)) by (unfold in_gamut; lia).
  split; [exact H1 | split; [exact H2 |]].
  exact (proj1 (flow_color_2_in_gamut 5 (0, 0, 255) (255, 255, 255) H1 H2)).
Defined.

(** X17: in exact arithmetic, after the assignments at the top of
    [render_yin_yang], [draw_side] selects the picture of a yin-yang:
    the flow circle around the centre of the image; two heads of half
    its diameter, around the points a quarter of its diameter above
    and below the centre; and two eyes of twice the eye radius across
    around the same two points.  This holds in yin-yang-1-05 for a
    Symbol Diameter that is a whole number and a Rim Width of zero
    (the flow circle is then four times the Symbol Diameter across),
    and in yin-yang-1-02 for a Symbol Diameter that is an even number
    and any Rim Width (the flow circle is then the Symbol Diameter
    less twice the Rim Width across). *)
Theorem yin_yang_picture
        (n : Z) (p : params (F:=R)) (e : R)
        (s0 : yy (F:=R)) (t0 : YinYang102.YY (F:=R))
        (c : color) (g : option handle) (pat : string) (i : Z) :
  i = 0 \/ i = 1 ->
  (mode p = 1 -> g <> None) ->
  (symbol_diameter p = IZR n -> rim_width p = 0%R ->
   exists out,
     calls (draw_side c g pat i) (initialize p e s0) = Some out
     /\ side_picture i (IZR (2 * n + 2)) (IZR (4 * n)) (e * 2)%R out)
  /\ (symbol_diameter p = IZR (2 * n) ->
      exists out,
        calls (YinYang102.draw_side c g pat i) (YinYang102.initialize p e t0) = Some out
        /\ side_picture i (IZR (n + 2)) (IZR (2 * n) - rim_width p * 2)%R
             (e * 2)%R out).
Proof.
  intros Hi Hg. split.
  - intros Hn Hw.
    destruct (runs_calls _ _ _ (draw_side_picture n p e s0 c g pat i Hi Hg Hn Hw))
      as (out & Hc & _ & _ & Hp).
    exists out. split; assumption.
  - intros Hn.
    destruct (runs_calls _ _ _ (draw_side_102_picture n p e t0 c g pat i Hi Hg Hn))
      as (out & Hc & _ & _ & Hp).
    exists out. split; assumption.
Qed.

Lemma yin_yang_picture_witness :
  (exists out,
      calls (draw_side (0, 0, 255) None "Pine" 0)
            (initialize sample_params_R 100%R initial_yy) = Some out
      /\ side_picture 0 1002 2000 (100 * 2)%R out)
  /\ (exists out,
         calls (YinYang102.draw_side (0, 0, 255) None "Pine" 0)
               (YinYang102.initialize sample_params_R 100%R initial_YY) = Some out
         /\ side_picture 0 252 (500 - 0 * 2)%R (100 * 2)%R out).
Proof.
  split.
  - apply (yin_yang_picture 500 sample_params_R 100%R initial_yy initial_YY
             (0, 0, 255) None "Pine" 0).
    + left. reflexivity.
    + intros E. discriminate E.
    + reflexivity.
    + reflexivity.
  - apply (yin_yang_picture 250 sample_params_R 100%R initial_yy initial_YY
             (0, 0, 255) None "Pine" 0).
    + left. reflexivity.
    + intros E. discriminate E.
    + reflexivity.
Defined.

(** X19: on an input on which it raises nothing, [render_yin_yang]
    paints the first side, then the second, then the rim if it has a
    width.  In the Gradient mode the first side is painted with a
    gradient from Flow Color 1 to Flow Color 2 and the second with a
    gradient from Flow Color 2 to Flow Color 1; in the pattern mode
    (6 in yin-yang-1-05, 5 in yin-yang-1-02) the first with Flow
    Pattern 1 and the second with Flow Pattern 2; in any other mode
    the first with Flow Color 1 and the second with the second colour
    as the Set colors block leaves it.  The rim is painted with the
    Rim Color in every mode. *)
Theorem sides_and_rim_painted {F : Type} `{PyFloat F}
        (p : params (F:=F)) (s : yy (F:=F)) (t : YinYang102.YY (F:=F)) :
  (render_ready p ->
   exists out c2,
     calls (render_yin_yang p) s = Some out
     /\ set_colors_105 (mode p) (flow_color_1 p) (flow_color_2 p) = Some c2
     /\ paints out
        = side_paints (mode p) YY_PATTERN (flow_color_1 p) c2
            (flow_pattern_1 p) (flow_pattern_2 p)
          ++ rim_paint (to_int (fmul (rim_width p) (of_int SCALE)) =? 0)
               (rim_color p))
  /\ (render_ready_102 p ->
      exists out c2,
        calls (YinYang102.render_yin_yang p) t = Some out
        /\ set_colors_102 (mode p) (flow_color_1 p) (flow_color_2 p) = Some c2
        /\ paints out
           = side_paints (mode p) 5 (flow_color_1 p) c2
               (flow_pattern_1 p) (flow_pattern_2 p)
             ++ rim_paint (feqb (rim_width p) (of_int 0)) (rim_color p)).
Proof.
  split; intros Hp.
  - destruct (runs_calls _ _ _ (render_yin_yang_paint p s Hp))
      as (out & Hc & _ & _ & c2 & Hs & Hq).
    exists out, c2. split; [exact Hc | split; assumption].
  - destruct (runs_calls _ _ _ (render_yin_yang_102_paint p t Hp))
      as (out & Hc & _ & _ & c2 & Hs & Hq).
    exists out, c2. split; [exact Hc | split; assumption].
Qed.

Lemma sides_and_rim_painted_witness :
  (exists out c2,
      calls (render_yin_yang gradient_params) initial_yy = Some out
      /\ set_colors_105 1 (0, 0, 255) (255, 255, 255) = Some c2
      /\ paints out
         = side_paints 1 YY_PATTERN (0, 0, 255) c2 "Pine" "Marble #1"
           ++ rim_paint (to_int (fmul 5%float (of_int SCALE)) =? 0)
                (127, 127, 127))
  /\ (exists out c2,
         calls (YinYang102.render_yin_yang gradient_params) initial_YY = Some out
         /\ set_colors_102 1 (0, 0, 255) (255, 255, 255) = Some c2
         /\ paints out
            = side_paints 1 5 (0, 0, 255) c2 "Pine" "Marble #1"
              ++ rim_paint (feqb 5%float (of_int 0)) (127, 127, 127)).
Proof.
  split.
  - apply (sides_and_rim_painted gradient_params initial_yy initial_YY).
    split; [reflexivity | split; [| split]].
    + discriminate.
    + left. reflexivity.
    + intros E. discriminate E.
  - apply (sides_and_rim_painted gradient_params initial_yy initial_YY).
    split; [reflexivity | split; [| split]].
    + discriminate.
    + left. reflexivity.
    + intros E. discriminate E.
Defined.
End MoreYinYangProperties.
End MoreProperties.
